(** * Documentation generator: extraction, prompt building, aggregation, report

    A shallow embedding of the analysis-and-assembly pipeline of the
    repository:

    - [parser.py]        : [extract_functions_and_docs]
    - [doc_generator.py] : [generate_doc], [main], [combine_markdown_files]
    - [srs_generator.py] : [create_table_of_contents], [generate_srs_content]

    Python [str] values are sequences of Unicode code points; exceptions are
    values of [exn] carried by the [result] type; console output and the
    file system are threaded explicitly. *)

From Stdlib Require Import Ascii String DecimalString DecimalNat.
From Stdlib Require Import List Arith ZArith NArith Lia Bool.
From Stdlib Require Import Sorting.Permutation Sorting.Sorted.
From Equations Require Import Equations.
Import ListNotations.

Set Implicit Arguments.
Set Warnings "-register-all".

(* ===================================================================== *)
(** ** Text *)
(* ===================================================================== *)

(** A Python [str]: a sequence of code points. *)
Definition codepoint := N.
Definition text := list codepoint.

(** An ASCII literal as a [text]. *)
Definition txt (s : String.string) : text :=
  map N_of_ascii (String.list_ascii_of_string s).
Arguments txt s%_string.

Definition cp_eqb (a b : codepoint) : bool := N.eqb a b.

Fixpoint text_eqb (a b : text) : bool :=
  match a, b with
  | [], [] => true
  | x :: a', y :: b' => cp_eqb x y && text_eqb a' b'
  | _, _ => false
  end.

(** [s.startswith(p)] *)
Fixpoint startswith (p s : text) : bool :=
  match p, s with
  | [], _ => true
  | x :: p', y :: s' => cp_eqb x y && startswith p' s'
  | _ :: _, [] => false
  end.

(** [p in s]: [p] occurs in [s] as a contiguous run. *)
Definition occurs_in (p s : text) : Prop := exists a b, s = a ++ p ++ b.

(* ===================================================================== *)
(** ** Exceptions and results *)
(* ===================================================================== *)

(** The exceptions the modelled code can meet.  All of them derive from
    Python's [Exception], so an [except Exception] clause catches each. *)
Inductive exn : Type :=
| SyntaxError (filename : text) (msg : text) (line : nat)
| OSError (msg : text)
| FileNotFoundError (msg : text)
| UnicodeDecodeError
| IndexError (msg : text)
| KeyError (key : text)
| ValueError (msg : text)
| ServiceError (msg : text).

Inductive result (A : Type) : Type :=
| Ok (a : A)
| Raise (e : exn).
Arguments Ok {A} a.
Arguments Raise {A} e.

Definition bind {A B} (r : result A) (k : A -> result B) : result B :=
  match r with
  | Ok a => k a
  | Raise e => Raise e
  end.

Declare Scope result_scope.
Delimit Scope result_scope with result.
Notation "x <- c1 ;; c2" := (bind c1 (fun x => c2))
  (at level 100, c1 at next level, right associativity) : result_scope.
Open Scope result_scope.

(** [for x in l: ys.append(f x)], where [f] may raise: the first exception
    ends the loop. *)
Fixpoint mapM {A B} (f : A -> result B) (l : list A) : result (list B) :=
  match l with
  | [] => Ok []
  | x :: l' =>
      y <- f x ;;
      ys <- mapM f l' ;;
      Ok (y :: ys)
  end.

(* ===================================================================== *)
(** ** Python string operations *)
(* ===================================================================== *)

Definition LF : codepoint := 10%N.
Definition CR : codepoint := 13%N.

(** [str.isspace] on one code point (CPython's [_PyUnicode_IsWhitespace]). *)
Definition is_space (c : codepoint) : bool :=
  ((9 <=? c) && (c <=? 13) || (28 <=? c) && (c <=? 32)
   || (c =? 133) || (c =? 160) || (c =? 5760)
   || (8192 <=? c) && (c <=? 8202)
   || (c =? 8232) || (c =? 8233) || (c =? 8239) || (c =? 8287)
   || (c =? 12288))%N.

Fixpoint lstrip (s : text) : text :=
  match s with
  | [] => []
  | c :: s' => if is_space c then lstrip s' else s
  end.

Definition rstrip (s : text) : text := rev (lstrip (rev s)).

(** [s.strip()] *)
Definition strip (s : text) : text := rstrip (lstrip s).

(** [s.replace(old, new)]: every occurrence of [old], found left to right
    without overlap, becomes [new].  [skip] counts the code points of a
    matched occurrence still to be passed over. *)
Fixpoint replace_from (old new : text) (skip : nat) (s : text) : text :=
  match s with
  | [] => []
  | c :: s' =>
      match skip with
      | S k => replace_from old new k s'
      | O =>
          if startswith old s
          then new ++ replace_from old new (length old - 1) s'
          else c :: replace_from old new 0 s'
      end
  end.

Definition replace (old new s : text) : text :=
  match old with
  | [] => new ++ flat_map (fun c => c :: new) s
  | _ :: _ => replace_from old new 0 s
  end.

(** [s.split(sep)] for a non-empty [sep] (an empty one raises
    [ValueError]).  [cur] is the segment being collected. *)
Fixpoint split_from (sep : text) (skip : nat) (cur : text) (s : text)
  : list text :=
  match s with
  | [] => [cur]
  | c :: s' =>
      match skip with
      | S k => split_from sep k cur s'
      | O =>
          if startswith sep s
          then cur :: split_from sep (length sep - 1) [] s'
          else split_from sep 0 (cur ++ [c]) s'
      end
  end.

Definition split (sep s : text) : result (list text) :=
  match sep with
  | [] => Raise (ValueError (txt "empty separator"))
  | _ :: _ => Ok (split_from sep 0 [] s)
  end.

(** [os.path.basename(p)]: what follows the last ['/']. *)
Fixpoint basename_from (cur : text) (p : text) : text :=
  match p with
  | [] => cur
  | c :: p' =>
      if cp_eqb c 47%N then basename_from [] p' else basename_from (cur ++ [c]) p'
  end.

Definition basename (p : text) : text := basename_from [] p.

(** [os.path.join(a, b)] (posixpath). *)
Definition path_join (a b : text) : text :=
  if startswith (txt "/") b then b
  else match a with
       | [] => b
       | _ :: _ => if cp_eqb (last a 0%N) 47%N then a ++ b else a ++ txt "/" ++ b
       end.

(** [s.endswith(p)] *)
Definition endswith (p s : text) : bool := startswith (rev p) (rev s).

(** The names [glob.glob(os.path.join(dirname, '*' + ext))] returns for a
    directory whose entries are [listing], in the directory's own order:
    hidden entries are skipped, the pattern is matched on the entry name, and
    each match is joined to the directory. *)
Definition glob_ext (dirname ext : text) (listing : list text) : list text :=
  map (path_join dirname)
      (filter (fun n => negb (startswith (txt ".") n) && endswith ext n)
              listing).

(** [str(n)] for a non-negative [int]. *)
Definition str_nat (n : nat) : text :=
  txt (DecimalString.NilEmpty.string_of_uint (Nat.to_uint n)).

(** [str(e)] for the exceptions above.  [KeyError] prints the [repr] of its
    key (written here for keys without quote or escape characters);
    [SyntaxError] prints its message followed by the file's base name and
    the line. *)
Definition str_exn (e : exn) : text :=
  match e with
  | SyntaxError filename msg line =>
      msg ++ txt " (" ++ basename filename ++ txt ", line "
          ++ str_nat line ++ txt ")"
  | OSError msg => msg
  | FileNotFoundError msg => msg
  | UnicodeDecodeError => txt "'utf-8' codec can't decode bytes"
  | IndexError msg => msg
  | KeyError key => txt "'" ++ key ++ txt "'"
  | ValueError msg => msg
  | ServiceError msg => msg
  end.

(** *** Lexicographic order and [list.sort] *)

(** [a <= b] on [str]: code point by code point, a proper prefix first. *)
Fixpoint text_leb (a b : text) : bool :=
  match a, b with
  | [], _ => true
  | _ :: _, [] => false
  | x :: a', y :: b' =>
      if (x <? y)%N then true
      else if (y <? x)%N then false
      else text_leb a' b'
  end.

Fixpoint insert_sorted (x : text) (l : list text) : list text :=
  match l with
  | [] => [x]
  | y :: l' => if text_leb x y then x :: l else y :: insert_sorted x l'
  end.

(** [l.sort()] on a list of [str]: the ascending arrangement of [l].  Equal
    strings are indistinguishable, so the stable sort Python runs and
    insertion sort return the same list. *)
Fixpoint sort (l : list text) : list text :=
  match l with
  | [] => []
  | x :: l' => insert_sorted x (sort l')
  end.

(** *** [str.title] *)

(** The part of the Unicode character database [str.title] consults, as
    compiled into the interpreter. *)
Record UnicodeDB : Type := {
  is_cased : codepoint -> bool;
  is_case_ignorable : codepoint -> bool;
  to_lower_full : codepoint -> text;
  to_title_full : codepoint -> text
}.

Definition first_not_ignorable (db : UnicodeDB) (s : text) : option codepoint :=
  find (fun c => negb (is_case_ignorable db c)) s.

(** CPython's [handle_capital_sigma]: [before] holds the code points that
    precede the sigma, nearest first; [after] those that follow. *)
Definition handle_capital_sigma (db : UnicodeDB) (before after : text)
  : codepoint :=
  let final_sigma :=
    match first_not_ignorable db before with
    | Some c =>
        is_cased db c &&
        match first_not_ignorable db after with
        | Some c' => negb (is_cased db c')
        | None => true
        end
    | None => false
    end in
  if final_sigma then 962%N else 963%N.

Definition lower_ucs4 (db : UnicodeDB) (before : text) (c : codepoint)
  (after : text) : text :=
  if (c =? 931)%N then [handle_capital_sigma db before after]
  else to_lower_full db c.

(** CPython's [do_title]: a code point is lower-cased when the one before it
    in the input is cased and title-cased otherwise. *)
Fixpoint do_title (db : UnicodeDB) (before : text) (previous_is_cased : bool)
  (s : text) : text :=
  match s with
  | [] => []
  | c :: s' =>
      (if previous_is_cased then lower_ucs4 db before c s'
       else to_title_full db c)
      ++ do_title db (c :: before) (is_cased db c) s'
  end.

(** [s.title()] *)
Definition title (db : UnicodeDB) (s : text) : text := do_title db [] false s.

(** *** [str.format] *)

(** A value passed to [str.format] by keyword: a [str], or [None]. *)
Inductive pyval : Type :=
| VStr (s : text)
| VNone.

(** [str(v)] *)
Definition str_val (v : pyval) : text :=
  match v with
  | VStr s => s
  | VNone => txt "None"
  end.

Definition LBRACE : codepoint := 123%N.
Definition RBRACE : codepoint := 125%N.
Definition LBRACKET : codepoint := 91%N.
Definition RBRACKET : codepoint := 93%N.
Definition BANG : codepoint := 33%N.
Definition COLON : codepoint := 58%N.
Definition DOT : codepoint := 46%N.

Definition is_ascii_digit (c : codepoint) : bool := ((48 <=? c) && (c <=? 57))%N.

Fixpoint lookup_kw (kwargs : list (text * pyval)) (key : text)
  : option pyval :=
  match kwargs with
  | [] => None
  | (k, v) :: kwargs' => if text_eqb k key then Some v else lookup_kw kwargs' key
  end.

(** A replacement field without conversion, format spec, attribute or index
    access, whose name holds an ASCII character that is not a digit: a plain
    keyword reference. *)
Definition is_plain_key (name : text) : bool :=
  negb (existsb (fun c => cp_eqb c DOT || cp_eqb c LBRACKET) name)
  && existsb (fun c => (c <? 128)%N && negb (is_ascii_digit c)) name.

Section Format.

(** What the library does with the replacement fields this development
    does not spell out (attribute and index access, [!r]-style conversions,
    format specs, names made of non-ASCII characters only): the field's
    name, conversion and format spec give a rendering or an exception. *)
Variable render_extended :
  list (text * pyval) -> text -> option codepoint -> text -> result text.

Variable kwargs : list (text * pyval).

(** Rendering of one parsed field, positional arguments being absent. *)
Definition render_field (name : text) (conv : option codepoint)
  (spec : text) : result text :=
  match conv, spec with
  | None, [] =>
      match name with
      | [] =>
          Raise (IndexError
            (txt "Replacement index 0 out of range for positional args tuple"))
      | _ :: _ =>
          if forallb is_ascii_digit name then
            Raise (IndexError
              (txt "Replacement index " ++ name
                 ++ txt " out of range for positional args tuple"))
          else if is_plain_key name then
            match lookup_kw kwargs name with
            | Some v => Ok (str_val v)
            | None => Raise (KeyError name)
            end
          else render_extended kwargs name conv spec
      end
  | _, _ => render_extended kwargs name conv spec
  end.

(** The scan of the format string (CPython's [MarkupIterator_next] and
    [parse_field]): [fmt_literal] copies literal text, a doubled brace
    standing for one; [fmt_name] reads a field name up to [}], [!] or [:],
    a bracketed index hiding those; [fmt_conv] reads a conversion;
    [fmt_spec] reads a format spec with balanced braces.  [out] is the
    output so far. *)
Fixpoint fmt_literal (out : text) (s : text) {struct s} : result text :=
  match s with
  | [] => Ok out
  | c :: s' =>
      if cp_eqb c LBRACE then
        match s' with
        | [] => Raise (ValueError (txt "Single '{' encountered in format string"))
        | c2 :: s'' =>
            if cp_eqb c2 LBRACE then fmt_literal (out ++ [c]) s''
            else fmt_name out false [] s'
        end
      else if cp_eqb c RBRACE then
        match s' with
        | [] => Raise (ValueError (txt "Single '}' encountered in format string"))
        | c2 :: s'' =>
            if cp_eqb c2 RBRACE then fmt_literal (out ++ [c]) s''
            else Raise (ValueError (txt "Single '}' encountered in format string"))
        end
      else fmt_literal (out ++ [c]) s'
  end
with fmt_name (out : text) (in_bracket : bool) (name : text) (s : text)
  {struct s} : result text :=
  match s with
  | [] => Raise (ValueError (txt "expected '}' before end of string"))
  | c :: s' =>
      if in_bracket then
        fmt_name out (negb (cp_eqb c RBRACKET)) (name ++ [c]) s'
      else if cp_eqb c LBRACE then
        Raise (ValueError (txt "unexpected '{' in field name"))
      else if cp_eqb c LBRACKET then fmt_name out true (name ++ [c]) s'
      else if cp_eqb c RBRACE then
        match render_field name None [] with
        | Ok v => fmt_literal (out ++ v) s'
        | Raise e => Raise e
        end
      else if cp_eqb c BANG then fmt_conv out name s'
      else if cp_eqb c COLON then fmt_spec out name None 1 [] s'
      else fmt_name out false (name ++ [c]) s'
  end
with fmt_conv (out : text) (name : text) (s : text) {struct s}
  : result text :=
  match s with
  | [] =>
      Raise (ValueError
        (txt "end of string while looking for conversion specifier"))
  | cv :: s' =>
      match s' with
      | [] => Raise (ValueError (txt "unmatched '{' in format spec"))
      | c :: s'' =>
          if cp_eqb c RBRACE then
            match render_field name (Some cv) [] with
            | Ok v => fmt_literal (out ++ v) s''
            | Raise e => Raise e
            end
          else if cp_eqb c COLON then fmt_spec out name (Some cv) 1 [] s''
          else Raise (ValueError (txt "expected ':' after conversion specifier"))
      end
  end
with fmt_spec (out : text) (name : text) (conv : option codepoint)
  (count : nat) (spec : text) (s : text) {struct s} : result text :=
  match s with
  | [] => Raise (ValueError (txt "unmatched '{' in format spec"))
  | c :: s' =>
      if cp_eqb c LBRACE then
        fmt_spec out name conv (S count) (spec ++ [c]) s'
      else if cp_eqb c RBRACE then
        match count with
        | 0 | 1 =>
            match render_field name conv spec with
            | Ok v => fmt_literal (out ++ v) s'
            | Raise e => Raise e
            end
        | S k => fmt_spec out name conv k (spec ++ [c]) s'
        end
      else fmt_spec out name conv count (spec ++ [c]) s'
  end.

(** [template.format(k1=v1, ...)] with the keyword arguments [kwargs]. *)
Definition format (template : text) : result text := fmt_literal [] template.

End Format.

(** *** Indexing and slicing *)

(** [l[i]], a negative [i] counting from the end. *)
Definition py_index {A} (l : list A) (i : Z) : result A :=
  let n := Z.of_nat (length l) in
  let j := (if i <? 0 then i + n else i)%Z in
  if ((j <? 0) || (n <=? j))%Z
  then Raise (IndexError (txt "list index out of range"))
  else match nth_error l (Z.to_nat j) with
       | Some x => Ok x
       | None => Raise (IndexError (txt "list index out of range"))
       end.

(** A slice bound brought into [0..n], a negative one counting from the
    end. *)
Definition slice_bound (n : nat) (i : Z) : nat :=
  let j := (if i <? 0 then i + Z.of_nat n else i)%Z in
  Z.to_nat (Z.max 0 (Z.min (Z.of_nat n) j)).

Definition slice_lo (n : nat) (lo : option Z) : nat :=
  match lo with Some i => slice_bound n i | None => 0 end.

Definition slice_hi (n : nat) (hi : option Z) : nat :=
  match hi with Some i => slice_bound n i | None => n end.

(** [l[lo:hi]] *)
Definition py_slice {A} (l : list A) (lo hi : option Z) : list A :=
  let a := slice_lo (length l) lo in
  let b := slice_hi (length l) hi in
  firstn (b - a) (skipn a l).

(** Length of the UTF-8 encoding of one code point. *)
Definition utf8_len (c : codepoint) : nat :=
  if (c <? 128)%N then 1
  else if (c <? 2048)%N then 2
  else if (c <? 65536)%N then 3
  else 4.

(** [len(s.encode())] *)
Definition byte_length (s : text) : nat := list_sum (map utf8_len s).

(** The code points whose encodings fill exactly the first [k] bytes of the
    encoding of [s], and the rest; [None] when byte [k] lies inside the
    encoding of a code point. *)
Fixpoint split_at_byte (k : nat) (s : text) : option (text * text) :=
  match k, s with
  | O, _ => Some ([], s)
  | _, [] => Some ([], [])
  | _, c :: s' =>
      if utf8_len c <=? k then
        match split_at_byte (k - utf8_len c) s' with
        | Some (a, b) => Some (c :: a, b)
        | None => None
        end
      else None
  end.

(** [s.encode()[lo:hi].decode()]: a slice on the UTF-8 bytes of [s], read
    back as text.  An empty slice decodes to the empty string; a slice that
    cuts a code point's encoding does not decode. *)
Definition byte_slice (s : text) (lo hi : option Z) : result text :=
  let a := slice_lo (byte_length s) lo in
  let b := slice_hi (byte_length s) hi in
  if b <=? a then Ok []
  else match split_at_byte a s with
       | None => Raise UnicodeDecodeError
       | Some (_, r) =>
           match split_at_byte (b - a) r with
           | None => Raise UnicodeDecodeError
           | Some (seg, _) => Ok seg
           end
       end.

(* ===================================================================== *)
(** ** parser.py *)
(* ===================================================================== *)

Module Parser.

(** The classes of AST node the extractor can meet.  [FunctionDef] is a
    [def], [AsyncFunctionDef] an [async def]; every other class that is
    neither a class definition nor a lambda is [OtherNode]. *)
Inductive node_kind : Type :=
| ModuleNode | FunctionDef | AsyncFunctionDef | ClassDef | Lambda | OtherNode.

(** The position attributes the parser attaches to a node: 1-based lines,
    0-based UTF-8 byte columns. *)
Record position : Type := {
  lineno : Z;
  col_offset : Z;
  end_lineno : option Z;
  end_col_offset : option Z
}.

(** An AST node: its class, its [name] attribute, what [ast.get_docstring]
    returns for it, its position, and its child nodes in the order of
    [ast.iter_child_nodes]. *)
Inductive node : Type :=
| Node (kind : node_kind) (name : text) (docstring : option text)
       (pos : position) (children : list node).

Definition kind (n : node) : node_kind :=
  match n with Node k _ _ _ _ => k end.
Definition name (n : node) : text :=
  match n with Node _ nm _ _ _ => nm end.
Definition docstring (n : node) : option text :=
  match n with Node _ _ d _ _ => d end.
Definition pos (n : node) : position :=
  match n with Node _ _ _ p _ => p end.
Definition children (n : node) : list node :=
  match n with Node _ _ _ _ ch => ch end.

Fixpoint node_size (n : node) : nat :=
  match n with
  | Node _ _ _ _ ch =>
      S ((fix forest (l : list node) : nat :=
            match l with
            | [] => 0
            | c :: l' => node_size c + forest l'
            end) ch)
  end.

Definition forest_size (l : list node) : nat := list_sum (map node_size l).

Lemma node_size_children n : node_size n = S (forest_size (children n)).
Proof.
  destruct n as [k nm d p ch]. simpl. f_equal.
  induction ch as [|c ch IH]; simpl; [reflexivity|].
  unfold forest_size in IH. now rewrite IH.
Qed.

Lemma forest_size_app l1 l2 :
  forest_size (l1 ++ l2) = forest_size l1 + forest_size l2.
Proof. unfold forest_size. now rewrite map_app, list_sum_app. Qed.

(** [ast.walk]: breadth first, from a queue of nodes still to visit:
    [node = todo.popleft(); todo.extend(iter_child_nodes(node)); yield node]. *)
Equations? walk_queue (todo : list node) : list node
  by wf (forest_size todo) lt :=
  walk_queue [] := [];
  walk_queue (n :: todo) := n :: walk_queue (todo ++ children n).
Proof.
  rewrite forest_size_app. unfold forest_size at 3. simpl.
  rewrite node_size_children. fold (forest_size todo). lia.
Qed.

Definition walk (tree : node) : list node := walk_queue [tree].

(** [_splitlines_no_ff]: lines end at a line feed, a carriage return, or a
    carriage return followed by a line feed, and keep their ending. *)
Fixpoint splitlines_from (next_line : text) (source : text) : list text :=
  match source with
  | [] => match next_line with [] => [] | _ :: _ => [next_line] end
  | c :: rest =>
      if cp_eqb c CR then
        match rest with
        | c2 :: rest' =>
            if cp_eqb c2 LF
            then (next_line ++ [c; c2]) :: splitlines_from [] rest'
            else (next_line ++ [c]) :: splitlines_from [] rest
        | [] => (next_line ++ [c]) :: splitlines_from [] rest
        end
      else if cp_eqb c LF then (next_line ++ [c]) :: splitlines_from [] rest
      else splitlines_from (next_line ++ [c]) rest
  end.

Definition splitlines_no_ff (source : text) : list text :=
  splitlines_from [] source.

(** [ast.get_source_segment(source, node)] *)
Definition get_source_segment (source : text) (n : node)
  : result (option text) :=
  match end_lineno (pos n), end_col_offset (pos n) with
  | Some node_end_lineno, Some end_col =>
      let lineno := (lineno (pos n) - 1)%Z in
      let end_lineno := (node_end_lineno - 1)%Z in
      let col := col_offset (pos n) in
      let lines := splitlines_no_ff source in
      if (end_lineno =? lineno)%Z then
        line <- py_index lines lineno ;;
        seg <- byte_slice line (Some col) (Some end_col) ;;
        Ok (Some seg)
      else
        first_line <- py_index lines lineno ;;
        first <- byte_slice first_line (Some col) None ;;
        last_line <- py_index lines end_lineno ;;
        last <- byte_slice last_line None (Some end_col) ;;
        let middle := py_slice lines (Some (lineno + 1)%Z) (Some end_lineno) in
        Ok (Some (concat (first :: middle ++ [last])))
  | _, _ => Ok None
  end.

(** One entry of [function_data]. *)
Record SourceUnit : Type := {
  unit_name : text;
  unit_docstring : text;
  unit_code : option text
}.

Definition is_FunctionDef (n : node) : bool :=
  match kind n with FunctionDef => true | _ => false end.

(** [docstring or ""] *)
Definition or_empty (d : option text) : text :=
  match d with Some s => s | None => [] end.

(** How the parser refuses a text: with a syntax error, of which it gives
    the message and the line, or with another exception (for a text with a
    NUL character, a [ValueError] in CPython 3.11). *)
Inductive refusal : Type :=
| SyntaxFailure (msg : text) (line : nat)
| OtherFailure (e : exn).

Section Extract.

(** [open(path).read()]: the file's text, or the exception raised. *)
Variable read_file : text -> result text.

(** The interpreter's parser on a source text: the module's tree, or the
    way the text is refused. *)
Variable parse_source : text -> refusal + node.

(** [ast.parse(source, filename=filename)]: a syntax error becomes a
    [SyntaxError] that carries [filename]; another exception of the parser
    is raised as it is. *)
Definition ast_parse (source filename : text) : result node :=
  match parse_source source with
  | inl (SyntaxFailure msg line) => Raise (SyntaxError filename msg line)
  | inl (OtherFailure e) => Raise e
  | inr tree => Ok tree
  end.

(** The body of the loop for one selected node. *)
Definition unit_of (filepath : text) (n : node) : result SourceUnit :=
  source <- read_file filepath ;;
  function_code <- get_source_segment source n ;;
  Ok {| unit_name := name n;
        unit_docstring := or_empty (docstring n);
        unit_code := function_code |}.

Definition extract_functions_and_docs (filepath : text)
  : result (list SourceUnit) :=
  source <- read_file filepath ;;
  tree <- ast_parse source filepath ;;
  mapM (unit_of filepath) (filter is_FunctionDef (walk tree)).

End Extract.

End Parser.

(* ===================================================================== *)
(** ** Effects: console, written files, service calls *)
(* ===================================================================== *)

(** What a run has done so far: the strings passed to [print], oldest first;
    the files written, newest first, each with its content; the number of
    calls made to the text-generation service. *)
Record state : Type := {
  console : list text;
  disk : list (text * text);
  calls : nat
}.

Definition initial_state : state :=
  {| console := []; disk := []; calls := 0 |}.

(** A statement: from a state to a state and a value or a raised
    exception. *)
Definition M (A : Type) : Type := state -> state * result A.

Definition ret {A} (a : A) : M A := fun st => (st, Ok a).

Definition raise {A} (e : exn) : M A := fun st => (st, Raise e).

Definition bindM {A B} (m : M A) (k : A -> M B) : M B :=
  fun st =>
    match m st with
    | (st', Ok a) => k a st'
    | (st', Raise e) => (st', Raise e)
    end.

Definition lift {A} (r : result A) : M A := fun st => (st, r).

Declare Scope stmt_scope.
Delimit Scope stmt_scope with stmt.
Notation "x <~ c1 ;; c2" := (bindM c1 (fun x => c2))
  (at level 100, c1 at next level, right associativity) : stmt_scope.
Notation "c1 ;;; c2" := (bindM c1 (fun _ => c2))
  (at level 100, right associativity) : stmt_scope.
Open Scope stmt_scope.

(** [try: body except Exception as e: handler(e)] *)
Definition try_except {A} (body : M A) (handler : exn -> M A) : M A :=
  fun st =>
    match body st with
    | (st', Ok a) => (st', Ok a)
    | (st', Raise e) => handler e st'
    end.

(** [for x in l: body(x)]: an exception leaving [body] leaves the loop. *)
Fixpoint for_each {A} (body : A -> M unit) (l : list A) : M unit :=
  match l with
  | [] => ret tt
  | x :: l' => body x ;;; for_each body l'
  end.

(** [print(line)] *)
Definition print (line : text) : M unit :=
  fun st =>
    ({| console := console st ++ [line]; disk := disk st; calls := calls st |},
     Ok tt).

Fixpoint disk_lookup (d : list (text * text)) (path : text) : option text :=
  match d with
  | [] => None
  | (p, c) :: d' => if text_eqb p path then Some c else disk_lookup d' path
  end.

Definition disk_set (path content : text) : M unit :=
  fun st =>
    ({| console := console st; disk := (path, content) :: disk st;
        calls := calls st |},
     Ok tt).

(** The environment of a run: the files that can be read, the faults of the
    file system on writing, the interpreter's parser, and the text-generation
    service. *)
Record world : Type := {
  (** [open(path).read()] *)
  read_file : text -> result text;
  (** the entries of a directory, in the order the system lists them *)
  listdir : text -> list text;
  (** the exception [os.makedirs(path, exist_ok=True)] raises, if any *)
  makedirs_fault : text -> option exn;
  (** the exception [open(path, "w")] raises, if any *)
  open_fault : text -> option exn;
  (** the exception [f.write(data)] raises on the file at [path] holding
      [content], if any *)
  write_fault : text -> text -> text -> option exn;
  (** the interpreter's parser *)
  parse_source : text -> Parser.refusal + Parser.node;
  (** [model.generate_content(prompt).text] on the n-th call to the
      service *)
  generate_content : nat -> text -> result text;
  (** the library's rendering of the replacement fields not spelt out in
      [render_field] *)
  render_extended :
    list (text * pyval) -> text -> option codepoint -> text -> result text;
  (** the interpreter's Unicode character database *)
  unicode_db : UnicodeDB
}.

(** [open(path, "w")]: the file is created or emptied. *)
Definition open_write (w : world) (path : text) : M unit :=
  match open_fault w path with
  | Some e => raise e
  | None => disk_set path []
  end.

(** [f.write(data)] on the open file at [path]. *)
Definition file_write (w : world) (path data : text) : M unit :=
  fun st =>
    let content := match disk_lookup (disk st) path with
                   | Some c => c
                   | None => []
                   end in
    match write_fault w path content data with
    | Some e => (st, Raise e)
    | None => disk_set path (content ++ data) st
    end.

(** One call to the service: [model.generate_content(prompt)] and the
    [.text] of the response. *)
Definition call_service (w : world) (prompt : text) : M text :=
  fun st =>
    ({| console := console st; disk := disk st; calls := S (calls st) |},
     generate_content w (calls st) prompt).

Definition NL : text := [LF].
Definition NL2 : text := [LF; LF].

(* ===================================================================== *)
(** ** doc_generator.py *)
(* ===================================================================== *)

Module DocGenerator.

Import Parser.

Definition prompt_template_path : text := txt "prompt_template.txt".

Definition pyval_of (code_snippet : option text) : pyval :=
  match code_snippet with
  | Some s => VStr s
  | None => VNone
  end.

(** The page-break marker of the combined document. *)
Definition page_break : text :=
  NL2 ++ txt "---" ++ NL2 ++ txt "\newpage" ++ NL2.

Definition combined_header : text :=
  txt "# Project: CRUD Functionality Documentation" ++ NL2.

Section Run.

Variable w : world.

(** The first two statements of [generate_doc]: the template is read and
    the snippet substituted for its [code] field. *)
Definition build_prompt (code_snippet : option text) : result text :=
  prompt_template <- read_file w prompt_template_path ;;
  format (render_extended w) [(txt "code", pyval_of code_snippet)]
         prompt_template.

Definition generate_doc (code_snippet : option text) : M text :=
  prompt <~ lift (build_prompt code_snippet) ;;
  response_text <~ call_service w prompt ;;
  ret (strip response_text).

(** The body of [for func in functions]. *)
Definition document_function (output_file : text) (func : SourceUnit)
  : M unit :=
  print (txt "  Generating docs for function: " ++ unit_name func) ;;;
  doc <~ generate_doc (unit_code func) ;;
  file_write w output_file
    (txt "## Function: `" ++ unit_name func ++ txt "`" ++ NL2) ;;;
  file_write w output_file (doc ++ NL2 ++ txt "---" ++ NL2).

(** The [try] block of the loop over files. *)
Definition process_body (crud_file filename output_file : text) : M unit :=
  functions <~
    lift (extract_functions_and_docs (read_file w) (parse_source w)
                                     crud_file) ;;
  match functions with
  | [] => print (txt "No functions found in " ++ crud_file)
  | _ :: _ =>
      open_write w output_file ;;;
      file_write w output_file
        (txt "# Documentation for " ++ filename ++ txt ".py" ++ NL2) ;;;
      for_each (document_function output_file) functions ;;;
      print (txt "Documentation saved to " ++ output_file)
  end.

Definition processing_line (crud_file : text) : text :=
  txt "Processing " ++ crud_file ++ txt "...".

Definition error_line (crud_file : text) (e : exn) : text :=
  txt "Error processing " ++ crud_file ++ txt ": " ++ str_exn e.

(** The body of [for crud_file in crud_files]. *)
Definition process_file (output_path crud_file : text) : M unit :=
  let filename := replace (txt ".py") [] (basename crud_file) in
  let output_file := path_join output_path (filename ++ txt "_doc.md") in
  print (processing_line crud_file) ;;;
  try_except (process_body crud_file filename output_file)
             (fun e => print (error_line crud_file e)).

Definition main_loop (output_path : text) (crud_files : list text)
  : M unit :=
  for_each (process_file output_path) crud_files.

(** [main], from the two directories joined to the script's own. *)
Definition main (crud_path output_path : text) : M unit :=
  match makedirs_fault w output_path with
  | Some e => raise e
  | None =>
      let crud_files := glob_ext crud_path (txt ".py") (listdir w crud_path) in
      match crud_files with
      | [] => print (txt "No Python files found in " ++ crud_path)
      | _ :: _ =>
          print (txt "Found " ++ str_nat (length crud_files)
                   ++ txt " Python files to process...") ;;;
          main_loop output_path crud_files ;;;
          print (txt "Documentation generation complete!")
      end
  end.

(** *** The combiner *)

(** The heading derived from a file name. *)
Definition derive_title (filename : text) : text :=
  title (unicode_db w)
        (replace (txt ".md") [] (replace (txt "_") (txt " ") filename)).

Definition module_heading (filename : text) : text :=
  NL2 ++ txt "# " ++ derive_title filename ++ NL2.

Definition error_block (filename : text) (e : exn) : text :=
  NL2 ++ txt "## Error processing " ++ filename ++ NL ++ str_exn e ++ NL2.

(** The body of [for index, md_file in enumerate(md_files)], [total]
    being [len(md_files)].  The read is the only statement of the [try]
    block that can raise and precedes every update of
    [combined_content], so the handler sees the value the iteration
    started with. *)
Definition combine_one (total index : nat) (md_file : text)
  (combined_content : text) : M text :=
  let filename := basename md_file in
  try_except
    (print (txt "Processing: " ++ filename) ;;;
     raw <~ lift (read_file w md_file) ;;
     let content := strip raw in
     let combined_content := combined_content ++ module_heading filename in
     let combined_content := combined_content ++ content in
     ret (if index <? total - 1
          then combined_content ++ page_break
          else combined_content))
    (fun e =>
       print (txt "[ERROR] Could not process " ++ md_file ++ txt ": "
                ++ str_exn e) ;;;
       ret (combined_content ++ error_block filename e)).

Fixpoint combine_loop (total index : nat) (md_files : list text)
  (combined_content : text) : M text :=
  match md_files with
  | [] => ret combined_content
  | md_file :: rest =>
      combined_content <~ combine_one total index md_file combined_content ;;
      combine_loop total (S index) rest combined_content
  end.

Definition no_input_line (input_folder : text) : text :=
  txt "[ERROR] No .md files found in: " ++ input_folder.

Definition next_steps (output_file : text) : M unit :=
  print (NL ++ txt " Combined documentation saved to: " ++ output_file) ;;;
  print (NL ++ txt " Next Steps:") ;;;
  print (txt "1. Convert to PDF via Pandoc:" ++ NL ++ txt "   pandoc "
           ++ output_file ++ txt " -o output.pdf") ;;;
  print (txt "2. Or upload to an online markdown-to-PDF converter like:") ;;;
  print (txt "   - https://www.markdowntopdf.com/") ;;;
  print (txt "   - https://dillinger.io/") ;;;
  print (txt "   - https://stackedit.io/").

Definition combine_markdown_files (input_folder output_file : text)
  : M unit :=
  let md_files := glob_ext input_folder (txt ".md")
                           (listdir w input_folder) in
  match md_files with
  | [] => print (no_input_line input_folder)
  | _ :: _ =>
      let md_files := sort md_files in
      print (NL ++ txt "Found " ++ str_nat (length md_files)
               ++ txt " Markdown files:") ;;;
      for_each (fun file => print (txt " - " ++ basename file)) md_files ;;;
      combined_content <~
        combine_loop (length md_files) 0 md_files combined_header ;;
      try_except
        (open_write w output_file ;;;
         file_write w output_file combined_content ;;;
         next_steps output_file)
        (fun e => print (txt "[ERROR] Could not write to file: "
                           ++ str_exn e))
  end.

End Run.

End DocGenerator.

(** ** The pipeline on a console that can refuse a line *)

Module Console.

Import Parser DocGenerator.

Section Run.

Variable w : world.

(** The exception [print(line)] raises when [sys.stdout] cannot encode
    [line] (a [UnicodeEncodeError]), if any. *)
Variable stdout_fault : text -> option exn.

(** [print(line)]: a line that cannot be encoded is not written. *)
Definition print_line (line : text) : M unit :=
  fun st =>
    match stdout_fault line with
    | Some e => (st, Raise e)
    | None => print line st
    end.

(** The body of [for func in functions]. *)
Definition document_function (output_file : text) (func : SourceUnit)
  : M unit :=
  print_line (txt "  Generating docs for function: " ++ unit_name func) ;;;
  doc <~ generate_doc w (unit_code func) ;;
  file_write w output_file
    (txt "## Function: `" ++ unit_name func ++ txt "`" ++ NL2) ;;;
  file_write w output_file (doc ++ NL2 ++ txt "---" ++ NL2).

(** The [try] block of the loop over files. *)
Definition process_body (crud_file filename output_file : text) : M unit :=
  functions <~
    lift (extract_functions_and_docs (read_file w) (parse_source w)
                                     crud_file) ;;
  match functions with
  | [] => print_line (txt "No functions found in " ++ crud_file)
  | _ :: _ =>
      open_write w output_file ;;;
      file_write w output_file
        (txt "# Documentation for " ++ filename ++ txt ".py" ++ NL2) ;;;
      for_each (document_function output_file) functions ;;;
      print_line (txt "Documentation saved to " ++ output_file)
  end.

(** The body of [for crud_file in crud_files]: the first [print] stands
    before the [try], and the handler reports the error with a [print] of
    its own. *)
Definition process_file (output_path crud_file : text) : M unit :=
  let filename := replace (txt ".py") [] (basename crud_file) in
  let output_file := path_join output_path (filename ++ txt "_doc.md") in
  print_line (txt "Processing " ++ crud_file ++ txt "...") ;;;
  try_except (process_body crud_file filename output_file)
             (fun e =>
                print_line (txt "Error processing " ++ crud_file ++ txt ": "
                              ++ str_exn e)).

Definition main_loop (output_path : text) (crud_files : list text)
  : M unit :=
  for_each (process_file output_path) crud_files.

(** [main], from the two directories joined to the script's own. *)
Definition main (crud_path output_path : text) : M unit :=
  match makedirs_fault w output_path with
  | Some e => raise e
  | None =>
      let crud_files := glob_ext crud_path (txt ".py") (listdir w crud_path) in
      match crud_files with
      | [] => print_line (txt "No Python files found in " ++ crud_path)
      | _ :: _ =>
          print_line (txt "Found " ++ str_nat (length crud_files)
                        ++ txt " Python files to process...") ;;;
          main_loop output_path crud_files ;;;
          print_line (txt "Documentation generation complete!")
      end
  end.

End Run.

End Console.

(* ===================================================================== *)
(** ** srs_generator.py *)
(* ===================================================================== *)

Module SRS.

Definition DQUOTE : text := [34%N].

Definition srs_template_path : text := txt "srs_prompt_template.txt".

(** [get_default_prompt]: the built-in template, line by line. *)
Definition get_default_prompt : text :=
  NL
  ++ txt "        Analyze the following CRUD function documentation and create a comprehensive Software Requirements Specification (SRS) section." ++ NL
  ++ NL
  ++ txt "        Function Documentation:" ++ NL
  ++ txt "        {function_docs}" ++ NL
  ++ NL
  ++ txt "        Please provide:" ++ NL
  ++ txt "        1. **Functional Requirements**: Clear, testable requirements in "
  ++ DQUOTE ++ txt "The system shall..." ++ DQUOTE ++ txt " format" ++ NL
  ++ txt "        2. **Business Logic**: Explanation of the business rules and logic" ++ NL
  ++ txt "        3. **Input/Output Specifications**: Detailed parameter descriptions and return values" ++ NL
  ++ txt "        4. **Error Handling**: Expected error conditions and responses" ++ NL
  ++ txt "        5. **Performance Requirements**: Any performance considerations" ++ NL
  ++ txt "        6. **Security Considerations**: Authentication, authorization, data validation needs" ++ NL
  ++ NL
  ++ txt "        Write in professional SRS format suitable for stakeholders, developers, and testers." ++ NL
  ++ txt "        Use clear, non-technical language where possible while maintaining technical accuracy." ++ NL
  ++ txt "        ".

(** *** The document model handed to the layout engine *)

Inductive style : Type :=
| title_style | heading1_style | heading2_style | body_style | code_style.

(** Lengths are in tenths of a point. *)
Definition inch : Z := 720.

Inductive flowable : Type :=
| Paragraph (content : text) (st : style)
| Spacer (width height : Z)
| PageBreak
| Table (data : list (list text)) (colWidths : list Z).

Section Run.

Variable w : world.

(** [load_prompt_template]: only a missing file falls back to the
    default. *)
Definition load_prompt_template : M text :=
  match read_file w srs_template_path with
  | Ok t => ret t
  | Raise (FileNotFoundError _) =>
      print (txt "Warning: srs_prompt_template.txt not found. Using default prompt.") ;;;
      ret get_default_prompt
  | Raise e => raise e
  end.

Definition error_content (e : exn) : text :=
  txt "Error generating content for this module: " ++ str_exn e.

Definition generate_srs_content (function_docs : text) : M text :=
  prompt_template <~ load_prompt_template ;;
  prompt <~ lift (format (render_extended w)
                         [(txt "function_docs", VStr function_docs)]
                         prompt_template) ;;
  try_except
    (response_text <~ call_service w prompt ;;
     ret (strip response_text))
    (fun e =>
       print (txt "Error generating SRS content: " ++ str_exn e) ;;;
       ret (error_content e)).

(** *** Table of contents *)

Definition toc_fixed_rows : list (list text) :=
  [ [txt "Section"; txt "Page"];
    [txt "1. Introduction"; txt "3"];
    [txt "2. System Overview"; txt "4"];
    [txt "3. Functional Requirements"; txt "5"] ].

Definition module_row (i : nat) (module : text) (page_num : nat)
  : list text :=
  [ str_nat i ++ txt ". " ++ title (unicode_db w) module
      ++ txt " Module Requirements";
    str_nat page_num ].

(** [for i, module in enumerate(modules, 4)]: the rows appended, and
    [page_num] after the loop. *)
Fixpoint toc_module_rows (i page_num : nat) (modules : list text)
  : list (list text) * nat :=
  match modules with
  | [] => ([], page_num)
  | module :: rest =>
      let (rows, final_page) := toc_module_rows (S i) (page_num + 2) rest in
      (module_row i module page_num :: rows, final_page)
  end.

Definition toc_data (modules : list text) : list (list text) :=
  let (rows, page_num) := toc_module_rows 4 6 modules in
  toc_fixed_rows ++ rows
    ++ [ [str_nat (length modules + 4) ++ txt ". Non-Functional Requirements";
          str_nat page_num];
         [str_nat (length modules + 5) ++ txt ". Appendices";
          str_nat (page_num + 1)] ].

Definition create_table_of_contents (story : list flowable)
  (modules : list text) : list flowable :=
  story
    ++ [ Paragraph (txt "Table of Contents") heading1_style;
         Spacer 10 (2 * inch / 10);
         Table (toc_data modules) [(4 * inch)%Z; (1 * inch)%Z];
         PageBreak ].

(** *** Module sections *)

Definition paragraph_flowables (paragraph : text) : list flowable :=
  let p := strip paragraph in
  match p with
  | [] => []
  | _ :: _ =>
      (if startswith (txt "**") p && endswith (txt "**") p
       then Paragraph (replace (txt "**") [] p) heading2_style
       else Paragraph p body_style)
      :: [Spacer 10 (1 * inch / 10)]
  end.

(** [add_module_requirements]; the markup checks the layout engine runs
    when a paragraph is built are its own business. *)
Definition add_module_requirements (story : list flowable)
  (module_name srs_content : text) : list flowable :=
  let paragraphs := split_from NL2 0 [] srs_content in
  story
    ++ [Paragraph (title (unicode_db w) module_name
                     ++ txt " Module Requirements") heading1_style]
    ++ flat_map paragraph_flowables paragraphs
    ++ [PageBreak].

(** [for module_name, module_docs in documentation.items()] of
    [generate_srs_document]. *)
Fixpoint process_modules (documentation : list (text * text))
  (story : list flowable) : M (list flowable) :=
  match documentation with
  | [] => ret story
  | (module_name, module_docs) :: rest =>
      print (txt "Processing module: " ++ module_name) ;;;
      srs_content <~ generate_srs_content module_docs ;;
      process_modules rest
        (add_module_requirements story module_name srs_content)
  end.

End Run.

End SRS.

(** ** The requirements document *)

Module SRSDocument.

Import SRS.

Definition BULLET : codepoint := 8226%N.

(** [d[key] = value] on a [dict], kept as the list of its items in
    insertion order: the value of a key already present is replaced where
    it stands, a new key goes to the end. *)
Fixpoint dict_set (d : list (text * text)) (key value : text)
  : list (text * text) :=
  match d with
  | [] => [(key, value)]
  | (k, v) :: d' =>
      if text_eqb k key then (k, value) :: d'
      else (k, v) :: dict_set d' key value
  end.

(** [try: x = body except FileNotFoundError as e: return handler(e)]
    followed by [rest], which uses [x]: the handler ends the function, and
    other exceptions pass. *)
Definition try_or_return {A B} (body : M A) (handler : exn -> M B)
  (rest : A -> M B) : M B :=
  fun st =>
    match body st with
    | (st', Ok a) => rest a st'
    | (st', Raise (FileNotFoundError msg)) =>
        handler (FileNotFoundError msg) st'
    | (st', Raise e) => (st', Raise e)
    end.

Section Run.

Variable w : world.

(** The constants [PROJECT_NAME] and [COMPANY_NAME] of the module, taken
    from the environment when it is loaded. *)
Variable PROJECT_NAME COMPANY_NAME : text.

(** [datetime.now().strftime("%B %d, %Y")] *)
Variable today : text.

(** [SimpleDocTemplate(output_file, ...).build(story)], the layout
    engine. *)
Variable doc_build : text -> list flowable -> M unit.

Definition module_name_of (doc_file : text) : text :=
  replace (txt "_doc.md") [] (basename doc_file).

(** The body of [for doc_file in doc_files]. *)
Definition load_doc (doc_file : text) (documentation : list (text * text))
  : M (list (text * text)) :=
  let module_name := module_name_of doc_file in
  try_except
    (content <~ lift (read_file w doc_file) ;;
     let documentation := dict_set documentation module_name content in
     print (txt "Loaded documentation for: " ++ module_name) ;;;
     ret documentation)
    (fun e =>
       print (txt "Error reading " ++ doc_file ++ txt ": " ++ str_exn e) ;;;
       ret documentation).

Fixpoint load_docs (doc_files : list text)
  (documentation : list (text * text)) : M (list (text * text)) :=
  match doc_files with
  | [] => ret documentation
  | doc_file :: rest =>
      documentation <~ load_doc doc_file documentation ;;
      load_docs rest documentation
  end.

Definition read_documentation_files (docs_dir : text)
  : M (list (text * text)) :=
  let doc_files := glob_ext docs_dir (txt ".md") (listdir w docs_dir) in
  match doc_files with
  | [] =>
      raise (FileNotFoundError
               (txt "No documentation files found in " ++ docs_dir))
  | _ :: _ => load_docs doc_files []
  end.

Definition doc_info : list (list text) :=
  [ [txt "Document Version:"; txt "1.0"];
    [txt "Date:"; today];
    [txt "Company:"; COMPANY_NAME];
    [txt "Document Type:"; txt "Software Requirements Specification"];
    [txt "Status:"; txt "Draft"] ].

Definition create_title_page (story : list flowable) : list flowable :=
  story
    ++ [ Spacer 10 (2 * inch);
         Paragraph (txt "Software Requirements Specification") title_style;
         Spacer 10 (5 * inch / 10);
         Paragraph PROJECT_NAME heading1_style;
         Spacer 10 (1 * inch);
         Table doc_info [(2 * inch)%Z; (3 * inch)%Z];
         PageBreak ].

(** The texts of [create_introduction], line by line. *)
Definition intro_text : text :=
  NL
  ++ txt "        This Software Requirements Specification (SRS) document describes the functional and " ++ NL
  ++ txt "        non-functional requirements for the " ++ PROJECT_NAME ++ txt ". This document serves as the " ++ NL
  ++ txt "        foundation for system design, development, testing, and maintenance activities." ++ NL
  ++ NL
  ++ txt "        The system provides comprehensive CRUD (Create, Read, Update, Delete) operations " ++ NL
  ++ txt "        for managing various data entities within the application domain." ++ NL
  ++ txt "        ".

Definition purpose_text : text :=
  NL
  ++ txt "        The purpose of this document is to provide a detailed description of the requirements " ++ NL
  ++ txt "        for the CRUD application system, including functional requirements, interface " ++ NL
  ++ txt "        requirements, performance requirements, and other non-functional requirements." ++ NL
  ++ txt "        ".

Definition scope_text : text :=
  NL
  ++ txt "        This SRS covers all functional modules of the CRUD application system, including " ++ NL
  ++ txt "        data management operations, business logic implementation, error handling, and " ++ NL
  ++ txt "        security considerations." ++ NL
  ++ txt "        ".

(** The text of [create_system_overview]. *)
Definition overview_text : text :=
  NL
  ++ txt "        The " ++ PROJECT_NAME ++ txt " is designed to provide robust data management capabilities " ++ NL
  ++ txt "        through a well-structured CRUD interface. The system ensures data integrity, " ++ NL
  ++ txt "        implements proper error handling, and maintains security standards throughout " ++ NL
  ++ txt "        all operations." ++ NL
  ++ txt "        ".

(** The text of [create_non_functional_requirements]. *)
Definition nfr_content : text :=
  NL
  ++ txt "        <b>Performance Requirements:</b><br/>" ++ NL
  ++ txt "        " ++ [BULLET] ++ txt " Response time for CRUD operations should not exceed 2 seconds under normal load<br/>" ++ NL
  ++ txt "        " ++ [BULLET] ++ txt " System should handle concurrent users efficiently<br/>" ++ NL
  ++ txt "        " ++ [BULLET] ++ txt " Database queries should be optimized for performance<br/><br/>" ++ NL
  ++ NL
  ++ txt "        <b>Security Requirements:</b><br/>" ++ NL
  ++ txt "        " ++ [BULLET] ++ txt " All input data must be validated and sanitized<br/>" ++ NL
  ++ txt "        " ++ [BULLET] ++ txt " Authentication required for all CRUD operations<br/>" ++ NL
  ++ txt "        " ++ [BULLET] ++ txt " Audit trail for all data modifications<br/>" ++ NL
  ++ txt "        " ++ [BULLET] ++ txt " Data encryption for sensitive information<br/><br/>" ++ NL
  ++ NL
  ++ txt "        <b>Reliability Requirements:</b><br/>" ++ NL
  ++ txt "        " ++ [BULLET] ++ txt " System availability should be 99.9%<br/>" ++ NL
  ++ txt "        " ++ [BULLET] ++ txt " Proper error handling and recovery mechanisms<br/>" ++ NL
  ++ txt "        " ++ [BULLET] ++ txt " Data backup and recovery procedures<br/><br/>" ++ NL
  ++ NL
  ++ txt "        <b>Usability Requirements:</b><br/>" ++ NL
  ++ txt "        " ++ [BULLET] ++ txt " Intuitive user interface design<br/>" ++ NL
  ++ txt "        " ++ [BULLET] ++ txt " Clear error messages and user feedback<br/>" ++ NL
  ++ txt "        " ++ [BULLET] ++ txt " Comprehensive user documentation<br/>" ++ NL
  ++ txt "        ".

Definition create_introduction (story : list flowable) : list flowable :=
  story
    ++ [ Paragraph (txt "1. Introduction") heading1_style;
         Paragraph intro_text body_style;
         Spacer 10 (2 * inch / 10);
         Paragraph (txt "1.1 Purpose") heading2_style;
         Paragraph purpose_text body_style;
         Paragraph (txt "1.2 Scope") heading2_style;
         Paragraph scope_text body_style;
         PageBreak ].

Definition create_system_overview (story : list flowable)
  : list flowable :=
  story
    ++ [ Paragraph (txt "2. System Overview") heading1_style;
         Paragraph overview_text body_style;
         PageBreak ].

Definition create_non_functional_requirements (story : list flowable)
  : list flowable :=
  story
    ++ [ Paragraph (txt "Non-Functional Requirements") heading1_style;
         Paragraph nfr_content body_style ].

Definition functional_requirements_intro : text :=
  txt "The following sections detail the functional requirements for each module "
  ++ txt "of the system, derived from the analysis of CRUD operations and business logic.".

(** The statements of [generate_srs_document] that fill [story], from
    [story = []] to the section of non-functional requirements.  As in
    [add_module_requirements], a paragraph is recorded as its text and
    style. *)
Definition build_story (documentation : list (text * text))
  : M (list flowable) :=
  let story := [] in
  let story := create_title_page story in
  let story := create_table_of_contents w story (map fst documentation) in
  let story := create_introduction story in
  let story := create_system_overview story in
  let story :=
    story
      ++ [ Paragraph (txt "3. Functional Requirements") heading1_style;
           Paragraph functional_requirements_intro body_style;
           PageBreak ] in
  story <~ process_modules w documentation story ;;
  ret (create_non_functional_requirements story).

Definition generate_srs_document (docs_dir output_file : text) : M bool :=
  print (txt "Starting SRS document generation...") ;;;
  try_or_return
    (read_documentation_files docs_dir)
    (fun e => print (txt "Error: " ++ str_exn e) ;;; ret false)
    (fun documentation =>
       story <~ build_story documentation ;;
       try_except
         (doc_build output_file story ;;;
          print (txt "SRS document generated successfully: "
                   ++ output_file) ;;;
          ret true)
         (fun e =>
            print (txt "Error generating PDF: " ++ str_exn e) ;;;
            ret false)).

End Run.

End SRSDocument.

(** ** The converter through [markdown2pdf] *)

Module MarkdownToPdf.

Definition temp_md : text := txt "temp_combined.md".

(** How a statement of the [try] block ends: it returns, it raises an
    [ImportError], or it raises another exception.  The two are told
    apart because the block has a handler for each. *)
Inductive ending (A : Type) : Type :=
| Returns (a : A)
| RaisesImportError
| RaisesError (e : exn).

Arguments Returns {A} a.
Arguments RaisesImportError {A}.
Arguments RaisesError {A} e.

(** A statement of the [try] block. *)
Definition T (A : Type) : Type := state -> state * ending A.

(** A statement that raises no [ImportError]. *)
Definition plain {A} (m : M A) : T A :=
  fun st =>
    match m st with
    | (st', Ok a) => (st', Returns a)
    | (st', Raise e) => (st', RaisesError e)
    end.

Definition andthen {A B} (m : T A) (k : A -> T B) : T B :=
  fun st =>
    match m st with
    | (st', Returns a) => k a st'
    | (st', RaisesImportError) => (st', RaisesImportError)
    | (st', RaisesError e) => (st', RaisesError e)
    end.

(** [try: body except ImportError: on_import_error
    except Exception as e: on_error(e)] *)
Definition try_import_except (body : T unit) (on_import_error : M unit)
  (on_error : exn -> M unit) : M unit :=
  fun st =>
    match body st with
    | (st', Returns _) => (st', Ok tt)
    | (st', RaisesImportError) => on_import_error st'
    | (st', RaisesError e) => on_error e st'
    end.

(** What [markdown2pdf.convert] does with a text: it writes a document,
    given here as the text of its bytes, or raises. *)
Inductive conversion : Type :=
| Converted (document : text)
| ImportFailed
| ConversionFailed (e : exn).

Section Run.

Variable w : world.

(** Whether [import markdown2pdf] finds the package. *)
Variable markdown2pdf_installed : bool.

(** [markdown2pdf.convert] on a file with the given text, for the given
    output path. *)
Variable markdown2pdf_convert : text -> text -> conversion.

(** The exception [os.remove(path)] raises on an existing file, if any. *)
Variable remove_fault : text -> option exn.

(** [import markdown2pdf] *)
Definition import_markdown2pdf : T unit :=
  fun st =>
    if markdown2pdf_installed then (st, Returns tt)
    else (st, RaisesImportError).

(** The body of [for md_file in md_files]. *)
Definition append_file (md_file : text) (combined_md : text) : M text :=
  content <~ lift (read_file w md_file) ;;
  let filename := basename md_file in
  let combined_md := combined_md ++ NL2 ++ txt "# " ++ filename ++ NL2 in
  let combined_md := combined_md ++ content in
  ret (combined_md ++ NL2 ++ txt "---" ++ NL2).

Fixpoint append_files (md_files : list text) (combined_md : text)
  : M text :=
  match md_files with
  | [] => ret combined_md
  | md_file :: rest =>
      combined_md <~ append_file md_file combined_md ;;
      append_files rest combined_md
  end.

(** [markdown2pdf.convert(temp_md, output_pdf)]: on success the document
    is written to [output_pdf]. *)
Definition convert (temp output_pdf : text) : T unit :=
  fun st =>
    match disk_lookup (disk st) temp with
    | None =>
        (st, RaisesError
               (FileNotFoundError
                  (txt "[Errno 2] No such file or directory: '"
                     ++ temp ++ txt "'")))
    | Some content =>
        match markdown2pdf_convert content output_pdf with
        | Converted document =>
            (fst (disk_set output_pdf document st), Returns tt)
        | ImportFailed => (st, RaisesImportError)
        | ConversionFailed e => (st, RaisesError e)
        end
    end.

(** [os.remove(path)] *)
Definition os_remove (path : text) : M unit :=
  fun st =>
    match disk_lookup (disk st) path with
    | None =>
        (st, Raise (FileNotFoundError
                      (txt "[Errno 2] No such file or directory: '"
                         ++ path ++ txt "'")))
    | Some _ =>
        match remove_fault path with
        | Some e => (st, Raise e)
        | None =>
            ({| console := console st;
                disk := filter (fun entry => negb (text_eqb (fst entry) path))
                               (disk st);
                calls := calls st |}, Ok tt)
        end
    end.

(** The statements after the import, up to the conversion. *)
Definition write_temp (md_files : list text) : M unit :=
  print (txt "Found " ++ str_nat (length md_files)
           ++ txt " markdown files") ;;;
  combined_md <~ append_files md_files [] ;;
  open_write w temp_md ;;;
  file_write w temp_md combined_md.

Definition convert_using_markdown2pdf (input_folder output_pdf : text)
  : M unit :=
  try_import_except
    (andthen import_markdown2pdf (fun _ =>
     let md_files := glob_ext input_folder (txt ".md")
                              (listdir w input_folder) in
     let md_files := sort md_files in
     match md_files with
     | [] => plain (print (txt "No .md files found in " ++ input_folder))
     | _ :: _ =>
         andthen (plain (write_temp md_files)) (fun _ =>
         andthen (convert temp_md output_pdf) (fun _ =>
         plain (os_remove temp_md ;;;
                print (txt "Successfully created PDF: " ++ output_pdf))))
     end))
    (print (txt "markdown2pdf not installed. Install with: pip install markdown2pdf"))
    (fun e => print (txt "Error with markdown2pdf: " ++ str_exn e)).

End Run.

End MarkdownToPdf.

(* ===================================================================== *)
(** ** Concrete environments *)
(* ===================================================================== *)

Module Examples.

Definition is_ascii_upper (c : codepoint) : bool := ((65 <=? c) && (c <=? 90))%N.
Definition is_ascii_lower (c : codepoint) : bool := ((97 <=? c) && (c <=? 122))%N.
Definition is_ascii_alpha (c : codepoint) : bool :=
  is_ascii_upper c || is_ascii_lower c.
Definition ascii_lower (c : codepoint) : codepoint :=
  if is_ascii_upper c then (c + 32)%N else c.
Definition ascii_upper (c : codepoint) : codepoint :=
  if is_ascii_lower c then (c - 32)%N else c.

(** The Unicode character database on the ASCII range, on U+0130 (capital
    I with dot above, cased, lower-cased to an [i] followed by U+0307) and
    on U+0307 (combining dot above, uncased and case-ignorable).  Other
    code points are left uncased and unchanged. *)
Definition ucd_fragment : UnicodeDB :=
  {| is_cased := fun c => is_ascii_alpha c || (c =? 304)%N;
     is_case_ignorable := fun c =>
       ((c =? 39) || (c =? 46) || (c =? 58) || (c =? 94) || (c =? 96)
        || (c =? 775))%N;
     to_lower_full := fun c =>
       if (c =? 304)%N then [105%N; 775%N] else [ascii_lower c];
     to_title_full := fun c => [ascii_upper c] |}.

Fixpoint lookup_file (files : list (text * text)) (path : text)
  : result text :=
  match files with
  | [] => Raise (FileNotFoundError
                   (txt "[Errno 2] No such file or directory: " ++ path))
  | (p, c) :: files' => if text_eqb p path then Ok c else lookup_file files' path
  end.

(** A world with the given readable files, one directory listing, the
    given parser and service, and no faults. *)
Definition make_world (files : list (text * text)) (entries : list text)
  (parser : text -> Parser.refusal + Parser.node)
  (service : nat -> text -> result text) : world :=
  {| read_file := lookup_file files;
     listdir := fun _ => entries;
     makedirs_fault := fun _ => None;
     open_fault := fun _ => None;
     write_fault := fun _ _ _ => None;
     parse_source := parser;
     generate_content := service;
     render_extended := fun _ _ _ _ =>
       Raise (ValueError (txt "Invalid format specifier"));
     unicode_db := ucd_fragment |}.

Definition no_parser : text -> Parser.refusal + Parser.node :=
  fun _ => inl (Parser.SyntaxFailure (txt "invalid syntax") 1).

(** A service that answers every prompt with the same text. *)
Definition constant_service (answer : text) : nat -> text -> result text :=
  fun _ _ => Ok answer.

(** A service that is down. *)
Definition failing_service : nat -> text -> result text :=
  fun _ _ => Raise (ServiceError (txt "503 Service Unavailable")).

End Examples.

(* ===================================================================== *)
(** * Properties *)
(* ===================================================================== *)

(** ** Text *)

Lemma text_eqb_eq a b : text_eqb a b = true <-> a = b.
Proof.
  revert b; induction a as [|x a IH]; intros [|y b]; simpl; split;
    try congruence; try reflexivity.
  - intros H. apply andb_true_iff in H as [H1 H2].
    apply N.eqb_eq in H1. apply IH in H2. congruence.
  - intros H. injection H as -> ->. apply andb_true_iff. split.
    + apply N.eqb_refl.
    + now apply IH.
Qed.

Lemma text_eqb_refl a : text_eqb a a = true.
Proof. now apply text_eqb_eq. Qed.

Lemma startswith_spec p s : startswith p s = true <-> exists r, s = p ++ r.
Proof.
  revert s; induction p as [|x p IH]; intros s; simpl.
  - split; [intros _; now exists s | reflexivity].
  - destruct s as [|y s].
    + split; [discriminate | intros [r H]; discriminate].
    + split.
      * intros H. apply andb_true_iff in H as [H1 H2].
        apply N.eqb_eq in H1. apply IH in H2 as [r ->]. exists r. now subst.
      * intros [r H]. injection H as -> ->. apply andb_true_iff. split.
        -- apply N.eqb_refl.
        -- apply IH. now exists r.
Qed.

Lemma startswith_app p r : startswith p (p ++ r) = true.
Proof. apply startswith_spec. now exists r. Qed.

(** Whether [p] starts [x ++ r] is decided within [x] once [x] is at least as
    long as [p]. *)
Lemma startswith_long p x r :
  length p <= length x -> startswith p (x ++ r) = startswith p x.
Proof.
  revert x; induction p as [|c p IH]; intros [|d x] H; simpl in *;
    try reflexivity; try lia.
  rewrite IH by lia. reflexivity.
Qed.

(** [p in s], decided. *)
Fixpoint occurs_inb (p s : text) : bool :=
  startswith p s
  || match s with
     | [] => false
     | _ :: s' => occurs_inb p s'
     end.

Lemma occurs_inb_complete p s : occurs_in p s -> occurs_inb p s = true.
Proof.
  intros (a & b & ->). induction a as [|c a IH].
  - cbn [app]. destruct (p ++ b) as [|c r] eqn:E.
    + destruct p; [reflexivity|discriminate].
    + cbn [occurs_inb]. rewrite <- E, startswith_app. reflexivity.
  - cbn [app occurs_inb]. rewrite IH. apply orb_true_r.
Qed.

(** The decimal reading of a table cell. *)
Definition string_of_text (s : text) : string :=
  string_of_list_ascii (map ascii_of_N s).

Definition int_of_text (s : text) : option nat :=
  option_map Nat.of_uint (NilEmpty.uint_of_string (string_of_text s)).

Lemma string_of_text_txt s : string_of_text (txt s) = s.
Proof.
  unfold string_of_text, txt. rewrite map_map.
  rewrite (map_ext _ (fun a => a)) by apply ascii_N_embedding.
  rewrite map_id. apply string_of_list_ascii_of_string.
Qed.

Lemma int_of_text_str_nat n : int_of_text (str_nat n) = Some n.
Proof.
  unfold int_of_text, str_nat. rewrite string_of_text_txt, NilEmpty.usu.
  simpl. now rewrite DecimalNat.Unsigned.of_to.
Qed.

(** ** The table of contents *)

Module TocFacts.

Import SRS.

(** The page a row of the table announces. *)
Definition page_number (row : list text) : option nat :=
  match row with
  | [_; cell] => int_of_text cell
  | _ => None
  end.

(** The pages of [n] module rows from [page_num] on. *)
Definition module_pages (page_num n : nat) : list nat :=
  map (fun k => page_num + 2 * k) (seq 0 n).

Lemma module_pages_succ p n :
  module_pages p (S n) = p :: module_pages (p + 2) n.
Proof.
  unfold module_pages. simpl. rewrite Nat.add_0_r. f_equal.
  rewrite <- seq_shift, map_map. apply map_ext. intros k. lia.
Qed.

Lemma toc_module_rows_spec w modules : forall i p,
  let (rows, final_page) := toc_module_rows w i p modules in
  length rows = length modules /\
  final_page = p + 2 * length modules /\
  map page_number rows = map Some (module_pages p (length modules)).
Proof.
  induction modules as [|m ms IH]; intros i p.
  - simpl. repeat split. lia.
  - specialize (IH (S i) (p + 2)). cbn [toc_module_rows length].
    destruct (toc_module_rows w (S i) (p + 2) ms) as [rows fp].
    destruct IH as (Hlen & Hfp & Hpages). repeat split.
    + simpl. now rewrite Hlen.
    + lia.
    + rewrite module_pages_succ. cbn [map module_row page_number].
      rewrite int_of_text_str_nat. now rewrite Hpages.
Qed.

Lemma module_pages_bounds p n x :
  In x (module_pages p n) -> p <= x < p + 2 * n.
Proof.
  unfold module_pages. rewrite in_map_iff. intros (k & <- & Hk).
  apply in_seq in Hk. lia.
Qed.

Lemma module_pages_sorted n : forall p,
  StronglySorted lt (module_pages p n).
Proof.
  induction n as [|n IH]; intros p.
  - constructor.
  - rewrite module_pages_succ. constructor; [apply IH|].
    apply Forall_forall. intros x Hx.
    apply module_pages_bounds in Hx. lia.
Qed.

(** The estimated pages of a table for [n] modules. *)
Definition toc_pages (n : nat) : list nat :=
  [3; 4; 5] ++ module_pages 6 n ++ [6 + 2 * n; 6 + 2 * n + 1].

Lemma sorted_snoc2 (l : list nat) (a b : nat) :
  StronglySorted lt l -> Forall (fun x => x < a) l -> a < b ->
  StronglySorted lt (l ++ [a; b]).
Proof.
  induction 1 as [|x l Hs IH Hx]; intros Hall Hab; simpl.
  - constructor; [constructor; [constructor|constructor]|].
    constructor; [exact Hab|constructor].
  - inversion Hall; subst. constructor.
    + now apply IH.
    + apply Forall_app. split; [assumption|].
      constructor; [assumption|]. constructor; [lia|constructor].
Qed.

Lemma sorted_cons_below (l : list nat) (a b : nat) :
  StronglySorted lt l -> Forall (fun x => b <= x) l -> a < b ->
  StronglySorted lt (a :: l).
Proof.
  intros Hs Hall Hab. constructor; [assumption|].
  eapply Forall_impl; [|exact Hall]. simpl. intros. lia.
Qed.

Lemma toc_pages_sorted n : StronglySorted lt (toc_pages n).
Proof.
  assert (Htail : StronglySorted lt
                    (module_pages 6 n ++ [6 + 2 * n; 6 + 2 * n + 1])).
  { apply sorted_snoc2; [apply module_pages_sorted| |lia].
    apply Forall_forall. intros x Hx.
    apply module_pages_bounds in Hx. lia. }
  assert (Hall : Forall (fun x => 6 <= x)
                   (module_pages 6 n ++ [6 + 2 * n; 6 + 2 * n + 1])).
  { apply Forall_app. split.
    - apply Forall_forall. intros x Hx.
      apply module_pages_bounds in Hx. lia.
    - constructor; [lia|]. constructor; [lia|constructor]. }
  unfold toc_pages. cbn [app].
  apply sorted_cons_below with (b := 4); [|constructor; [lia|]|lia].
  - apply sorted_cons_below with (b := 5); [|constructor; [lia|]|lia].
    + apply sorted_cons_below with (b := 6); [exact Htail|exact Hall|lia].
    + eapply Forall_impl; [|exact Hall]. simpl. intros. lia.
  - constructor; [lia|]. eapply Forall_impl; [|exact Hall].
    simpl. intros. lia.
Qed.

(** C6.  [create_table_of_contents] adds to the story a heading, a
    spacer, a table and a page break.  The table has, below its header row,
    exactly [3 + (module count) + 2] entries, and the page numbers they
    announce are strictly increasing: 3, 4, 5, then 6, 8, ... for the
    modules, then the next two pages. *)
Theorem toc_entries_count_and_pages (w : world) (story : list flowable)
  (modules : list text) :
  exists entries,
    create_table_of_contents w story modules
    = story
        ++ [ Paragraph (txt "Table of Contents") heading1_style;
             Spacer 10 (2 * inch / 10);
             Table ([txt "Section"; txt "Page"] :: entries)
                   [(4 * inch)%Z; (1 * inch)%Z];
             PageBreak ] /\
    length entries = 3 + length modules + 2 /\
    map page_number entries = map Some (toc_pages (length modules)) /\
    StronglySorted lt (toc_pages (length modules)).
Proof.
  unfold create_table_of_contents, toc_data.
  pose proof (toc_module_rows_spec w modules 4 6) as H.
  destruct (toc_module_rows w 4 6 modules) as [rows fp].
  destruct H as (Hlen & Hfp & Hpages). subst fp.
  eexists. split; [reflexivity|]. split; [|split].
  - simpl. rewrite length_app, Hlen. simpl. lia.
  - simpl. rewrite map_app, Hpages. unfold toc_pages. simpl.
    rewrite !int_of_text_str_nat, map_app. reflexivity.
  - apply toc_pages_sorted.
Qed.

End TocFacts.

(** ** Loops that may raise *)

Lemma mapM_Ok_length {A B} (f : A -> result B) l ys :
  mapM f l = Ok ys -> length ys = length l.
Proof.
  revert ys; induction l as [|x l IH]; simpl; intros ys H.
  - now injection H as <-.
  - destruct (f x); simpl in H; [|discriminate].
    destruct (mapM f l); simpl in H; [|discriminate].
    injection H as <-. simpl. f_equal. now apply IH.
Qed.

Lemma mapM_Ok_Forall2 {A B} (f : A -> result B) l ys :
  mapM f l = Ok ys -> Forall2 (fun x y => f x = Ok y) l ys.
Proof.
  revert ys; induction l as [|x l IH]; simpl; intros ys H.
  - injection H as <-. constructor.
  - destruct (f x) eqn:Hx; simpl in H; [|discriminate].
    destruct (mapM f l); simpl in H; [|discriminate].
    injection H as <-. constructor; auto.
Qed.

Lemma mapM_Forall2 {A B} (f : A -> result B) (R : A -> B -> Prop) l :
  Forall (fun x => exists y, f x = Ok y /\ R x y) l ->
  exists ys, mapM f l = Ok ys /\ Forall2 R l ys.
Proof.
  induction 1 as [|x l (y & Hy & HR) _ (ys & IH & HF)]; simpl.
  - exists []. split; [reflexivity|constructor].
  - rewrite Hy, IH. simpl. exists (y :: ys). split; [reflexivity|].
    now constructor.
Qed.

(** ** A parsed file *)

Module ParserExamples.

Import Parser.

Definition no_position : position :=
  {| lineno := 0; col_offset := 0; end_lineno := None;
     end_col_offset := None |}.

Definition span (l c el ec : Z) : position :=
  {| lineno := l; col_offset := c; end_lineno := Some el;
     end_col_offset := Some ec |}.

Definition leaf (p : position) : node := Node OtherNode [] None p [].

(** The nodes under a definition with the one parameter [self] and the
    body [pass]: its [arguments] and its [Pass] statement. *)
Definition method_children (line : Z) (self_from : Z) : list node :=
  [ Node OtherNode [] None no_position
      [leaf (span line self_from line (self_from + 4))];
    leaf (span (line + 1) 8 (line + 1) 12) ].

(** A class with a [def] and an [async def]. *)
Definition class_source : text :=
  txt "class A:" ++ NL
  ++ txt "    def f(self):" ++ NL
  ++ txt "        pass" ++ NL
  ++ txt "    async def g(self):" ++ NL
  ++ txt "        pass" ++ NL.

Definition def_f : node :=
  Node FunctionDef (txt "f") None (span 2 4 3 12) (method_children 2 10).

Definition async_def_g : node :=
  Node AsyncFunctionDef (txt "g") None (span 4 4 5 12) (method_children 4 16).

Definition class_tree : node :=
  Node ModuleNode [] None no_position
    [Node ClassDef (txt "A") None (span 1 0 5 12) [def_f; async_def_g]].

(** A file holding one [async def] and nothing else. *)
Definition async_source : text :=
  txt "async def g():" ++ NL ++ txt "    pass" ++ NL.

Definition async_tree : node :=
  Node ModuleNode [] None no_position
    [Node AsyncFunctionDef (txt "g") None (span 1 0 2 8)
       [Node OtherNode [] None no_position []; leaf (span 2 4 2 8)]].

(** A text that is not Python. *)
Definition broken_source : text := txt "def f(:" ++ NL.

(** Whether a text holds a NUL character. *)
Definition has_null (source : text) : bool := existsb (cp_eqb 0%N) source.

(** The parser on the three texts.  Like the interpreter's (CPython 3.11)
    it refuses a text with a NUL character with a [ValueError]; any other
    text is given a syntax error. *)
Definition parser (source : text) : refusal + node :=
  if has_null source
  then inl (OtherFailure
              (ValueError
                 (txt "source code string cannot contain null bytes")))
  else if text_eqb source class_source then inr class_tree
  else if text_eqb source async_source then inr async_tree
  else inl (SyntaxFailure (txt "invalid syntax") 1).

Definition files : list (text * text) :=
  [ (txt "crud/a.py", class_source);
    (txt "crud/g.py", async_source);
    (txt "crud/broken.py", broken_source) ].

Definition read : text -> result text := Examples.lookup_file files.

End ParserExamples.
(** ** The extractor *)

Module ParserFacts.

Import Parser.

(** Induction on a tree, with the property known of every child. *)
Lemma node_forall_ind (P : node -> Prop) :
  (forall k nm d ps ch, Forall P ch -> P (Node k nm d ps ch)) ->
  forall n, P n.
Proof.
  intros H. fix IH 1. intros [k nm d ps ch]. apply H.
  revert ch. fix IHl 1. intros [|c ch]; constructor.
  - apply IH.
  - apply IHl.
Qed.

(** The nodes of a tree, a node before its descendants. *)
Fixpoint nodes_of (n : node) : list node :=
  match n with
  | Node _ _ _ _ ch =>
      n :: (fix forest (l : list node) : list node :=
              match l with
              | [] => []
              | c :: l' => nodes_of c ++ forest l'
              end) ch
  end.

(** The number of nodes of a tree that satisfy [p], at any depth. *)
Fixpoint count_nodes (p : node -> bool) (n : node) : nat :=
  match n with
  | Node _ _ _ _ ch =>
      (if p n then 1 else 0)
      + (fix forest (l : list node) : nat :=
           match l with
           | [] => 0
           | c :: l' => count_nodes p c + forest l'
           end) ch
  end.

Lemma nodes_of_eq n : nodes_of n = n :: flat_map nodes_of (children n).
Proof.
  destruct n as [k nm d ps ch]. reflexivity.
Qed.

Lemma count_nodes_eq p n :
  count_nodes p n
  = (if p n then 1 else 0) + list_sum (map (count_nodes p) (children n)).
Proof.
  destruct n as [k nm d ps ch]. simpl. f_equal.
  induction ch as [|c ch IH]; simpl; [reflexivity|]. now rewrite IH.
Qed.

Lemma filter_flat_map_length {A B} (p : B -> bool) (f : A -> list B)
  (g : A -> nat) (l : list A) :
  Forall (fun x => length (filter p (f x)) = g x) l ->
  length (filter p (flat_map f l)) = list_sum (map g l).
Proof.
  induction 1 as [|x l Hx _ IH]; simpl; [reflexivity|].
  now rewrite filter_app, length_app, Hx, IH.
Qed.

Lemma count_nodes_filter p n :
  count_nodes p n = length (filter p (nodes_of n)).
Proof.
  induction n as [k nm d ps ch IH] using node_forall_ind.
  assert (Hch : length (filter p (flat_map nodes_of ch))
                = list_sum (map (count_nodes p) ch)).
  { apply filter_flat_map_length.
    eapply Forall_impl; [|exact IH]. intros c Hc. now symmetry. }
  rewrite count_nodes_eq, nodes_of_eq. cbn [children filter].
  destruct (p (Node k nm d ps ch)); cbn [length]; rewrite Hch; reflexivity.
Qed.

(** The breadth-first walk visits the nodes of the queued trees, each
    once. *)
Lemma walk_queue_perm todo :
  Permutation (walk_queue todo) (flat_map nodes_of todo).
Proof.
  funelim (walk_queue todo); simp walk_queue.
  - constructor.
  - cbn [flat_map]. rewrite nodes_of_eq. cbn [app]. constructor.
    etransitivity; [exact H|].
    rewrite flat_map_app. apply Permutation_app_comm.
Qed.

Lemma walk_perm tree : Permutation (walk tree) (nodes_of tree).
Proof.
  unfold walk. etransitivity; [apply walk_queue_perm|].
  simpl. now rewrite app_nil_r.
Qed.

Lemma filter_perm_length {A} (p : A -> bool) (l l' : list A) :
  Permutation l l' -> length (filter p l) = length (filter p l').
Proof.
  induction 1 as [|x l l' _ IH|x y l|l l' l'' _ IH1 _ IH2]; simpl.
  - reflexivity.
  - destruct (p x); simpl; now rewrite IH.
  - destruct (p x), (p y); reflexivity.
  - now rewrite IH1.
Qed.

Lemma walk_count p tree :
  length (filter p (walk tree)) = count_nodes p tree.
Proof.
  rewrite count_nodes_filter. apply filter_perm_length, walk_perm.
Qed.

(** *** Lines and byte offsets *)

Lemma splitlines_from_cons next_line c rest :
  splitlines_from next_line (c :: rest)
  = if cp_eqb c CR then
      match rest with
      | c2 :: rest' =>
          if cp_eqb c2 LF
          then (next_line ++ [c; c2]) :: splitlines_from [] rest'
          else (next_line ++ [c]) :: splitlines_from [] rest
      | [] => (next_line ++ [c]) :: splitlines_from [] rest
      end
    else if cp_eqb c LF then (next_line ++ [c]) :: splitlines_from [] rest
    else splitlines_from (next_line ++ [c]) rest.
Proof. reflexivity. Qed.

Lemma splitlines_from_concat : forall n source next_line,
  length source <= n ->
  concat (splitlines_from next_line source) = next_line ++ source.
Proof.
  induction n as [|n IH]; intros [|c rest] next_line Hlen;
    try (simpl in Hlen; lia);
    try (destruct next_line; simpl; now rewrite ?app_nil_r).
  rewrite splitlines_from_cons. simpl in Hlen.
  destruct (cp_eqb c CR); [destruct rest as [|c2 rest']|];
    [| destruct (cp_eqb c2 LF) |destruct (cp_eqb c LF)];
    cbn [concat]; rewrite IH by (simpl in *; lia);
    rewrite <- app_assoc; reflexivity.
Qed.

Lemma splitlines_concat source : concat (splitlines_no_ff source) = source.
Proof.
  unfold splitlines_no_ff.
  now rewrite (@splitlines_from_concat (length source)).
Qed.

Lemma utf8_len_pos c : 1 <= utf8_len c.
Proof.
  unfold utf8_len.
  destruct (c <? 128)%N, (c <? 2048)%N, (c <? 65536)%N; lia.
Qed.

Lemma byte_length_app a b :
  byte_length (a ++ b) = byte_length a + byte_length b.
Proof. unfold byte_length. now rewrite map_app, list_sum_app. Qed.

Lemma byte_length_cons c s : byte_length (c :: s) = utf8_len c + byte_length s.
Proof. reflexivity. Qed.

Lemma byte_length_zero s : byte_length s = 0 -> s = [].
Proof.
  destruct s as [|c s]; [reflexivity|]. rewrite byte_length_cons.
  pose proof (utf8_len_pos c). lia.
Qed.

Lemma split_at_byte_cons k c s :
  0 < k ->
  split_at_byte k (c :: s)
  = if utf8_len c <=? k then
      match split_at_byte (k - utf8_len c) s with
      | Some (a, b) => Some (c :: a, b)
      | None => None
      end
    else None.
Proof. destruct k; [lia|reflexivity]. Qed.

Lemma split_at_byte_zero s : split_at_byte 0 s = Some ([], s).
Proof. destruct s; reflexivity. Qed.

(** Past a prefix, the split goes on in the rest. *)
Lemma split_at_byte_app a k s :
  split_at_byte (byte_length a + k) (a ++ s)
  = match split_at_byte k s with
    | Some (x, y) => Some (a ++ x, y)
    | None => None
    end.
Proof.
  induction a as [|c a IH]; simpl app.
  - simpl. destruct (split_at_byte k s) as [[x y]|]; reflexivity.
  - rewrite byte_length_cons. pose proof (utf8_len_pos c).
    rewrite split_at_byte_cons by lia.
    replace (utf8_len c <=? utf8_len c + byte_length a + k) with true
      by (symmetry; apply Nat.leb_le; lia).
    replace (utf8_len c + byte_length a + k - utf8_len c)
      with (byte_length a + k) by lia.
    rewrite IH. destruct (split_at_byte k s) as [[x y]|]; reflexivity.
Qed.

Lemma split_at_byte_all s : split_at_byte (byte_length s) s = Some (s, []).
Proof.
  pose proof (split_at_byte_app s 0 []) as H.
  rewrite Nat.add_0_r, split_at_byte_zero, !app_nil_r in H. exact H.
Qed.

Lemma split_at_byte_Some k s a b :
  split_at_byte k s = Some (a, b) -> s = a ++ b.
Proof.
  revert k a b; induction s as [|c s IH]; intros k a b H.
  - destruct k; simpl in H; injection H as <- <-; reflexivity.
  - destruct k as [|k]; [simpl in H; injection H as <- <-; reflexivity|].
    rewrite split_at_byte_cons in H by lia.
    destruct (utf8_len c <=? S k); [|discriminate].
    destruct (split_at_byte (S k - utf8_len c) s) as [[x y]|] eqn:E;
      [|discriminate].
    injection H as <- <-. simpl. f_equal. eapply IH; eassumption.
Qed.

(** Byte [k] of the encoding of [s] starts a code point, or ends the
    text. *)
Definition is_boundary (k : nat) (s : text) : bool :=
  match split_at_byte k s with
  | Some (a, _) => byte_length a =? k
  | None => false
  end.

Lemma is_boundary_split k s :
  is_boundary k s = true ->
  exists a b, s = a ++ b /\ byte_length a = k /\
              split_at_byte k s = Some (a, b).
Proof.
  unfold is_boundary. destruct (split_at_byte k s) as [[a b]|] eqn:E;
    [|discriminate].
  intros H. apply Nat.eqb_eq in H. exists a, b. repeat split; auto.
  eapply split_at_byte_Some; eassumption.
Qed.

Lemma slice_bound_id n k :
  k <= n -> slice_bound n (Z.of_nat k) = k.
Proof.
  intros H. unfold slice_bound.
  destruct (Z.ltb_spec (Z.of_nat k) 0); lia.
Qed.

(** A slice between two boundaries is the text between them. *)
Lemma byte_slice_between a m b :
  byte_slice (a ++ m ++ b)
             (Some (Z.of_nat (byte_length a)))
             (Some (Z.of_nat (byte_length (a ++ m))))
  = Ok m.
Proof.
  unfold byte_slice, slice_lo, slice_hi.
  rewrite !slice_bound_id by (rewrite !byte_length_app; lia).
  rewrite byte_length_app.
  destruct (Nat.leb_spec (byte_length a + byte_length m) (byte_length a))
    as [Hle|Hlt].
  - assert (byte_length m = 0) by lia.
    now rewrite (byte_length_zero m).
  - pose proof (split_at_byte_app a 0 (m ++ b)) as H1.
    rewrite Nat.add_0_r, split_at_byte_zero, app_nil_r in H1.
    rewrite H1.
    replace (byte_length a + byte_length m - byte_length a)
      with (byte_length m + 0) by lia.
    rewrite split_at_byte_app, split_at_byte_zero, app_nil_r.
    reflexivity.
Qed.

Lemma split_at_byte_prefix a b :
  split_at_byte (byte_length a) (a ++ b) = Some (a, b).
Proof.
  pose proof (split_at_byte_app a 0 b) as H.
  rewrite Nat.add_0_r, split_at_byte_zero, app_nil_r in H. exact H.
Qed.

Lemma byte_slice_from a b :
  byte_slice (a ++ b) (Some (Z.of_nat (byte_length a))) None = Ok b.
Proof.
  unfold byte_slice, slice_lo, slice_hi.
  rewrite slice_bound_id by (rewrite byte_length_app; lia).
  rewrite byte_length_app.
  destruct (Nat.leb_spec (byte_length a + byte_length b) (byte_length a)).
  - assert (byte_length b = 0) by lia. now rewrite (byte_length_zero b).
  - rewrite split_at_byte_prefix.
    replace (byte_length a + byte_length b - byte_length a)
      with (byte_length b) by lia.
    now rewrite split_at_byte_all.
Qed.

Lemma byte_slice_upto a b :
  byte_slice (a ++ b) None (Some (Z.of_nat (byte_length a))) = Ok a.
Proof.
  unfold byte_slice, slice_lo, slice_hi.
  rewrite slice_bound_id by (rewrite byte_length_app; lia).
  destruct (Nat.leb_spec (byte_length a) 0).
  - assert (byte_length a = 0) by lia. now rewrite (byte_length_zero a).
  - rewrite split_at_byte_zero, Nat.sub_0_r.
    now rewrite split_at_byte_prefix.
Qed.

(** *** The source segment of a node *)

Lemma py_index_nth {A} (l : list A) (z : Z) (d : A) :
  (0 <= z < Z.of_nat (length l))%Z ->
  py_index l z = Ok (nth (Z.to_nat z) l d).
Proof.
  intros H. unfold py_index.
  destruct (Z.ltb_spec z 0); [lia|].
  destruct (Z.ltb_spec z 0); [lia|].
  destruct (Z.leb_spec (Z.of_nat (length l)) z); [lia|]. simpl.
  destruct (nth_error l (Z.to_nat z)) as [x|] eqn:E.
  - now rewrite (nth_error_nth _ _ d E).
  - apply nth_error_None in E. lia.
Qed.

Lemma list_split_at {A} (l : list A) (i : nat) (d : A) :
  i < length l -> l = firstn i l ++ nth i l d :: skipn (S i) l.
Proof.
  revert i; induction l as [|x l IH]; intros [|i] H; simpl in *;
    try lia; try reflexivity.
  f_equal. apply IH. lia.
Qed.

Lemma nth_skipn_add {A} (l : list A) (i k : nat) (d : A) :
  nth k (skipn i l) d = nth (i + k) l d.
Proof.
  revert l; induction i as [|i IH]; intros [|x l]; simpl;
    try reflexivity.
  - now destruct k.
  - apply IH.
Qed.

Lemma firstn_add_skipn {A} (l : list A) (i k : nat) :
  firstn (i + k) l = firstn i l ++ firstn k (skipn i l).
Proof.
  revert l; induction i as [|i IH]; intros [|x l]; simpl;
    try reflexivity.
  - now rewrite firstn_nil.
  - now rewrite IH.
Qed.

(** Two lines [i < j] of a text cut it in five. *)
Lemma lines_split2 (lines : list text) (i j : nat) :
  i < j < length lines ->
  let mid := firstn (j - S i) (skipn (S i) lines) in
  lines = firstn i lines ++ nth i lines [] :: mid
            ++ nth j lines [] :: skipn (S j) lines /\
  firstn j lines = firstn i lines ++ nth i lines [] :: mid.
Proof.
  intros [Hij Hj] mid.
  assert (Hi : i < length lines) by lia.
  pose proof (list_split_at lines [] Hi) as E1.
  assert (Hj' : j - S i < length (skipn (S i) lines))
    by (rewrite length_skipn; lia).
  pose proof (list_split_at (skipn (S i) lines) [] Hj') as E2.
  rewrite nth_skipn_add in E2.
  replace (S i + (j - S i)) with j in E2 by lia.
  rewrite skipn_skipn in E2.
  replace (S (j - S i) + S i) with (S j) in E2 by lia.
  split.
  - rewrite E1 at 1. f_equal. f_equal. exact E2.
  - replace j with (S i + (j - S i)) at 1 by lia.
    rewrite firstn_add_skipn. fold mid.
    replace (S i) with (i + 1) at 1 by lia.
    rewrite firstn_add_skipn. rewrite <- app_assoc. f_equal.
    rewrite E1 at 1. rewrite skipn_app, skipn_firstn_comm.
    rewrite length_firstn, Nat.min_l by lia.
    replace (i - i) with 0 by lia. simpl. reflexivity.
Qed.

(** The position of a node lies in the text: its lines exist, its columns
    fall between code points, and its end does not precede its start. *)
Definition valid_span (source : text) (p : position) : bool :=
  match end_lineno p, end_col_offset p with
  | Some el, Some ec =>
      let lines := splitlines_no_ff source in
      (1 <=? lineno p)%Z && (lineno p <=? el)%Z
      && (el <=? Z.of_nat (length lines))%Z
      && (0 <=? col_offset p)%Z && (0 <=? ec)%Z
      && is_boundary (Z.to_nat (col_offset p))
                     (nth (Z.to_nat (lineno p - 1)) lines [])
      && is_boundary (Z.to_nat ec) (nth (Z.to_nat (el - 1)) lines [])
      && ((lineno p <? el)%Z || (col_offset p <=? ec)%Z)
  | _, _ => false
  end.

(** The byte offset in the text of column [col] of line [i] (0-based). *)
Definition byte_offset (source : text) (i : Z) (col : Z) : nat :=
  byte_length (concat (firstn (Z.to_nat i) (splitlines_no_ff source)))
  + Z.to_nat col.

Definition span_start (source : text) (p : position) : nat :=
  byte_offset source (lineno p - 1) (col_offset p).

Definition span_end (source : text) (p : position) : nat :=
  match end_lineno p, end_col_offset p with
  | Some el, Some ec => byte_offset source (el - 1) ec
  | _, _ => 0
  end.

(** [seg] is the text of [source] from byte [lo] to byte [hi]. *)
Definition is_span (source seg : text) (lo hi : nat) : Prop :=
  exists pre post,
    source = pre ++ seg ++ post /\
    byte_length pre = lo /\ byte_length (pre ++ seg) = hi.

Lemma get_source_segment_valid source n :
  valid_span source (pos n) = true ->
  exists seg,
    get_source_segment source n = Ok (Some seg) /\
    is_span source seg (span_start source (pos n))
            (span_end source (pos n)).
Proof.
  unfold valid_span, get_source_segment, span_start, span_end, byte_offset.
  destruct (end_lineno (pos n)) as [el|]; [|discriminate].
  destruct (end_col_offset (pos n)) as [ec|]; [|discriminate].
  set (ln := lineno (pos n)). set (col := col_offset (pos n)).
  pose proof (splitlines_concat source) as Hcat.
  set (lines := splitlines_no_ff source) in *.
  intros H. repeat (apply andb_true_iff in H as [H ?]).
  repeat match goal with
         | H : (_ <=? _)%Z = true |- _ => apply Z.leb_le in H
         end.
  set (i := Z.to_nat (ln - 1)) in *. set (j := Z.to_nat (el - 1)) in *.
  assert (Hi : i < length lines) by lia.
  assert (Hj : j < length lines) by lia.
  rewrite (@py_index_nth _ lines (ln - 1)%Z []) by lia. fold i.
  rewrite (@py_index_nth _ lines (el - 1)%Z []) by lia. fold j.
  match goal with
  | H : is_boundary _ (nth i _ _) = true |- _ =>
      apply is_boundary_split in H as (a & b & Hab & Hcol & Hsa)
  end.
  match goal with
  | H : is_boundary _ (nth j _ _) = true |- _ =>
      apply is_boundary_split in H as (a' & b' & Hab' & Hec & Hsa')
  end.
  replace col with (Z.of_nat (byte_length a)) by lia.
  replace ec with (Z.of_nat (byte_length a')) by lia.
  rewrite !Nat2Z.id.
  destruct (Z.eqb_spec (el - 1) (ln - 1)) as [Heq|Hne].
  - (* one line *)
    assert (Hij : j = i) by (unfold i, j; now rewrite Heq).
    rewrite Hij in *.
    assert (Hle : byte_length a <= byte_length a').
    { match goal with
      | H : (_ <? _)%Z || (_ <=? _)%Z = true |- _ =>
          apply orb_true_iff in H as [H|H];
          [apply Z.ltb_lt in H|apply Z.leb_le in H]; lia
      end. }
    rewrite Hab in Hsa'.
    replace (Z.to_nat ec) with (byte_length a + (byte_length a' - byte_length a))
      in Hsa' by lia.
    rewrite split_at_byte_app in Hsa'.
    destruct (split_at_byte (byte_length a' - byte_length a) b)
      as [[x y]|] eqn:Ex; [|discriminate].
    injection Hsa' as Ha' Hb'. apply split_at_byte_Some in Ex.
    subst a' b. subst y.
    cbn [bind]. rewrite Hab, byte_slice_between. cbn [bind].
    exists x. split; [reflexivity|].
    exists (concat (firstn i lines) ++ a),
           (b' ++ concat (skipn (S i) lines)).
    repeat split.
    + rewrite <- Hcat at 1. rewrite (list_split_at lines [] Hi) at 1.
      rewrite concat_app. cbn [concat]. rewrite Hab.
      now rewrite <- !app_assoc.
    + now rewrite byte_length_app.
    + now rewrite <- app_assoc, byte_length_app.
  - (* several lines *)
    assert (Hij : i < j < length lines) by (unfold i, j in *; lia).
    destruct (lines_split2 lines Hij) as [Hsplit Hfirst].
    cbn [bind]. rewrite Hab, byte_slice_from. cbn [bind].
    rewrite Hab', byte_slice_upto. cbn [bind]. eexists. split; [reflexivity|].
    unfold py_slice, slice_lo, slice_hi.
    replace (ln - 1 + 1)%Z with (Z.of_nat (S i)) by lia.
    replace (el - 1)%Z with (Z.of_nat j) by lia.
    rewrite !slice_bound_id by lia.
    set (mid := firstn (j - S i) (skipn (S i) lines)) in *.
    exists (concat (firstn i lines) ++ a),
           (b' ++ concat (skipn (S j) lines)).
    repeat split.
    + rewrite <- Hcat at 1. rewrite Hsplit at 1.
      rewrite concat_app. cbn [concat]. rewrite concat_app. cbn [concat].
      rewrite concat_app. cbn [concat]. rewrite Hab, Hab'.
      rewrite app_nil_r. now rewrite <- !app_assoc.
    + now rewrite byte_length_app.
    + rewrite Hfirst, concat_app. cbn [concat].
      rewrite concat_app. cbn [concat]. rewrite Hab, app_nil_r.
      rewrite !byte_length_app. lia.
Qed.

(** *** What the extractor returns *)

(** A definition introduced by [def] or by [async def]. *)
Definition is_function_like (n : node) : bool :=
  match kind n with
  | FunctionDef | AsyncFunctionDef => true
  | _ => false
  end.

Lemma is_FunctionDef_kind n : is_FunctionDef n = true <-> kind n = FunctionDef.
Proof.
  unfold is_FunctionDef. destruct (kind n); split; congruence.
Qed.

Section Extractor.

Variable read : text -> result text.
Variable parse : text -> refusal + node.

Lemma extract_unfold filepath source tree :
  read filepath = Ok source ->
  parse source = inr tree ->
  extract_functions_and_docs read parse filepath
  = mapM (unit_of read filepath) (filter is_FunctionDef (walk tree)).
Proof.
  intros Hr Hp. unfold extract_functions_and_docs, ast_parse.
  rewrite Hr. cbn [bind]. rewrite Hp. reflexivity.
Qed.

Lemma extract_Ok_inv filepath units :
  extract_functions_and_docs read parse filepath = Ok units ->
  exists source tree,
    read filepath = Ok source /\ parse source = inr tree.
Proof.
  unfold extract_functions_and_docs, ast_parse.
  destruct (read filepath) as [source|e]; [|discriminate]. cbn [bind].
  destruct (parse source) as [[msg line|e]|tree] eqn:Hp;
    [discriminate|discriminate|].
  intros _. now exists source, tree.
Qed.

(** C1 (amended).  For a file that parses, the extractor returns one
    record for each [def] of the tree, at any depth, and no more: their
    number is the number of [FunctionDef] nodes.  Each record carries
    the name of its node, and its source text is the run of the file's
    text between the start and the end the parser recorded for the
    node. *)
Theorem extract_sync_defs_verbatim filepath source tree :
  read filepath = Ok source ->
  parse source = inr tree ->
  Forall (fun n => valid_span source (pos n) = true)
         (filter is_FunctionDef (walk tree)) ->
  exists units,
    extract_functions_and_docs read parse filepath = Ok units /\
    length units = count_nodes is_FunctionDef tree /\
    Forall2 (fun n u =>
               unit_name u = name n /\
               exists seg,
                 unit_code u = Some seg /\
                 is_span source seg (span_start source (pos n))
                         (span_end source (pos n)))
            (filter is_FunctionDef (walk tree)) units.
Proof.
  intros Hr Hp Hv. rewrite (extract_unfold Hr Hp).
  destruct (@mapM_Forall2 _ _ (unit_of read filepath)
              (fun n u =>
                 unit_name u = name n /\
                 exists seg,
                   unit_code u = Some seg /\
                   is_span source seg (span_start source (pos n))
                           (span_end source (pos n)))
              (filter is_FunctionDef (walk tree))) as (units & Hm & HF).
  - eapply Forall_impl; [|exact Hv]. intros n Hn.
    destruct (get_source_segment_valid _ _ Hn) as (seg & Hseg & Hs).
    unfold unit_of. rewrite Hr. cbn [bind]. rewrite Hseg. cbn [bind].
    eexists. split; [reflexivity|]. cbn. split; [reflexivity|].
    now exists seg.
  - exists units. split; [exact Hm|]. split; [|exact HF].
    rewrite (mapM_Ok_length _ _ Hm). apply walk_count.
Qed.

(** The exception [ast.parse] raises for a refusal of the parser. *)
Definition parse_error (filepath : text) (r : refusal) : exn :=
  match r with
  | SyntaxFailure msg line => SyntaxError filepath msg line
  | OtherFailure e => e
  end.

(** C7 (amended).  When the parser refuses the text of the file, the
    extraction raises and no list of units is returned, not even a partial
    one.  When the refusal is a syntax error, the exception is the
    [SyntaxError], which carries the path of the file and prints its base
    name; when the parser raises another exception, as it does for a text
    with a NUL character, that exception leaves the extraction as it
    is. *)
Theorem extract_parse_error filepath source r :
  read filepath = Ok source ->
  parse source = inl r ->
  (forall units,
      extract_functions_and_docs read parse filepath <> Ok units) /\
  extract_functions_and_docs read parse filepath
  = Raise (parse_error filepath r) /\
  (forall msg line,
      r = SyntaxFailure msg line ->
      extract_functions_and_docs read parse filepath
      = Raise (SyntaxError filepath msg line) /\
      occurs_in (basename filepath)
                (str_exn (SyntaxError filepath msg line))) /\
  (forall e,
      r = OtherFailure e ->
      extract_functions_and_docs read parse filepath = Raise e).
Proof.
  intros Hr Hp.
  assert (E : extract_functions_and_docs read parse filepath
              = Raise (parse_error filepath r)).
  { unfold extract_functions_and_docs, ast_parse.
    rewrite Hr. cbn [bind]. rewrite Hp. now destruct r. }
  split; [|split; [exact E|split]].
  - intros units. rewrite E. discriminate.
  - intros msg line ->. split; [exact E|].
    cbn [str_exn]. exists (msg ++ txt " ("). eexists.
    rewrite <- app_assoc. reflexivity.
  - intros e ->. exact E.
Qed.

(** C9.  Every record the extractor returns is built from a
    [FunctionDef] node of the tree, that is, from a [def]; a node of an
    [async def], at whatever depth, is not among the nodes recorded, and
    the number of records is the number of [def]s. *)
Theorem extract_only_sync_defs filepath units :
  extract_functions_and_docs read parse filepath = Ok units ->
  exists source tree,
    read filepath = Ok source /\ parse source = inr tree /\
    Forall2 (fun n u => unit_of read filepath n = Ok u)
            (filter is_FunctionDef (walk tree)) units /\
    Forall (fun n => kind n = FunctionDef /\ In n (nodes_of tree))
           (filter is_FunctionDef (walk tree)) /\
    (forall n, In n (nodes_of tree) -> kind n = AsyncFunctionDef ->
               ~ In n (filter is_FunctionDef (walk tree))) /\
    length units = count_nodes is_FunctionDef tree.
Proof.
  intros H. destruct (extract_Ok_inv _ H) as (source & tree & Hr & Hp).
  exists source, tree. rewrite (extract_unfold Hr Hp) in H.
  repeat split; auto.
  - now apply mapM_Ok_Forall2.
  - apply Forall_forall. intros n Hn. apply filter_In in Hn as [Hin Hk].
    split; [now apply is_FunctionDef_kind|].
    eapply Permutation_in; [apply walk_perm|exact Hin].
  - intros n _ Hk Hin. apply filter_In in Hin as [_ Hf].
    apply is_FunctionDef_kind in Hf. congruence.
  - rewrite (mapM_Ok_length _ _ H). apply walk_count.
Qed.

End Extractor.

Import ParserExamples.

(** C1 as stated fails on a file whose only definition is an [async def]:
    it holds one function-like definition and the extractor returns no
    record. *)
Lemma extract_misses_async_def :
  read (txt "crud/g.py") = Ok async_source /\
  parser async_source = inr async_tree /\
  count_nodes is_function_like async_tree = 1 /\
  extract_functions_and_docs read parser (txt "crud/g.py") = Ok [].
Proof. repeat split; vm_compute; reflexivity. Qed.

Lemma extract_sync_defs_verbatim_witness :
  exists units,
    extract_functions_and_docs read parser (txt "crud/a.py") = Ok units /\
    length units = count_nodes is_FunctionDef class_tree /\
    Forall2 (fun n u =>
               unit_name u = name n /\
               exists seg,
                 unit_code u = Some seg /\
                 is_span class_source seg
                         (span_start class_source (pos n))
                         (span_end class_source (pos n)))
            (filter is_FunctionDef (walk class_tree)) units.
Proof.
  apply (@extract_sync_defs_verbatim read parser (txt "crud/a.py")
           class_source class_tree).
  - vm_compute; reflexivity.
  - vm_compute; reflexivity.
  - vm_compute. repeat constructor.
Defined.

(** A text with a NUL character. *)
Definition null_source : text := txt "x = 1" ++ [0%N] ++ NL.

(** C7 as stated fails on a text with a NUL character: the parser raises a
    [ValueError], which leaves the extraction, and its text does not name
    the file. *)
Lemma extract_null_names_no_file :
  extract_functions_and_docs (fun _ => Ok null_source) parser
                             (txt "crud/nul.py")
  = Raise (ValueError (txt "source code string cannot contain null bytes")) /\
  ~ occurs_in (txt "nul.py")
      (str_exn
         (ValueError (txt "source code string cannot contain null bytes"))).
Proof.
  split; [vm_compute; reflexivity|].
  intros H. apply occurs_inb_complete in H. vm_compute in H. discriminate H.
Qed.

Lemma extract_parse_error_witness :
  (forall units,
      extract_functions_and_docs read parser (txt "crud/broken.py")
      <> Ok units) /\
  extract_functions_and_docs read parser (txt "crud/broken.py")
  = Raise (SyntaxError (txt "crud/broken.py") (txt "invalid syntax") 1) /\
  occurs_in (txt "broken.py")
            (str_exn (SyntaxError (txt "crud/broken.py")
                                  (txt "invalid syntax") 1)).
Proof.
  destruct (@extract_parse_error read parser (txt "crud/broken.py")
              broken_source (SyntaxFailure (txt "invalid syntax") 1))
    as (Hnone & _ & Hsyntax & _);
    [vm_compute; reflexivity|vm_compute; reflexivity|].
  split; [exact Hnone|]. now apply Hsyntax.
Defined.

Definition unit_f : SourceUnit :=
  {| unit_name := txt "f"; unit_docstring := [];
     unit_code := Some (txt "def f(self):" ++ NL ++ txt "        pass") |}.

Lemma extract_only_sync_defs_witness :
  exists source tree,
    read (txt "crud/a.py") = Ok source /\ parser source = inr tree /\
    Forall2 (fun n u => unit_of read (txt "crud/a.py") n = Ok u)
            (filter is_FunctionDef (walk tree)) [unit_f] /\
    Forall (fun n => kind n = FunctionDef /\ In n (nodes_of tree))
           (filter is_FunctionDef (walk tree)) /\
    (forall n, In n (nodes_of tree) -> kind n = AsyncFunctionDef ->
               ~ In n (filter is_FunctionDef (walk tree))) /\
    length [unit_f] = count_nodes is_FunctionDef tree.
Proof.
  apply (@extract_only_sync_defs read parser (txt "crud/a.py") [unit_f]).
  vm_compute; reflexivity.
Defined.

End ParserFacts.

(** ** Format strings *)

Module FormatFacts.

Definition is_brace (c : codepoint) : bool :=
  cp_eqb c LBRACE || cp_eqb c RBRACE.

(** A text without [{] and [}]. *)
Definition brace_free (s : text) : bool :=
  forallb (fun c => negb (is_brace c)) s.

(** A character a field name is read through. *)
Definition name_char (c : codepoint) : bool :=
  negb (cp_eqb c LBRACE || cp_eqb c RBRACE || cp_eqb c LBRACKET
        || cp_eqb c BANG || cp_eqb c COLON).

(** A keyword a replacement field can name in full. *)
Definition simple_key (key : text) : bool :=
  match key with
  | [] => false
  | _ :: _ =>
      forallb name_char key && negb (forallb is_ascii_digit key)
      && is_plain_key key
  end.

(** The replacement field that names [key]. *)
Definition placeholder (key : text) : text := LBRACE :: key ++ [RBRACE].

(** [template] with the fields [{key}] filled by [value]: the texts
    [seg0], [segs] between the fields stay, each field becomes [value]. *)
Definition fill (value : text) (seg0 : text) (segs : list text) : text :=
  seg0 ++ concat (map (fun s => value ++ s) segs).

Section Scan.

Variable rx :
  list (text * pyval) -> text -> option codepoint -> text -> result text.
Variable kwargs : list (text * pyval).

Lemma fmt_literal_plain c out s :
  is_brace c = false ->
  fmt_literal rx kwargs out (c :: s) = fmt_literal rx kwargs (out ++ [c]) s.
Proof.
  unfold is_brace. intros H. apply orb_false_iff in H as [H1 H2].
  simpl. now rewrite H1, H2.
Qed.

Lemma fmt_literal_brace_free seg : forall out rest,
  brace_free seg = true ->
  fmt_literal rx kwargs out (seg ++ rest)
  = fmt_literal rx kwargs (out ++ seg) rest.
Proof.
  induction seg as [|c seg IH]; intros out rest H.
  - now rewrite app_nil_r.
  - simpl in H. apply andb_true_iff in H as [Hc Hs].
    apply negb_true_iff in Hc. cbn [app].
    rewrite fmt_literal_plain by exact Hc.
    rewrite IH by exact Hs. now rewrite <- app_assoc.
Qed.

Lemma fmt_name_char c out name s :
  name_char c = true ->
  fmt_name rx kwargs out false name (c :: s)
  = fmt_name rx kwargs out false (name ++ [c]) s.
Proof.
  unfold name_char. intros H. apply negb_true_iff in H.
  repeat (apply orb_false_iff in H as [H ?]).
  simpl. now repeat match goal with E : cp_eqb _ _ = false |- _ =>
                      rewrite E; clear E end.
Qed.

Lemma fmt_name_close out name s :
  fmt_name rx kwargs out false name (RBRACE :: s)
  = match render_field rx kwargs name None [] with
    | Ok v => fmt_literal rx kwargs (out ++ v) s
    | Raise e => Raise e
    end.
Proof. reflexivity. Qed.

Lemma fmt_name_scan key : forall out name rest,
  forallb name_char key = true ->
  fmt_name rx kwargs out false name (key ++ RBRACE :: rest)
  = match render_field rx kwargs (name ++ key) None [] with
    | Ok v => fmt_literal rx kwargs (out ++ v) rest
    | Raise e => Raise e
    end.
Proof.
  induction key as [|c key IH]; intros out name rest H.
  - rewrite app_nil_r. apply fmt_name_close.
  - simpl in H. apply andb_true_iff in H as [Hc Hk]. cbn [app].
    rewrite fmt_name_char by exact Hc. rewrite IH by exact Hk.
    now rewrite <- app_assoc.
Qed.

Lemma fmt_literal_open c out s :
  cp_eqb c LBRACE = false ->
  fmt_literal rx kwargs out (LBRACE :: c :: s)
  = fmt_name rx kwargs out false [] (c :: s).
Proof. intros H. simpl. now rewrite H. Qed.

Lemma render_field_key key v :
  simple_key key = true ->
  lookup_kw kwargs key = Some v ->
  render_field rx kwargs key None [] = Ok (str_val v).
Proof.
  unfold simple_key, render_field. destruct key as [|c key];
    [discriminate|].
  intros H Hv. apply andb_true_iff in H as [H Hp].
  apply andb_true_iff in H as [_ Hd]. apply negb_true_iff in Hd.
  now rewrite Hd, Hp, Hv.
Qed.

(** A field that names a keyword argument is replaced by the text of
    the argument. *)
Lemma fmt_placeholder key v out rest :
  simple_key key = true ->
  lookup_kw kwargs key = Some v ->
  fmt_literal rx kwargs out (placeholder key ++ rest)
  = fmt_literal rx kwargs (out ++ str_val v) rest.
Proof.
  intros Hk Hv. pose proof (render_field_key _ Hk Hv) as Hr.
  unfold simple_key in Hk. destruct key as [|c key]; [discriminate|].
  apply andb_true_iff in Hk as [Hk _].
  apply andb_true_iff in Hk as [Hn _].
  assert (Hc : cp_eqb c LBRACE = false).
  { simpl in Hn. apply andb_true_iff in Hn as [Hc _].
    unfold name_char in Hc. apply negb_true_iff in Hc.
    repeat (apply orb_false_iff in Hc as [Hc ?]). exact Hc. }
  unfold placeholder. cbn [app]. rewrite <- app_assoc. cbn [app].
  rewrite fmt_literal_open by exact Hc.
  change (c :: key ++ RBRACE :: rest) with ((c :: key) ++ RBRACE :: rest).
  rewrite fmt_name_scan by exact Hn. cbn [app]. now rewrite Hr.
Qed.

Lemma fmt_literal_fill key v segs : forall out seg0,
  simple_key key = true ->
  lookup_kw kwargs key = Some v ->
  Forall (fun s => brace_free s = true) (seg0 :: segs) ->
  fmt_literal rx kwargs out (fill (placeholder key) seg0 segs)
  = Ok (out ++ fill (str_val v) seg0 segs).
Proof.
  unfold fill.
  induction segs as [|seg segs IH]; intros out seg0 Hk Hv HF;
    inversion HF as [|? ? H0 HF']; subst.
  - cbn [map concat]. rewrite !app_nil_r.
    pose proof (@fmt_literal_brace_free seg0 out [] H0) as E.
    rewrite app_nil_r in E. rewrite E. reflexivity.
  - cbn [map concat]. rewrite fmt_literal_brace_free by exact H0.
    rewrite <- (app_assoc (placeholder key)).
    erewrite fmt_placeholder by eassumption.
    erewrite IH by eassumption. now rewrite <- !app_assoc.
Qed.

(** Substitution: in a template whose braces are those of its [{key}]
    fields, [format] puts the argument's text in the place of each field
    and changes nothing else. *)
Lemma format_fill key v seg0 segs :
  simple_key key = true ->
  lookup_kw kwargs key = Some v ->
  Forall (fun s => brace_free s = true) (seg0 :: segs) ->
  format rx kwargs (fill (placeholder key) seg0 segs)
  = Ok (fill (str_val v) seg0 segs).
Proof.
  intros Hk Hv HF. unfold format.
  erewrite fmt_literal_fill by eassumption. reflexivity.
Qed.

End Scan.

End FormatFacts.

(** ** The prompt builder *)

Module PromptFacts.

Import DocGenerator FormatFacts Examples.

(** A world whose prompt template is [template]. *)
Definition template_world (template : text) : world :=
  make_world [(prompt_template_path, template)] [] no_parser
             (constant_service (txt "ok")).

(** A template that asks for the code once. *)
Definition plain_template : text :=
  txt "Document this function:" ++ NL ++ txt "{code}" ++ NL
  ++ txt "Answer in Markdown.".

(** A template that shows a literal pair of braces before the field. *)
Definition escaped_template : text := txt "{{}} {code}".

(** C2 (amended).  For a template whose only braces are those of its
    [{code}] fields, the prompt is the template with the text of the code
    snippet in the place of each field, and is otherwise the template,
    character for character. *)
Theorem build_prompt_substitutes (w : world) (code_snippet : option text)
  (seg0 : text) (segs : list text) :
  read_file w prompt_template_path = Ok (fill (txt "{code}") seg0 segs) ->
  Forall (fun s => brace_free s = true) (seg0 :: segs) ->
  build_prompt w code_snippet
  = Ok (fill (str_val (pyval_of code_snippet)) seg0 segs).
Proof.
  intros Hr HF. unfold build_prompt. rewrite Hr. cbn [bind].
  change (txt "{code}") with (placeholder (txt "code")).
  apply format_fill; [reflexivity| |exact HF].
  cbn [lookup_kw]. now rewrite text_eqb_refl.
Qed.

Lemma build_prompt_substitutes_witness :
  build_prompt (template_world plain_template) (Some (txt "def f(): pass"))
  = Ok (txt "Document this function:" ++ NL ++ txt "def f(): pass" ++ NL
          ++ txt "Answer in Markdown.").
Proof.
  apply (@build_prompt_substitutes (template_world plain_template)
           (Some (txt "def f(): pass"))
           (txt "Document this function:" ++ NL)
           [NL ++ txt "Answer in Markdown."]).
  - vm_compute; reflexivity.
  - repeat constructor.
Defined.

(** C2 as stated fails on a template that also holds doubled braces: the
    template is [pre ++ "{code}" ++ post], and the prompt differs from
    [pre ++ X ++ post] outside the field. *)
Lemma build_prompt_unescapes_braces :
  let pre := txt "{{}} " in
  let post := [] in
  let X := txt "x" in
  read_file (template_world escaped_template) prompt_template_path
  = Ok (pre ++ txt "{code}" ++ post) /\
  build_prompt (template_world escaped_template) (Some X) = Ok (txt "{} x") /\
  txt "{} x" <> pre ++ X ++ post.
Proof. repeat split; vm_compute; congruence. Qed.

End PromptFacts.

(** ** The per-module requirements text *)

Module SRSFacts.

Import SRS FormatFacts Examples.

(** The template [generate_srs_content] works from, when it gets one. *)
Definition loaded_template (w : world) : result text :=
  match read_file w srs_template_path with
  | Ok t => Ok t
  | Raise (FileNotFoundError _) => Ok get_default_prompt
  | Raise e => Raise e
  end.

Lemma load_prompt_template_loaded w st :
  exists st',
    load_prompt_template w st = (st', loaded_template w) /\
    calls st' = calls st /\ disk st' = disk st.
Proof.
  unfold load_prompt_template, loaded_template.
  destruct (read_file w srs_template_path) as [t|e].
  - exists st. now repeat split.
  - destruct e; try (exists st; now repeat split).
    eexists. split; [reflexivity|]. now split.
Qed.

Definition srs_kwargs (function_docs : text) : list (text * pyval) :=
  [(txt "function_docs", VStr function_docs)].

(** The built-in template, around its one field. *)
Definition default_before : text :=
  firstn 178 get_default_prompt.

Definition default_after : text :=
  skipn 193 get_default_prompt.

Lemma default_prompt_fill :
  get_default_prompt
  = fill (placeholder (txt "function_docs")) default_before [default_after].
Proof. vm_compute. reflexivity. Qed.

(** The built-in template formats, whatever the documentation. *)
Lemma format_default_prompt rx function_docs :
  format rx (srs_kwargs function_docs) get_default_prompt
  = Ok (fill function_docs default_before [default_after]).
Proof.
  rewrite default_prompt_fill.
  apply (@format_fill rx (srs_kwargs function_docs) (txt "function_docs")
           (VStr function_docs)).
  - vm_compute; reflexivity.
  - cbn [srs_kwargs lookup_kw]. now rewrite text_eqb_refl.
  - repeat constructor; vm_compute; reflexivity.
Qed.

(** The sections added for the modules of [documentation], given the text
    generated for each. *)
Fixpoint add_sections (w : world) (documentation : list (text * text))
  (contents : list text) (story : list flowable) : list flowable :=
  match documentation, contents with
  | (module_name, _) :: rest, content :: contents' =>
      add_sections w rest contents'
        (add_module_requirements w story module_name content)
  | _, _ => story
  end.

Section Guarded.

Variable w : world.
Variable tpl : text.
Hypothesis Hload : loaded_template w = Ok tpl.
Hypothesis Hformat :
  forall docs, exists prompt,
    format (render_extended w) (srs_kwargs docs) tpl = Ok prompt.

Lemma generate_srs_content_returns function_docs st :
  exists st' content prompt,
    generate_srs_content w function_docs st = (st', Ok content) /\
    format (render_extended w) (srs_kwargs function_docs) tpl = Ok prompt /\
    (forall e, generate_content w (calls st) prompt = Raise e ->
               content = error_content e /\
               In (txt "Error generating SRS content: " ++ str_exn e)
                  (console st')) /\
    (forall t, generate_content w (calls st) prompt = Ok t ->
               content = strip t).
Proof.
  destruct (load_prompt_template_loaded w st) as (st1 & Hl & Hc & _).
  destruct (Hformat function_docs) as (prompt & Hp).
  unfold generate_srs_content, bindM. rewrite Hl, Hload.
  fold (srs_kwargs function_docs). unfold lift. rewrite Hp.
  unfold try_except, call_service, ret. rewrite Hc.
  destruct (generate_content w (calls st) prompt) as [t|e] eqn:Hg.
  - eexists _, _, prompt. split; [reflexivity|]. split; [reflexivity|].
    split; [intros e' E; rewrite Hg in E; discriminate|].
    intros t' E. rewrite Hg in E. now injection E as <-.
  - eexists _, _, prompt. split; [reflexivity|]. split; [reflexivity|].
    split; [|intros t' E; rewrite Hg in E; discriminate].
    intros e' E. rewrite Hg in E. injection E as <-.
    split; [reflexivity|]. cbn. apply in_or_app. right. now left.
Qed.

Lemma process_modules_returns documentation : forall story st,
  exists st' contents,
    process_modules w documentation story st
    = (st', Ok (add_sections w documentation contents story)) /\
    length contents = length documentation.
Proof.
  induction documentation as [|[module_name module_docs] rest IH];
    intros story st.
  - exists st, []. split; reflexivity.
  - cbn [process_modules]. unfold bindM, print. cbn beta iota.
    match goal with
    | |- context [generate_srs_content w module_docs ?s] =>
        destruct (generate_srs_content_returns module_docs s)
          as (st1 & content & prompt & Hg & _)
    end.
    rewrite Hg.
    destruct (IH (add_module_requirements w story module_name content) st1)
      as (st' & contents & Hp & Hlen).
    exists st', (content :: contents). split.
    + rewrite Hp. reflexivity.
    + simpl. now rewrite Hlen.
Qed.

End Guarded.

Lemma error_content_prefix e :
  startswith (txt "Error generating content for this module:")
             (error_content e) = true.
Proof.
  unfold error_content.
  change (txt "Error generating content for this module: ")
    with (txt "Error generating content for this module:" ++ txt " ").
  rewrite <- app_assoc. apply startswith_app.
Qed.


(** A world without a template file whose service is down. *)
Definition down_world : world :=
  make_world [] [] no_parser failing_service.

(** A world whose template names a field the call does not supply. *)
Definition stray_field_world : world :=
  make_world
    [(srs_template_path,
      txt "Requirements for {module}:" ++ NL ++ txt "{function_docs}")]
    [] no_parser (constant_service (txt "ok")).



End SRSFacts.

(** ** Statements and the console *)

(** [st'] has at least the console lines of [st], in the same places. *)
Definition extends (st st' : state) : Prop :=
  exists extra, console st' = console st ++ extra.

(** A statement that only adds to the console. *)
Definition grows {A} (m : M A) : Prop :=
  forall st, extends st (fst (m st)).

Lemma extends_refl st : extends st st.
Proof. exists []. now rewrite app_nil_r. Qed.

Lemma extends_same st st' : console st' = console st -> extends st st'.
Proof. intros H. exists []. now rewrite app_nil_r. Qed.

Lemma extends_trans st1 st2 st3 :
  extends st1 st2 -> extends st2 st3 -> extends st1 st3.
Proof.
  intros [x Hx] [y Hy]. exists (x ++ y). now rewrite Hy, Hx, app_assoc.
Qed.

Lemma extends_In st st' line :
  extends st st' -> In line (console st) -> In line (console st').
Proof. intros [x ->] H. apply in_or_app. now left. Qed.

Lemma grows_ret {A} (a : A) : grows (ret a).
Proof. intros st. apply extends_refl. Qed.

Lemma grows_raise {A} e : grows (@raise A e).
Proof. intros st. apply extends_refl. Qed.

Lemma grows_lift {A} (r : result A) : grows (lift r).
Proof. intros st. apply extends_refl. Qed.

Lemma grows_print line : grows (print line).
Proof. intros st. now exists [line]. Qed.

Lemma grows_disk_set path content : grows (disk_set path content).
Proof. intros st. now apply extends_same. Qed.

Lemma grows_bindM {A B} (m : M A) (k : A -> M B) :
  grows m -> (forall a, grows (k a)) -> grows (bindM m k).
Proof.
  intros Hm Hk st. unfold bindM. specialize (Hm st).
  destruct (m st) as [st1 [a|e]]; simpl in *.
  - eapply extends_trans; [exact Hm|apply Hk].
  - exact Hm.
Qed.

Lemma grows_try_except {A} (body : M A) (handler : exn -> M A) :
  grows body -> (forall e, grows (handler e)) ->
  grows (try_except body handler).
Proof.
  intros Hb Hh st. unfold try_except. specialize (Hb st).
  destruct (body st) as [st1 [a|e]]; simpl in *.
  - exact Hb.
  - eapply extends_trans; [exact Hb|apply Hh].
Qed.

Lemma grows_for_each {A} (body : A -> M unit) (l : list A) :
  (forall x, grows (body x)) -> grows (for_each body l).
Proof.
  intros Hb. induction l as [|x l IH]; simpl.
  - apply grows_ret.
  - apply grows_bindM; [apply Hb|intros _; exact IH].
Qed.

Lemma grows_open_write w path : grows (open_write w path).
Proof.
  unfold open_write. destruct (open_fault w path).
  - apply grows_raise.
  - apply grows_disk_set.
Qed.

Lemma grows_file_write w path data : grows (file_write w path data).
Proof.
  intros st. unfold file_write.
  destruct (write_fault w path _ data); now apply extends_same.
Qed.

Lemma grows_call_service w prompt : grows (call_service w prompt).
Proof. intros st. now apply extends_same. Qed.

Create HintDb grows.
#[export] Hint Resolve grows_ret grows_raise grows_lift grows_print
  grows_disk_set grows_open_write grows_file_write grows_call_service : grows.
#[export] Hint Extern 2 (grows (bindM _ _)) =>
  apply grows_bindM; [|intro] : grows.
#[export] Hint Extern 2 (grows (try_except _ _)) =>
  apply grows_try_except; [|intro] : grows.
#[export] Hint Extern 2 (grows (for_each _ _)) =>
  apply grows_for_each; intro : grows.

(** ** The loop over the source files *)

Module MainFacts.

Import Parser DocGenerator Examples.

Section Loop.

Variable w : world.
Variable output_path : text.

Lemma grows_generate_doc code : grows (generate_doc w code).
Proof. unfold generate_doc. auto with grows. Qed.

Lemma grows_document_function output_file func :
  grows (document_function w output_file func).
Proof.
  unfold document_function. pose proof grows_generate_doc.
  auto 10 with grows.
Qed.

Lemma grows_process_body crud_file filename output_file :
  grows (process_body w crud_file filename output_file).
Proof.
  unfold process_body. pose proof grows_document_function.
  apply grows_bindM; [auto with grows|].
  intros [|func functions]; auto 10 with grows.
Qed.

Lemma grows_process_file crud_file :
  grows (process_file w output_path crud_file).
Proof.
  unfold process_file. pose proof grows_process_body.
  auto 10 with grows.
Qed.

Lemma grows_main_loop crud_files :
  grows (main_loop w output_path crud_files).
Proof.
  unfold main_loop. apply grows_for_each. apply grows_process_file.
Qed.

(** The name under which the documentation of a file is written. *)
Definition output_file_of (crud_file : text) : text :=
  path_join output_path
    (replace (txt ".py") [] (basename crud_file) ++ txt "_doc.md").

(** The [try] block of a file, run after its [Processing] line. *)
Definition attempt (crud_file : text) (st : state) : state * result unit :=
  process_body w crud_file (replace (txt ".py") [] (basename crud_file))
               (output_file_of crud_file)
               (fst (print (processing_line crud_file) st)).

(** One iteration: the outcome of the [try] block decides what is
    printed, and the iteration ends normally either way. *)
Lemma process_file_outcome crud_file st :
  process_file w output_path crud_file st
  = match attempt crud_file st with
    | (st1, Ok _) => (st1, Ok tt)
    | (st1, Raise e) => (fst (print (error_line crud_file e) st1), Ok tt)
    end.
Proof.
  unfold process_file, attempt, output_file_of, bindM, try_except.
  cbn [print fst].
  match goal with
  | |- context [process_body w ?a ?b ?c ?s] =>
      destruct (process_body w a b c s) as [st1 [[]|e]]
  end; reflexivity.
Qed.

Lemma process_file_total crud_file st :
  snd (process_file w output_path crud_file st) = Ok tt.
Proof.
  rewrite process_file_outcome.
  destruct (attempt crud_file st) as [st1 [u|e]]; reflexivity.
Qed.

Lemma main_loop_cons crud_file rest st :
  main_loop w output_path (crud_file :: rest) st
  = main_loop w output_path rest
      (fst (process_file w output_path crud_file st)).
Proof.
  unfold main_loop. cbn [for_each]. unfold bindM.
  pose proof (process_file_total crud_file st) as Ht.
  destruct (process_file w output_path crud_file st) as [st1 r].
  simpl in Ht. subst r. reflexivity.
Qed.

Lemma main_loop_total crud_files : forall st,
  snd (main_loop w output_path crud_files st) = Ok tt.
Proof.
  induction crud_files as [|f rest IH]; intros st.
  - reflexivity.
  - rewrite main_loop_cons. apply IH.
Qed.

Lemma main_loop_app before after : forall st,
  main_loop w output_path (before ++ after) st
  = main_loop w output_path after
      (fst (main_loop w output_path before st)).
Proof.
  induction before as [|f rest IH]; intros st.
  - reflexivity.
  - cbn [app]. rewrite !main_loop_cons. apply IH.
Qed.

End Loop.

(** A directory with a file that does not parse, a file with a [def], and
    a file with an [async def] only. *)
Definition crud_world : world :=
  make_world
    (ParserExamples.files
       ++ [(prompt_template_path, PromptFacts.plain_template)])
    [txt "broken.py"; txt "a.py"; txt "g.py"]
    ParserExamples.parser
    (constant_service (txt "Returns nothing." ++ NL)).

Definition broken_error : exn :=
  SyntaxError (txt "crud/broken.py") (txt "invalid syntax") 1.

End MainFacts.

(** ** The loop over the source files, on a console that can refuse a line *)

Module ConsoleFacts.

Import Parser DocGenerator Examples.

Section Loop.

Variable w : world.
Variable stdout_fault : text -> option exn.
Variable output_path : text.

Lemma grows_print_line line : grows (Console.print_line stdout_fault line).
Proof.
  intros st. unfold Console.print_line.
  destruct (stdout_fault line); [apply extends_refl|apply grows_print].
Qed.

Lemma console_grows_document_function output_file func :
  grows (Console.document_function w stdout_fault output_file func).
Proof.
  unfold Console.document_function.
  pose proof grows_print_line. pose proof (MainFacts.grows_generate_doc w).
  auto 10 with grows.
Qed.

Lemma console_grows_process_body crud_file filename output_file :
  grows (Console.process_body w stdout_fault crud_file filename output_file).
Proof.
  unfold Console.process_body.
  pose proof grows_print_line. pose proof console_grows_document_function.
  apply grows_bindM; [auto with grows|].
  intros [|func functions]; auto 10 with grows.
Qed.

Lemma console_grows_process_file crud_file :
  grows (Console.process_file w stdout_fault output_path crud_file).
Proof.
  unfold Console.process_file.
  pose proof grows_print_line. pose proof console_grows_process_body.
  auto 10 with grows.
Qed.

Lemma console_grows_main_loop crud_files :
  grows (Console.main_loop w stdout_fault output_path crud_files).
Proof.
  unfold Console.main_loop. apply grows_for_each.
  apply console_grows_process_file.
Qed.

(** The two lines of a file that are printed outside its [try] block. *)
Definition processing_text (crud_file : text) : text :=
  txt "Processing " ++ crud_file ++ txt "...".

Definition error_text (crud_file : text) (e : exn) : text :=
  txt "Error processing " ++ crud_file ++ txt ": " ++ str_exn e.

(** The console can print the [Processing] line of each of the files and
    whatever error is to be reported for it. *)
Definition reports_accepted (crud_files : list text) : Prop :=
  forall crud_file,
    In crud_file crud_files ->
    stdout_fault (processing_text crud_file) = None /\
    forall e, stdout_fault (error_text crud_file e) = None.

(** The [try] block of a file, run after its [Processing] line. *)
Definition attempt (crud_file : text) (st : state) : state * result unit :=
  Console.process_body w stdout_fault crud_file
    (replace (txt ".py") [] (basename crud_file))
    (MainFacts.output_file_of output_path crud_file)
    (fst (print (processing_text crud_file) st)).

(** One iteration on a console that accepts the two lines: the outcome of
    the [try] block decides what is printed, and the iteration ends normally
    either way. *)
Lemma console_process_file_outcome crud_file st :
  reports_accepted [crud_file] ->
  Console.process_file w stdout_fault output_path crud_file st
  = match attempt crud_file st with
    | (st1, Ok _) => (st1, Ok tt)
    | (st1, Raise e) => (fst (print (error_text crud_file e) st1), Ok tt)
    end.
Proof.
  intros Hc. destruct (Hc crud_file (or_introl eq_refl)) as [Hp He].
  unfold Console.process_file, attempt, MainFacts.output_file_of,
    processing_text, error_text in *.
  unfold bindM at 1, Console.print_line at 1. rewrite Hp. cbn [print fst].
  unfold try_except.
  match goal with
  | |- context [Console.process_body w stdout_fault ?a ?b ?c ?s] =>
      destruct (Console.process_body w stdout_fault a b c s)
        as [st1 [[]|e]]
  end; [reflexivity|].
  unfold Console.print_line. now rewrite He.
Qed.

Lemma reports_accepted_cons crud_file rest :
  reports_accepted (crud_file :: rest) ->
  reports_accepted [crud_file] /\ reports_accepted rest.
Proof.
  intros H. split.
  - intros f [<-|[]]. apply H. now left.
  - intros f Hf. apply H. now right.
Qed.

Lemma reports_accepted_app before after :
  reports_accepted (before ++ after) ->
  reports_accepted before /\ reports_accepted after.
Proof.
  intros H. split; intros f Hf; apply H; apply in_or_app; auto.
Qed.

Lemma console_process_file_total crud_file st :
  reports_accepted [crud_file] ->
  snd (Console.process_file w stdout_fault output_path crud_file st) = Ok tt.
Proof.
  intros Hc. rewrite console_process_file_outcome by exact Hc.
  destruct (attempt crud_file st) as [st1 [u|e]]; reflexivity.
Qed.

Lemma console_main_loop_cons crud_file rest st :
  reports_accepted [crud_file] ->
  Console.main_loop w stdout_fault output_path (crud_file :: rest) st
  = Console.main_loop w stdout_fault output_path rest
      (fst (Console.process_file w stdout_fault output_path crud_file st)).
Proof.
  intros Hc. unfold Console.main_loop. cbn [for_each]. unfold bindM.
  pose proof (@console_process_file_total crud_file st Hc) as Ht.
  destruct (Console.process_file w stdout_fault output_path crud_file st)
    as [st1 r].
  simpl in Ht. subst r. reflexivity.
Qed.

Lemma console_main_loop_total crud_files : forall st,
  reports_accepted crud_files ->
  snd (Console.main_loop w stdout_fault output_path crud_files st) = Ok tt.
Proof.
  induction crud_files as [|f rest IH]; intros st Hc.
  - reflexivity.
  - apply reports_accepted_cons in Hc as [Hf Hrest].
    rewrite console_main_loop_cons by exact Hf. now apply IH.
Qed.

Lemma console_main_loop_app before after : forall st,
  reports_accepted before ->
  Console.main_loop w stdout_fault output_path (before ++ after) st
  = Console.main_loop w stdout_fault output_path after
      (fst (Console.main_loop w stdout_fault output_path before st)).
Proof.
  induction before as [|f rest IH]; intros st Hc.
  - reflexivity.
  - apply reports_accepted_cons in Hc as [Hf Hrest].
    cbn [app]. rewrite !console_main_loop_cons by exact Hf. now apply IH.
Qed.


End Loop.

Section Main.

Variable w : world.
Variable stdout_fault : text -> option exn.
Variable crud_path output_path : text.

(** The source files [main] finds. *)
Definition crud_files_of : list text :=
  glob_ext crud_path (txt ".py") (listdir w crud_path).

Definition found_text : text :=
  txt "Found " ++ str_nat (length crud_files_of)
    ++ txt " Python files to process...".

(** The console can print the lines [main] prints outside a [try] block,
    and the error reports. *)
Definition lines_accepted : Prop :=
  stdout_fault (txt "No Python files found in " ++ crud_path) = None /\
  stdout_fault found_text = None /\
  stdout_fault (txt "Documentation generation complete!") = None /\
  reports_accepted stdout_fault crud_files_of.


End Main.

(** A console that accepts every line: the pipeline is then the one of
    [DocGenerator]. *)
Definition accepting : text -> option exn := fun _ => None.

Lemma main_loop_accepting w output_path crud_files :
  Console.main_loop w accepting output_path crud_files
  = main_loop w output_path crud_files.
Proof. reflexivity. Qed.

Lemma main_accepting w crud_path output_path :
  Console.main w accepting crud_path output_path
  = main w crud_path output_path.
Proof. reflexivity. Qed.

Lemma reports_accepted_accepting crud_files :
  reports_accepted accepting crud_files.
Proof. intros f _. split; [reflexivity|intros e; reflexivity]. Qed.


Definition ARROW : codepoint := 8594%N.

(** A text that is not Python: it holds an arrow, U+2192. *)
Definition arrow_source : text := txt "x = " ++ [ARROW] ++ NL.

(** The message of the parser on it. *)
Definition arrow_message : text :=
  txt "invalid character '" ++ [ARROW] ++ txt "' (U+2192)".

Definition arrow_parser (source : text) : refusal + node :=
  if text_eqb source ParserExamples.class_source
  then inr ParserExamples.class_tree
  else inl (SyntaxFailure arrow_message 1).

(** A directory with that file and a file with a [def]. *)
Definition arrow_world : world :=
  make_world
    [ (txt "crud/arrow.py", arrow_source);
      (txt "crud/a.py", ParserExamples.class_source);
      (prompt_template_path, PromptFacts.plain_template) ]
    [ txt "arrow.py"; txt "a.py" ]
    arrow_parser
    (constant_service (txt "Returns nothing." ++ NL)).

Fixpoint first_outside_ascii (pos : nat) (line : text) : option nat :=
  match line with
  | [] => None
  | c :: rest =>
      if (c <? 128)%N then first_outside_ascii (S pos) rest else Some pos
  end.

(** A console in the ASCII encoding, as it answers a line whose first
    character outside ASCII is the arrow. *)
Definition ascii_console (line : text) : option exn :=
  match first_outside_ascii 0 line with
  | None => None
  | Some pos =>
      Some (ValueError
              (txt "'ascii' codec can't encode character '\u2192' in position "
                 ++ str_nat pos ++ txt ": ordinal not in range(128)"))
  end.



End ConsoleFacts.

(** ** Sorting *)

Definition text_le (a b : text) : Prop := text_leb a b = true.

Lemma text_leb_total a : forall b, text_leb a b = true \/ text_leb b a = true.
Proof.
  induction a as [|x a IH]; intros [|y b]; simpl; auto.
  destruct (N.ltb_spec x y), (N.ltb_spec y x); auto; lia.
Qed.

Lemma text_leb_trans a : forall b c,
  text_leb a b = true -> text_leb b c = true -> text_leb a c = true.
Proof.
  induction a as [|x a IH]; intros [|y b] [|z c]; simpl; auto;
    try discriminate.
  destruct (N.ltb_spec x y), (N.ltb_spec y x), (N.ltb_spec y z),
    (N.ltb_spec z y), (N.ltb_spec x z), (N.ltb_spec z x);
    try discriminate; try lia; auto.
  apply IH.
Qed.

Lemma text_leb_prefix (p : text) : forall a b,
  text_leb (p ++ a) (p ++ b) = text_leb a b.
Proof.
  induction p as [|x p IH]; intros a b; simpl; [reflexivity|].
  rewrite N.ltb_irrefl. apply IH.
Qed.

Lemma insert_sorted_perm x l : Permutation (x :: l) (insert_sorted x l).
Proof.
  induction l as [|y l IH]; simpl; [reflexivity|].
  destruct (text_leb x y); [reflexivity|].
  rewrite perm_swap. now constructor.
Qed.

Lemma sort_perm l : Permutation l (sort l).
Proof.
  induction l as [|x l IH]; simpl; [constructor|].
  etransitivity; [|apply insert_sorted_perm]. now constructor.
Qed.

Lemma insert_sorted_sorted x l :
  StronglySorted text_le l -> StronglySorted text_le (insert_sorted x l).
Proof.
  induction 1 as [|y l Hs IH Hy]; simpl.
  - repeat constructor.
  - destruct (text_leb x y) eqn:E.
    + constructor; [now constructor|]. constructor; [exact E|].
      eapply Forall_impl; [|exact Hy]. intros z Hz.
      eapply text_leb_trans; eassumption.
    + constructor; [exact IH|].
      eapply Permutation_Forall; [apply insert_sorted_perm|].
      constructor; [|exact Hy].
      destruct (text_leb_total x y) as [H|H]; [congruence|exact H].
  Qed.

Lemma sort_sorted l : StronglySorted text_le (sort l).
Proof.
  induction l as [|x l IH]; simpl; [constructor|].
  now apply insert_sorted_sorted.
Qed.

Lemma sort_length l : length (sort l) = length l.
Proof. symmetry. apply Permutation_length, sort_perm. Qed.

Lemma sort_nil_iff l : sort l = [] <-> l = [].
Proof.
  split; intros H.
  - apply length_zero_iff_nil. rewrite <- sort_length, H. reflexivity.
  - now subst.
Qed.

(** Sorting paths that share their directory sorts their names. *)
Lemma insert_sorted_prefix p x l :
  insert_sorted (p ++ x) (map (app p) l) = map (app p) (insert_sorted x l).
Proof.
  induction l as [|y l IH]; simpl; [reflexivity|].
  rewrite text_leb_prefix. destruct (text_leb x y); simpl; [reflexivity|].
  now rewrite IH.
Qed.

Lemma sort_prefix p l : sort (map (app p) l) = map (app p) (sort l).
Proof.
  induction l as [|x l IH]; simpl; [reflexivity|].
  now rewrite IH, insert_sorted_prefix.
Qed.

(** ** Splitting *)

Lemma split_from_skip sep x : forall cur rest,
  split_from sep (length x) cur (x ++ rest) = split_from sep 0 cur rest.
Proof.
  induction x as [|c x IH]; intros cur rest; simpl; [reflexivity|].
  apply IH.
Qed.

(** [sep] does not start at position [k] of [s]. *)
Definition no_match_at (sep s : text) (k : nat) : bool :=
  negb (startswith sep (skipn k s)).

(** In [seg ++ sep], the separator starts nowhere within [seg]: the only
    separator found by a scan of [seg ++ sep] is the one appended. *)
Definition clean (sep seg : text) : bool :=
  forallb (no_match_at sep (seg ++ sep)) (seq 0 (length seg)).

(** The separator occurs nowhere in [seg]. *)
Definition absent (sep seg : text) : bool :=
  forallb (no_match_at sep seg) (seq 0 (length seg)).

Lemma forallb_map_shift (f : nat -> bool) (l : list nat) :
  forallb f (map S l) = forallb (fun k => f (S k)) l.
Proof. induction l as [|x l IH]; simpl; [reflexivity|]. now rewrite IH. Qed.

Lemma forallb_seq_S (f : nat -> bool) n :
  forallb f (seq 0 (S n)) = f 0 && forallb (fun k => f (S k)) (seq 0 n).
Proof.
  cbn [seq forallb]. f_equal. rewrite <- seq_shift.
  apply forallb_map_shift.
Qed.

Lemma clean_cons sep c seg :
  clean sep (c :: seg) = true ->
  startswith sep ((c :: seg) ++ sep) = false /\ clean sep seg = true.
Proof.
  unfold clean. cbn [length]. rewrite forallb_seq_S.
  intros H. apply andb_true_iff in H as [H0 H].
  split; [now apply negb_true_iff in H0|exact H].
Qed.

Lemma absent_cons sep c seg :
  absent sep (c :: seg) = true ->
  startswith sep (c :: seg) = false /\ absent sep seg = true.
Proof.
  unfold absent. cbn [length]. rewrite forallb_seq_S.
  intros H. apply andb_true_iff in H as [H0 H].
  split; [now apply negb_true_iff in H0|exact H].
Qed.

Lemma split_from_match sep cur rest :
  sep <> [] ->
  split_from sep 0 cur (sep ++ rest) = cur :: split_from sep 0 [] rest.
Proof.
  intros Hsep. destruct sep as [|c sep]; [contradiction|].
  cbn [app split_from].
  change (c :: sep ++ rest) with ((c :: sep) ++ rest).
  rewrite startswith_app.
  replace (length (c :: sep) - 1) with (length sep) by (simpl; lia).
  f_equal. apply split_from_skip.
Qed.

(** A clean segment followed by the separator is split off whole. *)
Lemma split_from_segment sep seg : forall cur rest,
  sep <> [] -> clean sep seg = true ->
  split_from sep 0 cur (seg ++ sep ++ rest)
  = (cur ++ seg) :: split_from sep 0 [] rest.
Proof.
  induction seg as [|c seg IH]; intros cur rest Hsep Hc.
  - rewrite app_nil_r. cbn [app]. now apply split_from_match.
  - apply clean_cons in Hc as [H0 Hc].
    cbn [app split_from].
    change (c :: seg ++ sep ++ rest) with ((c :: seg) ++ sep ++ rest).
    rewrite app_assoc, startswith_long, H0
      by (rewrite length_app; lia).
    rewrite IH by assumption. now rewrite <- app_assoc.
Qed.

Lemma split_from_absent sep seg : forall cur,
  absent sep seg = true -> split_from sep 0 cur seg = [cur ++ seg].
Proof.
  induction seg as [|c seg IH]; intros cur Ha.
  - now rewrite app_nil_r.
  - apply absent_cons in Ha as [H0 Ha]. cbn [split_from].
    rewrite H0, IH by assumption. now rewrite <- app_assoc.
Qed.

(** [sep.join(segs)] *)
Fixpoint join (sep : text) (segs : list text) : text :=
  match segs with
  | [] => []
  | [seg] => seg
  | seg :: rest => seg ++ sep ++ join sep rest
  end.

(** Every segment but the last is clean, and the last holds no
    separator. *)
Fixpoint segments_clean (sep : text) (segs : list text) : bool :=
  match segs with
  | [] => true
  | [seg] => absent sep seg
  | seg :: rest => clean sep seg && segments_clean sep rest
  end.

Lemma split_join sep segs :
  sep <> [] -> segs <> [] -> segments_clean sep segs = true ->
  split sep (join sep segs) = Ok segs.
Proof.
  intros Hsep Hne Hc. unfold split.
  destruct sep as [|c0 sep0] eqn:Esep; [contradiction|]. rewrite <- Esep in *.
  f_equal. clear Esep.
  induction segs as [|seg rest IH]; [contradiction|].
  destruct rest as [|seg' rest'].
  - simpl in *. now rewrite split_from_absent.
  - cbn [join segments_clean] in *.
    apply andb_true_iff in Hc as [H1 H2].
    rewrite split_from_segment by assumption. cbn [app]. f_equal.
    apply IH; [discriminate|exact H2].
Qed.

(** ** Paths *)

Definition SLASH : codepoint := 47%N.

(** A name without ['/'], as the entries of a directory are. *)
Definition no_slash (n : text) : bool := negb (existsb (cp_eqb SLASH) n).

(** What [os.path.join] puts before a name. *)
Definition dir_prefix (a : text) : text :=
  match a with
  | [] => []
  | _ :: _ => if cp_eqb (last a 0%N) SLASH then a else a ++ txt "/"
  end.

Lemma path_join_prefix a n :
  no_slash n = true -> path_join a n = dir_prefix a ++ n.
Proof.
  unfold no_slash, path_join, dir_prefix. intros H.
  apply negb_true_iff in H.
  assert (Hs : startswith (txt "/") n = false).
  { destruct n as [|c n]; [reflexivity|]. cbn [existsb] in H.
    apply orb_false_iff in H as [H _]. cbn [txt startswith map
      list_ascii_of_string]. change (N_of_ascii "/") with SLASH.
    now rewrite H. }
  rewrite Hs. destruct a as [|x a]; [reflexivity|].
  fold SLASH. destruct (cp_eqb (last (x :: a) 0%N) SLASH); [reflexivity|].
  now rewrite <- app_assoc.
Qed.

Lemma basename_from_no_slash n : forall cur,
  no_slash n = true -> basename_from cur n = cur ++ n.
Proof.
  unfold no_slash. induction n as [|c n IH]; intros cur H.
  - now rewrite app_nil_r.
  - apply negb_true_iff in H. cbn [existsb] in H.
    apply orb_false_iff in H as [Hc Hn]. cbn [basename_from].
    assert (Hc' : cp_eqb c 47%N = false)
      by (unfold cp_eqb, SLASH in *; now rewrite N.eqb_sym).
    rewrite Hc'.
    rewrite IH by now apply negb_true_iff. now rewrite <- app_assoc.
Qed.

Lemma basename_from_slash x : forall cur n,
  basename_from cur (x ++ SLASH :: n) = basename_from [] n.
Proof.
  induction x as [|c x IH]; intros cur n.
  - reflexivity.
  - cbn [app basename_from]. destruct (cp_eqb c 47%N); apply IH.
Qed.

Lemma basename_prefix a n :
  no_slash n = true -> basename (dir_prefix a ++ n) = n.
Proof.
  intros H. unfold basename, dir_prefix. destruct a as [|x a].
  - now rewrite basename_from_no_slash.
  - destruct (cp_eqb (last (x :: a) 0%N) SLASH) eqn:E.
    + apply N.eqb_eq in E.
      rewrite (@app_removelast_last _ (x :: a) 0%N) by discriminate.
      rewrite E, <- app_assoc. cbn [app].
      rewrite basename_from_slash. now rewrite basename_from_no_slash.
    + rewrite <- app_assoc.
      change (txt "/" ++ n) with (SLASH :: n).
      rewrite basename_from_slash. now rewrite basename_from_no_slash.
Qed.

(** The names a glob pattern [*ext] selects in a listing. *)
Definition matching (ext : text) (listing : list text) : list text :=
  filter (fun n => negb (startswith (txt ".") n) && endswith ext n) listing.

Lemma sort_glob_names dirname ext listing :
  forallb no_slash (matching ext listing) = true ->
  sort (glob_ext dirname ext listing)
  = map (app (dir_prefix dirname)) (sort (matching ext listing)) /\
  map basename (sort (glob_ext dirname ext listing))
  = sort (matching ext listing).
Proof.
  unfold glob_ext. fold (matching ext listing).
  set (names := matching ext listing). intros H.
  assert (E : map (path_join dirname) names
              = map (app (dir_prefix dirname)) names).
  { apply map_ext_in. intros n Hn. apply path_join_prefix.
    rewrite forallb_forall in H. now apply H. }
  rewrite E, sort_prefix. split; [reflexivity|].
  rewrite map_map. rewrite <- (map_id (sort names)) at 2.
  apply map_ext_in. intros n Hn. apply basename_prefix.
  rewrite forallb_forall in H. apply H.
  eapply Permutation_in; [symmetry; apply sort_perm|exact Hn].
Qed.

(** ** The combiner *)

Module CombineFacts.

Import DocGenerator Examples.

Lemma for_each_print {A} (g : A -> text) (l : list A) : forall st,
  for_each (fun x => print (g x)) l st
  = ({| console := console st ++ map g l; disk := disk st;
        calls := calls st |}, Ok tt).
Proof.
  induction l as [|x l IH]; intros st.
  - simpl. unfold ret. rewrite app_nil_r. now destruct st.
  - cbn [for_each map]. unfold bindM. cbn [print]. rewrite IH.
    cbn. now rewrite <- app_assoc.
Qed.

Section Combine.

Variable w : world.

(** What one file contributes to the combined text: its heading and its
    stripped content, followed by the page break unless it is the last
    file; or, when it cannot be read, an error block. *)
Definition section_of (total index : nat) (md_file : text) : text :=
  match read_file w md_file with
  | Ok raw =>
      module_heading w (basename md_file) ++ strip raw
        ++ (if index <? total - 1 then page_break else [])
  | Raise e => error_block (basename md_file) e
  end.

Fixpoint sections (total index : nat) (md_files : list text)
  : list text :=
  match md_files with
  | [] => []
  | md_file :: rest =>
      section_of total index md_file :: sections total (S index) rest
  end.

Definition could_not_process (md_file : text) (e : exn) : text :=
  txt "[ERROR] Could not process " ++ md_file ++ txt ": " ++ str_exn e.

Lemma combine_one_outcome total index md_file combined st :
  exists st',
    combine_one w total index md_file combined st
    = (st', Ok (combined ++ section_of total index md_file)) /\
    disk st' = disk st /\ extends st st' /\
    forall e, read_file w md_file = Raise e ->
              In (could_not_process md_file e) (console st').
Proof.
  unfold combine_one, section_of, try_except, bindM, lift, ret.
  cbn [print]. destruct (read_file w md_file) as [raw|e].
  - eexists. split.
    { apply f_equal2; [reflexivity|]. f_equal.
      destruct (index <? total - 1);
        now rewrite <- ?app_assoc, ?app_nil_r. }
    split; [reflexivity|]. split; [now eexists|discriminate].
  - eexists. split; [reflexivity|]. split; [reflexivity|]. split.
    + cbn. rewrite <- app_assoc. now eexists.
    + intros e' E. injection E as <-. cbn.
      apply in_or_app. right. now left.
Qed.

Lemma combine_loop_outcome total md_files : forall index combined st,
  exists st',
    combine_loop w total index md_files combined st
    = (st', Ok (combined ++ concat (sections total index md_files))) /\
    disk st' = disk st /\ extends st st' /\
    forall md_file e,
      In md_file md_files -> read_file w md_file = Raise e ->
      In (could_not_process md_file e) (console st').
Proof.
  induction md_files as [|f rest IH]; intros index combined st.
  - exists st. cbn. rewrite app_nil_r.
    split; [reflexivity|]. split; [reflexivity|].
    split; [apply extends_refl|]. intros ? ? [].
  - destruct (combine_one_outcome total index f combined st)
      as (st1 & H1 & Hd1 & He1 & Hr1).
    destruct (IH (S index) (combined ++ section_of total index f) st1)
      as (st2 & H2 & Hd2 & He2 & Hr2).
    exists st2. cbn [combine_loop sections concat]. unfold bindM.
    rewrite H1, H2. rewrite <- app_assoc.
    split; [reflexivity|]. split; [congruence|]. split.
    + eapply extends_trans; eassumption.
    + intros md_file e [<-|Hin] Hr.
      * eapply extends_In; [exact He2|]. now apply Hr1.
      * now apply (Hr2 md_file).
Qed.

(** The files the combiner works on, in its order. *)
Definition md_files_of (input_folder : text) : list text :=
  sort (glob_ext input_folder (txt ".md") (listdir w input_folder)).

(** The text the combiner builds. *)
Definition combined_text (input_folder : text) : text :=
  combined_header
    ++ concat (sections (length (md_files_of input_folder)) 0
                        (md_files_of input_folder)).

Lemma grows_next_steps output_file : grows (next_steps output_file).
Proof. unfold next_steps. auto 20 with grows. Qed.

Lemma write_outcome output_file combined st :
  exists st',
    try_except
      (open_write w output_file ;;;
       file_write w output_file combined ;;;
       next_steps output_file)
      (fun e => print (txt "[ERROR] Could not write to file: "
                         ++ str_exn e)) st
    = (st', Ok tt) /\
    extends st st' /\
    (open_fault w output_file = None ->
     write_fault w output_file [] combined = None ->
     disk_lookup (disk st') output_file = Some combined).
Proof.
  unfold try_except, bindM, open_write.
  destruct (open_fault w output_file) as [e|] eqn:Ho.
  - eexists. split; [reflexivity|]. split; [|discriminate].
    now exists [txt "[ERROR] Could not write to file: " ++ str_exn e].
  - cbn [disk_set]. unfold file_write. cbn [disk disk_lookup].
    rewrite text_eqb_refl.
    destruct (write_fault w output_file [] combined) as [e|] eqn:Hw.
    + eexists. split; [reflexivity|]. split; [|discriminate].
      now exists [txt "[ERROR] Could not write to file: " ++ str_exn e].
    + cbn [disk_set app]. unfold next_steps, bindM. cbn [print].
      eexists. split; [reflexivity|]. split.
      * cbn. rewrite <- !app_assoc. now eexists.
      * intros _ _. cbn. now rewrite text_eqb_refl.
Qed.

Lemma combine_markdown_files_empty input_folder output_file st :
  md_files_of input_folder = [] ->
  combine_markdown_files w input_folder output_file st
  = (fst (print (no_input_line input_folder) st), Ok tt).
Proof.
  unfold md_files_of, combine_markdown_files. intros H.
  apply (proj1 (sort_nil_iff _)) in H. now rewrite H.
Qed.

Lemma combine_markdown_files_outcome input_folder output_file st :
  md_files_of input_folder <> [] ->
  exists st',
    combine_markdown_files w input_folder output_file st = (st', Ok tt) /\
    extends st st' /\
    (open_fault w output_file = None ->
     write_fault w output_file [] (combined_text input_folder) = None ->
     disk_lookup (disk st') output_file
     = Some (combined_text input_folder)) /\
    forall md_file e,
      In md_file (md_files_of input_folder) ->
      read_file w md_file = Raise e ->
      In (could_not_process md_file e) (console st').
Proof.
  unfold combined_text, md_files_of, combine_markdown_files. intros Hne.
  destruct (glob_ext input_folder (txt ".md") (listdir w input_folder))
    as [|f0 fs] eqn:Eg; [now contradiction Hne|].
  set (files := sort (f0 :: fs)) in *.
  unfold bindM at 1. cbn [print].
  unfold bindM at 1. rewrite for_each_print.
  match goal with
  | |- context [bindM (combine_loop w ?t ?i ?l ?c) ?k ?s] =>
      destruct (combine_loop_outcome t l i c s)
        as (st2 & H2 & Hd2 & He2 & Hr2);
      unfold bindM at 1; rewrite H2
  end.
  destruct (write_outcome output_file
              (combined_header ++ concat (sections (length files) 0 files))
              st2) as (st3 & H3 & He3 & Hw3).
  rewrite H3. exists st3.
  split; [reflexivity|]. split; [|split; [exact Hw3|]].
  - eapply extends_trans; [|exact He3].
    eapply extends_trans; [|exact He2].
    cbn. rewrite <- app_assoc. now eexists.
  - intros md_file e Hin Hr. eapply extends_In; [exact He3|].
    now apply (Hr2 md_file).
Qed.

Lemma nth_error_sections total md_files : forall first index md_file,
  nth_error md_files index = Some md_file ->
  nth_error (sections total first md_files) index
  = Some (section_of total (first + index) md_file).
Proof.
  induction md_files as [|f rest IH]; intros first [|index] md_file H;
    try discriminate.
  - injection H as <-. cbn. now rewrite Nat.add_0_r.
  - cbn [sections nth_error] in *. rewrite (IH (S first) index md_file H).
    do 2 f_equal. lia.
Qed.

Lemma occurs_in_error_block filename e :
  occurs_in filename (error_block filename e).
Proof.
  unfold error_block. exists (NL2 ++ txt "## Error processing "). eexists.
  rewrite <- !app_assoc. reflexivity.
Qed.


(** *** Splitting the combined text *)

Definition readable (md_file : text) : bool :=
  match read_file w md_file with Ok _ => true | Raise _ => false end.

(** The heading and content of a file. *)
Definition module_body (md_file : text) : text :=
  match read_file w md_file with
  | Ok raw => module_heading w (basename md_file) ++ strip raw
  | Raise e => error_block (basename md_file) e
  end.

(** The parts of the combined text, one per file: the first begins with
    the title of the document. *)
Definition module_segments (md_files : list text) : list text :=
  match map module_body md_files with
  | [] => []
  | body :: bodies => (combined_header ++ body) :: bodies
  end.

Lemma sections_join md_files : forall index,
  md_files <> [] ->
  forallb readable md_files = true ->
  concat (sections (index + length md_files) index md_files)
  = join page_break (map module_body md_files).
Proof.
  induction md_files as [|f rest IH]; intros index Hne Hr;
    [contradiction|].
  cbn [forallb] in Hr. apply andb_true_iff in Hr as [Hf Hrest].
  cbn [sections concat map]. unfold section_of, module_body at 1.
  unfold readable in Hf.
  destruct (read_file w f) as [raw|e]; [|discriminate].
  destruct rest as [|f' rest'].
  - cbn [length sections concat map join].
    replace (index <? index + 1 - 1) with false
      by (symmetry; apply Nat.ltb_ge; lia).
    now rewrite !app_nil_r.
  - replace (index <? index + length (f :: f' :: rest') - 1) with true
      by (symmetry; apply Nat.ltb_lt; cbn [length]; lia).
    replace (index + length (f :: f' :: rest'))
      with (S index + length (f' :: rest')) by (cbn [length]; lia).
    rewrite IH by (assumption || discriminate).
    cbn [map join]. now rewrite <- !app_assoc.
Qed.

Lemma join_header sep header body bodies :
  header ++ join sep (body :: bodies)
  = join sep ((header ++ body) :: bodies).
Proof.
  destruct bodies; cbn [join]; [reflexivity|].
  now rewrite <- app_assoc.
Qed.

Lemma combined_text_join input_folder :
  md_files_of input_folder <> [] ->
  forallb readable (md_files_of input_folder) = true ->
  combined_text input_folder
  = join page_break (module_segments (md_files_of input_folder)).
Proof.
  intros Hne Hr. unfold combined_text, module_segments.
  pose proof (sections_join 0 Hne Hr) as E. cbn [Nat.add] in E.
  rewrite E. clear E.
  destruct (md_files_of input_folder) as [|f rest]; [contradiction|].
  cbn [map]. apply join_header.
Qed.

Lemma module_segments_length md_files :
  length (module_segments md_files) = length md_files.
Proof.
  unfold module_segments. destruct md_files; cbn; [reflexivity|].
  now rewrite length_map.
Qed.

(** C3 (amended).  When the folder holds Markdown files, all of them can
    be read, and the page-break marker occurs in the combined text only
    where the combiner put it, the combined text written to the output
    file splits on the marker into exactly one segment per file: the
    heading and content of each file (the first one after the title of
    the document), in the lexicographic order of the file names. *)
Theorem combine_split_segments (input_folder output_file : text)
  (st : state) :
  let names := matching (txt ".md") (listdir w input_folder) in
  let md_files := md_files_of input_folder in
  names <> [] ->
  forallb no_slash names = true ->
  forallb readable md_files = true ->
  segments_clean page_break (module_segments md_files) = true ->
  open_fault w output_file = None ->
  write_fault w output_file [] (combined_text input_folder) = None ->
  exists st',
    combine_markdown_files w input_folder output_file st = (st', Ok tt) /\
    disk_lookup (disk st') output_file
    = Some (combined_text input_folder) /\
    split page_break (combined_text input_folder)
    = Ok (module_segments md_files) /\
    length (module_segments md_files) = length names /\
    map basename md_files = sort names /\
    StronglySorted text_le (map basename md_files).
Proof.
  intros names md_files Hne Hslash Hread Hclean Hopen Hwrite.
  destruct (sort_glob_names input_folder (txt ".md")
              (listdir w input_folder) Hslash) as [Hsort Hbase].
  fold (md_files_of input_folder) in Hsort, Hbase.
  fold md_files names in Hsort, Hbase.
  assert (Hlen : length md_files = length names).
  { rewrite <- (length_map basename), Hbase. apply sort_length. }
  assert (Hne' : md_files <> []).
  { intros E. rewrite E in Hlen. destruct names; [now apply Hne|].
    discriminate. }
  destruct (combine_markdown_files_outcome input_folder output_file st
              Hne') as (st' & Hrun & _ & Hw & _).
  exists st'. split; [exact Hrun|]. split; [now apply Hw|].
  split; [|split; [|split]].
  - rewrite (combined_text_join _ Hne' Hread). apply split_join.
    + discriminate.
    + intros E. apply (f_equal (@length _)) in E.
      rewrite module_segments_length in E. fold md_files in E.
      destruct md_files; [now apply Hne'|discriminate].
    + exact Hclean.
  - now rewrite module_segments_length.
  - exact Hbase.
  - rewrite Hbase. apply sort_sorted.
Qed.

End Combine.

(** A folder with three documents, the second of which cannot be read,
    and an entry that is not a document. *)
Definition docs_world : world :=
  make_world
    [ (txt "crud_docs/user_crud_doc.md",
       txt "# Documentation for user_crud.py" ++ NL2
         ++ txt "## Function: `get`" ++ NL2 ++ txt "Reads a user." ++ NL2
         ++ txt "---" ++ NL2);
      (txt "crud_docs/item_doc.md",
       txt "# Documentation for item.py" ++ NL2) ]
    [ txt "user_crud_doc.md"; txt "notes.txt"; txt "order_doc.md";
      txt "item_doc.md" ]
    no_parser (constant_service []).

Definition order_error : exn :=
  FileNotFoundError
    (txt "[Errno 2] No such file or directory: crud_docs/order_doc.md").

(** A folder with two documents. *)
Definition two_docs_world : world :=
  make_world
    [ (txt "crud_docs/user_crud_doc.md",
       txt "# Documentation for user_crud.py" ++ NL2
         ++ txt "## Function: `get`" ++ NL2 ++ txt "Reads a user." ++ NL2
         ++ txt "---" ++ NL2);
      (txt "crud_docs/item_doc.md",
       txt "# Documentation for item.py" ++ NL2) ]
    [ txt "user_crud_doc.md"; txt "item_doc.md" ]
    no_parser (constant_service []).

(** A folder with one document, whose text shows the page-break marker. *)
Definition marker_world : world :=
  make_world
    [ (txt "crud_docs/a_doc.md",
       txt "Use" ++ page_break ++ txt "between the pages.") ]
    [ txt "a_doc.md" ]
    no_parser (constant_service []).

(** A folder without documents. *)
Definition empty_world : world :=
  make_world [] [txt "notes.txt"] no_parser (constant_service []).



Lemma combine_split_segments_witness :
  exists st',
    combine_markdown_files two_docs_world (txt "crud_docs")
                           (txt "combined.md") initial_state
    = (st', Ok tt) /\
    disk_lookup (disk st') (txt "combined.md")
    = Some (combined_text two_docs_world (txt "crud_docs")) /\
    split page_break (combined_text two_docs_world (txt "crud_docs"))
    = Ok (module_segments two_docs_world
            (md_files_of two_docs_world (txt "crud_docs"))) /\
    length (module_segments two_docs_world
              (md_files_of two_docs_world (txt "crud_docs")))
    = length (matching (txt ".md")
                       (listdir two_docs_world (txt "crud_docs"))) /\
    map basename (md_files_of two_docs_world (txt "crud_docs"))
    = sort (matching (txt ".md")
                     (listdir two_docs_world (txt "crud_docs"))) /\
    StronglySorted text_le
      (map basename (md_files_of two_docs_world (txt "crud_docs"))).
Proof.
  apply (@combine_split_segments two_docs_world (txt "crud_docs")
           (txt "combined.md") initial_state).
  - vm_compute; discriminate.
  - vm_compute; reflexivity.
  - vm_compute; reflexivity.
  - vm_compute; reflexivity.
  - reflexivity.
  - reflexivity.
Defined.

(** C3 as stated fails on a folder whose one document shows the marker in
    its own text: the combined text splits into two segments. *)
Lemma combine_split_counts_marker_in_content :
  exists st' combined segments,
    combine_markdown_files marker_world (txt "crud_docs")
                           (txt "combined.md") initial_state
    = (st', Ok tt) /\
    disk_lookup (disk st') (txt "combined.md") = Some combined /\
    split page_break combined = Ok segments /\
    length segments = 2 /\
    length (glob_ext (txt "crud_docs") (txt ".md")
                     (listdir marker_world (txt "crud_docs"))) = 1.
Proof.
  eexists _, _, _. repeat split; vm_compute; reflexivity.
Qed.

End CombineFacts.

(** ** Titles *)

Module TitleFacts.

Import DocGenerator Examples.

Definition is_ascii (c : codepoint) : bool := (c <? 128)%N.

(** A database that treats the ASCII range as Unicode does: the letters
    are the cased characters, and the case mappings are those of the
    letters. *)
Definition ascii_db (db : UnicodeDB) : Prop :=
  forall c, is_ascii c = true ->
    is_cased db c = is_ascii_alpha c /\
    to_lower_full db c = [ascii_lower c] /\
    to_title_full db c = [ascii_upper c].

(** [do_title] on ASCII text. *)
Fixpoint title_ascii (previous_is_cased : bool) (s : text) : text :=
  match s with
  | [] => []
  | c :: s' =>
      (if previous_is_cased then ascii_lower c else ascii_upper c)
      :: title_ascii (is_ascii_alpha c) s'
  end.

Ltac cases :=
  intros;
  unfold ascii_lower, ascii_upper, is_ascii_alpha, is_ascii_upper,
    is_ascii_lower, is_ascii, cp_eqb in *;
  repeat match goal with
         | |- context [(?a <=? ?b)%N] => destruct (N.leb_spec a b)
         | |- context [(?a <? ?b)%N] => destruct (N.ltb_spec a b)
         | |- context [(?a =? ?b)%N] => destruct (N.eqb_spec a b)
         | H : context [(?a <=? ?b)%N] |- _ => destruct (N.leb_spec a b)
         | H : context [(?a <? ?b)%N] |- _ => destruct (N.ltb_spec a b)
         | H : context [(?a =? ?b)%N] |- _ => destruct (N.eqb_spec a b)
         end;
  cbn in *; try discriminate; try reflexivity; try lia.

Definition case_of (p : bool) (c : codepoint) : codepoint :=
  if p then ascii_lower c else ascii_upper c.

Lemma case_of_ascii p c : is_ascii c = true -> is_ascii (case_of p c) = true.
Proof. unfold case_of. destruct p; cases. Qed.

Lemma case_of_alpha p c : is_ascii_alpha (case_of p c) = is_ascii_alpha c.
Proof. unfold case_of. destruct p; cases. Qed.

Lemma case_of_idem p c : case_of p (case_of p c) = case_of p c.
Proof. unfold case_of. destruct p; cases. Qed.

Lemma case_of_not_underscore p c :
  cp_eqb 95%N c = false -> cp_eqb 95%N (case_of p c) = false.
Proof. unfold case_of. destruct p; cases. Qed.

Lemma case_of_dot p c :
  cp_eqb 46%N (case_of p c) = true -> is_ascii_alpha c = false.
Proof. unfold case_of. destruct p; cases. Qed.

Lemma upper_not_m c : cp_eqb 109%N (ascii_upper c) = false.
Proof. cases. Qed.

Lemma title_ascii_cons p c s :
  title_ascii p (c :: s) = case_of p c :: title_ascii (is_ascii_alpha c) s.
Proof. reflexivity. Qed.

Lemma do_title_ascii db s : forall before p,
  ascii_db db -> forallb is_ascii s = true ->
  do_title db before p s = title_ascii p s.
Proof.
  induction s as [|c s IH]; intros before p Hdb Hs; [reflexivity|].
  cbn [forallb] in Hs. apply andb_true_iff in Hs as [Hc Hs].
  destruct (Hdb c Hc) as (Hcased & Hlower & Htitle).
  cbn [do_title title_ascii]. rewrite Hcased, (IH _ _ Hdb Hs).
  unfold lower_ucs4.
  assert (E : (c =? 931)%N = false) by (clear - Hc; cases).
  rewrite E, Hlower, Htitle. now destruct p.
Qed.

Lemma title_ascii_is_ascii s : forall p,
  forallb is_ascii s = true -> forallb is_ascii (title_ascii p s) = true.
Proof.
  induction s as [|c s IH]; intros p Hs; [reflexivity|].
  cbn [forallb] in Hs. apply andb_true_iff in Hs as [Hc Hs].
  rewrite title_ascii_cons. cbn [forallb].
  now rewrite case_of_ascii, IH.
Qed.

Lemma title_ascii_idem s : forall p,
  title_ascii p (title_ascii p s) = title_ascii p s.
Proof.
  induction s as [|c s IH]; intros p; [reflexivity|].
  rewrite !title_ascii_cons, case_of_idem, case_of_alpha. now rewrite IH.
Qed.

(** *** Replacement *)

Lemma forallb_replace_from (P : codepoint -> bool) old new s : forall skip,
  forallb P new = true -> forallb P s = true ->
  forallb P (replace_from old new skip s) = true.
Proof.
  induction s as [|c s IH]; intros skip Hn Hs; [reflexivity|].
  cbn [forallb] in Hs. apply andb_true_iff in Hs as [Hc Hs].
  cbn [replace_from]. destruct skip as [|k]; [|now apply IH].
  destruct (startswith old (c :: s)).
  - rewrite forallb_app, Hn. now apply IH.
  - cbn [forallb]. rewrite Hc. now apply IH.
Qed.

Lemma forallb_replace (P : codepoint -> bool) old new s :
  old <> [] -> forallb P new = true -> forallb P s = true ->
  forallb P (replace old new s) = true.
Proof.
  intros Ho Hn Hs. unfold replace. destruct old; [contradiction|].
  now apply forallb_replace_from.
Qed.

(** [old] starts at no position of [s]. *)
Fixpoint never_starts (old s : text) : bool :=
  match s with
  | [] => true
  | _ :: s' => negb (startswith old s) && never_starts old s'
  end.

Lemma replace_never_starts old new s :
  old <> [] -> never_starts old s = true -> replace old new s = s.
Proof.
  intros Ho. unfold replace. destruct old as [|o old]; [contradiction|].
  induction s as [|c s IH]; intros H; [reflexivity|].
  cbn [never_starts] in H. apply andb_true_iff in H as [H0 H].
  apply negb_true_iff in H0. cbn [replace_from]. rewrite H0.
  now rewrite IH.
Qed.

Definition not_underscore (c : codepoint) : bool := negb (cp_eqb 95%N c).

Lemma underscores_replaced s : forall skip,
  forallb not_underscore (replace_from (txt "_") (txt " ") skip s) = true.
Proof.
  induction s as [|c s IH]; intros skip; [reflexivity|].
  cbn [replace_from]. destruct skip as [|k]; [|apply IH].
  destruct (startswith (txt "_") (c :: s)) eqn:E.
  - rewrite forallb_app, IH. reflexivity.
  - cbn [forallb]. rewrite IH, andb_true_r.
    unfold not_underscore. apply negb_true_iff.
    cbn in E. now rewrite andb_true_r in E.
Qed.

Lemma never_starts_underscore s :
  forallb not_underscore s = true -> never_starts (txt "_") s = true.
Proof.
  induction s as [|c s IH]; intros H; [reflexivity|].
  cbn [forallb] in H. apply andb_true_iff in H as [Hc H].
  cbn [never_starts]. rewrite (IH H), andb_true_r.
  unfold not_underscore in Hc. cbn. now rewrite andb_true_r.
Qed.

Lemma title_ascii_not_underscore s : forall p,
  forallb not_underscore s = true ->
  forallb not_underscore (title_ascii p s) = true.
Proof.
  induction s as [|c s IH]; intros p H; [reflexivity|].
  cbn [forallb] in H. apply andb_true_iff in H as [Hc H].
  rewrite title_ascii_cons. cbn [forallb]. rewrite (IH _ H), andb_true_r.
  unfold not_underscore in *. apply negb_true_iff.
  apply case_of_not_underscore. now apply negb_true_iff.
Qed.

(** After a dot a title has a capital or a character that is not a
    letter, never the [m] of [.md]. *)
Lemma title_ascii_no_md_here s p :
  startswith (txt ".md") (title_ascii p s) = false.
Proof.
  destruct s as [|c [|c' s]]; try reflexivity.
  - cbn. now rewrite andb_false_r.
  - rewrite !title_ascii_cons.
    change (txt ".md") with [46%N; 109%N; 100%N]. cbn [startswith].
    destruct (cp_eqb 46%N (case_of p c)) eqn:E; [|reflexivity].
    apply case_of_dot in E. rewrite E. unfold case_of.
    now rewrite upper_not_m.
Qed.

Lemma title_ascii_never_md s : forall p,
  never_starts (txt ".md") (title_ascii p s) = true.
Proof.
  induction s as [|c s IH]; intros p; [reflexivity|].
  pose proof (title_ascii_no_md_here (c :: s) p) as H.
  rewrite title_ascii_cons in *. cbn [never_starts].
  now rewrite H, IH.
Qed.

Section Idempotent.

Variable w : world.
Hypothesis Hdb : ascii_db (unicode_db w).

Lemma derive_title_ascii filename :
  forallb is_ascii filename = true ->
  derive_title w filename
  = title_ascii false
      (replace (txt ".md") [] (replace (txt "_") (txt " ") filename)).
Proof.
  intros H. unfold derive_title, title. apply do_title_ascii; [exact Hdb|].
  apply forallb_replace; [discriminate|reflexivity|].
  apply forallb_replace; [discriminate|reflexivity|exact H].
Qed.

Lemma derive_title_fixed s :
  forallb is_ascii s = true ->
  forallb not_underscore s = true ->
  derive_title w (title_ascii false s) = title_ascii false s.
Proof.
  intros Ha Hu.
  rewrite derive_title_ascii by now apply title_ascii_is_ascii.
  rewrite (@replace_never_starts (txt "_"));
    [|discriminate
     |now apply never_starts_underscore, title_ascii_not_underscore].
  rewrite replace_never_starts;
    [|discriminate|apply title_ascii_never_md].
  apply title_ascii_idem.
Qed.

End Idempotent.

(** C8 (amended).  On a file name made of ASCII characters, deriving the
    title of a derived title gives the same title again. *)
Theorem derive_title_idempotent_ascii (w : world) (filename : text) :
  ascii_db (unicode_db w) ->
  forallb is_ascii filename = true ->
  derive_title w (derive_title w filename) = derive_title w filename.
Proof.
  intros Hdb H. rewrite (@derive_title_ascii w Hdb filename H).
  apply (@derive_title_fixed w Hdb).
  - apply forallb_replace; [discriminate|reflexivity|].
    apply forallb_replace; [discriminate|reflexivity|exact H].
  - apply forallb_replace; [discriminate|reflexivity|].
    unfold replace. cbn [txt map list_ascii_of_string].
    apply underscores_replaced.
Qed.

Lemma ucd_fragment_ascii : ascii_db ucd_fragment.
Proof.
  intros c Hc. unfold ucd_fragment. cbn [is_cased to_lower_full to_title_full].
  assert (E : (c =? 304)%N = false) by (clear - Hc; cases).
  rewrite E, orb_false_r. now repeat split.
Qed.

Definition title_world : world := make_world [] [] no_parser failing_service.

Lemma derive_title_idempotent_ascii_witness :
  derive_title title_world (derive_title title_world (txt "user_crud_doc.md"))
  = derive_title title_world (txt "user_crud_doc.md").
Proof.
  apply (@derive_title_idempotent_ascii title_world (txt "user_crud_doc.md")).
  - exact ucd_fragment_ascii.
  - vm_compute; reflexivity.
Defined.

(** The file name [aİb.md], with a capital I with dot above (U+0130)
    between two letters. *)
Definition dotted_name : text := [97%N; 304%N; 98%N] ++ txt ".md".

(** C8 as stated fails on that name: the first title lower-cases U+0130
    to an [i] and a combining dot (U+0307), after which the second pass
    takes the [b] for the start of a word. *)
Lemma derive_title_not_idempotent :
  derive_title title_world dotted_name = [65%N; 105%N; 775%N; 98%N] /\
  derive_title title_world (derive_title title_world dotted_name)
  = [65%N; 105%N; 775%N; 66%N] /\
  derive_title title_world (derive_title title_world dotted_name)
  <> derive_title title_world dotted_name.
Proof. repeat split; vm_compute; congruence. Qed.

End TitleFacts.

(* ===================================================================== *)
(** * Further properties of the code *)
(* ===================================================================== *)

(** ** The order of extraction *)

Module WalkOrder.

Import Parser ParserFacts.

Lemma walk_queue_cons n todo :
  walk_queue (n :: todo) = n :: walk_queue (todo ++ children n).
Proof. now simp walk_queue. Qed.

(** The walk yields the queued nodes first, in their order, and goes on
    with their children. *)
Lemma walk_queue_app first : forall rest,
  walk_queue (first ++ rest)
  = first ++ walk_queue (rest ++ flat_map children first).
Proof.
  induction first as [|n first IH]; intros rest.
  - cbn [app flat_map]. now rewrite app_nil_r.
  - cbn [app flat_map]. rewrite walk_queue_cons, <- app_assoc, IH.
    now rewrite <- app_assoc.
Qed.

Lemma walk_queue_level todo :
  walk_queue todo = todo ++ walk_queue (flat_map children todo).
Proof.
  pose proof (walk_queue_app todo []) as H.
  now rewrite app_nil_r in H.
Qed.

(** The nodes at depth [d] below the queued nodes, from left to right. *)
Fixpoint level (d : nat) (todo : list node) : list node :=
  match d with
  | O => todo
  | S d' => level d' (flat_map children todo)
  end.

Lemma walk_queue_levels d : forall todo,
  walk_queue todo
  = concat (map (fun k => level k todo) (seq 0 d))
      ++ walk_queue (level d todo).
Proof.
  induction d as [|d IH]; intros todo.
  - reflexivity.
  - rewrite walk_queue_level. rewrite (IH (flat_map children todo)).
    cbn [seq map concat level]. rewrite <- app_assoc. do 2 f_equal.
    rewrite <- seq_shift, map_map. reflexivity.
Qed.

Section Order.

Variable read : text -> result text.
Variable parse : text -> refusal + node.

(** X1.  The records come in the order of [ast.walk], breadth first over
    the syntax tree: for a file that parses, the [def]s at depth [k] of the
    tree are extracted, in the order in which the tree lists them, before
    those at depth [k + 1].  The depth is that of the node in the tree, not
    the nesting of definitions: a [def] in the body of a class or of a
    function, and as well one in an [if] or [try] block at the top of the
    module, lies deeper than a [def] that is a statement of the module
    itself, and comes after it wherever it stands in the file. *)
Theorem extract_level_order (filepath source : text) (tree : node)
  (depth : nat) :
  read filepath = Ok source ->
  parse source = inr tree ->
  extract_functions_and_docs read parse filepath
  = mapM (unit_of read filepath)
      (concat (map (fun k => filter is_FunctionDef (level k [tree]))
                   (seq 0 depth))
         ++ filter is_FunctionDef (walk_queue (level depth [tree]))).
Proof.
  intros Hr Hp.
  rewrite (@extract_unfold read parse filepath source tree Hr Hp). f_equal.
  unfold walk. rewrite (walk_queue_levels depth [tree]).
  rewrite filter_app. f_equal.
  induction (seq 0 depth) as [|k ks IH]; [reflexivity|].
  cbn [map concat]. now rewrite filter_app, IH.
Qed.

End Order.

(** A module with a class holding a method, followed by a function. *)
Definition nested_first_source : text :=
  txt "class A:" ++ NL
  ++ txt "    def inner(self):" ++ NL
  ++ txt "        pass" ++ NL
  ++ txt "def outer():" ++ NL
  ++ txt "    pass" ++ NL.

Definition nested_first_tree : node :=
  Node ModuleNode [] None ParserExamples.no_position
    [ Node ClassDef (txt "A") None (ParserExamples.span 1 0 3 12)
        [ Node FunctionDef (txt "inner") None (ParserExamples.span 2 4 3 12)
            (ParserExamples.method_children 2 14) ];
      Node FunctionDef (txt "outer") None (ParserExamples.span 4 0 5 8)
        [ Node OtherNode [] None ParserExamples.no_position [];
          ParserExamples.leaf (ParserExamples.span 5 4 5 8) ] ].

(** A module that opens with a [try] block holding a function, followed
    by a class with a method and by a function. *)
Definition guarded_first_source : text :=
  txt "try:" ++ NL
  ++ txt "    import x" ++ NL
  ++ txt "except ImportError:" ++ NL
  ++ txt "    def foo():" ++ NL
  ++ txt "        pass" ++ NL
  ++ txt "class C:" ++ NL
  ++ txt "    def m(self):" ++ NL
  ++ txt "        pass" ++ NL
  ++ txt "def top():" ++ NL
  ++ txt "    pass" ++ NL.

Definition guarded_first_tree : node :=
  Node ModuleNode [] None ParserExamples.no_position
    [ Node OtherNode [] None (ParserExamples.span 1 0 5 12)
        [ ParserExamples.leaf (ParserExamples.span 2 4 2 12);
          Node OtherNode [] None (ParserExamples.span 3 0 5 12)
            [ ParserExamples.leaf (ParserExamples.span 3 7 3 18);
              Node FunctionDef (txt "foo") None (ParserExamples.span 4 4 5 12)
                [ Node OtherNode [] None ParserExamples.no_position [];
                  ParserExamples.leaf (ParserExamples.span 5 8 5 12) ] ] ];
      Node ClassDef (txt "C") None (ParserExamples.span 6 0 8 12)
        [ Node FunctionDef (txt "m") None (ParserExamples.span 7 4 8 12)
            (ParserExamples.method_children 7 10) ];
      Node FunctionDef (txt "top") None (ParserExamples.span 9 0 10 8)
        [ Node OtherNode [] None ParserExamples.no_position [];
          ParserExamples.leaf (ParserExamples.span 10 4 10 8) ] ].

Lemma extract_level_order_witness :
  extract_functions_and_docs
    (fun _ => Ok guarded_first_source) (fun _ => inr guarded_first_tree)
    (txt "crud/n.py")
  = Ok [ {| unit_name := txt "top"; unit_docstring := [];
            unit_code := Some (txt "def top():" ++ NL ++ txt "    pass") |};
         {| unit_name := txt "m"; unit_docstring := [];
            unit_code := Some (txt "def m(self):" ++ NL
                                 ++ txt "        pass") |};
         {| unit_name := txt "foo"; unit_docstring := [];
            unit_code := Some (txt "def foo():" ++ NL
                                 ++ txt "        pass") |} ].
Proof.
  rewrite (@extract_level_order (fun _ => Ok guarded_first_source)
             (fun _ => inr guarded_first_tree) (txt "crud/n.py")
             guarded_first_source guarded_first_tree 4);
    [|reflexivity|reflexivity].
  vm_compute. reflexivity.
Defined.

End WalkOrder.

(** ** Stripping *)

Lemma lstrip_cases s :
  lstrip s = [] \/ exists c t, lstrip s = c :: t /\ is_space c = false.
Proof.
  induction s as [|c s IH]; [now left|]. cbn [lstrip].
  destruct (is_space c) eqn:E; [exact IH|]. right. now exists c, s.
Qed.

Lemma lstrip_fixed c s : is_space c = false -> lstrip (c :: s) = c :: s.
Proof. intros H. cbn [lstrip]. now rewrite H. Qed.

Lemma lstrip_idem s : lstrip (lstrip s) = lstrip s.
Proof.
  destruct (lstrip_cases s) as [E|(c & t & E & Hc)]; rewrite E;
    [reflexivity|]. now apply lstrip_fixed.
Qed.

Lemma lstrip_snoc s c :
  is_space c = false -> exists t, lstrip (s ++ [c]) = t ++ [c].
Proof.
  intros Hc. induction s as [|d s IH]; cbn [app lstrip].
  - rewrite Hc. now exists [].
  - destruct (is_space d); [exact IH|]. now exists (d :: s).
Qed.

Lemma rstrip_head c s :
  is_space c = false -> exists t, rstrip (c :: s) = c :: t.
Proof.
  intros Hc. unfold rstrip. cbn [rev].
  destruct (@lstrip_snoc (rev s) c Hc) as [t ->].
  exists (rev t). now rewrite rev_app_distr.
Qed.

Lemma rstrip_idem s : rstrip (rstrip s) = rstrip s.
Proof. unfold rstrip. now rewrite rev_involutive, lstrip_idem. Qed.

Lemma strip_idem s : strip (strip s) = strip s.
Proof.
  unfold strip.
  destruct (lstrip_cases s) as [E|(c & t & E & Hc)]; rewrite E.
  - reflexivity.
  - destruct (@rstrip_head c t Hc) as [t' E']. rewrite E'.
    rewrite (@lstrip_fixed c t' Hc), <- E'. apply rstrip_idem.
Qed.

(** A text that neither begins nor ends with white space. *)
Definition stripped (s : text) : Prop :=
  s = [] \/ (is_space (hd 0%N s) = false /\ is_space (last s 0%N) = false).

Lemma strip_stripped s : stripped (strip s).
Proof.
  unfold strip, stripped.
  destruct (lstrip_cases s) as [E|(c & t & E & Hc)]; rewrite E;
    [now left|].
  destruct (@rstrip_head c t Hc) as [t' E']. rewrite E'. right.
  split; [exact Hc|]. rewrite <- E'. unfold rstrip.
  destruct (lstrip_cases (rev (c :: t))) as [E2|(d & u & E2 & Hd)].
  - unfold rstrip in E'. rewrite E2 in E'. discriminate.
  - rewrite E2. cbn [rev]. now rewrite last_last.
Qed.

(** ** Replacement of a suffix *)

Lemma replace_from_skip old new x : forall rest,
  replace_from old new (length x) (x ++ rest) = replace_from old new 0 rest.
Proof.
  induction x as [|c x IH]; intros rest; [reflexivity|]. apply IH.
Qed.

(** A segment in which [old] starts nowhere, followed by [old]: the
    segment stays and [old] is replaced. *)
Lemma replace_segment old new seg : forall rest,
  old <> [] -> clean old seg = true ->
  replace old new (seg ++ old ++ rest)
  = seg ++ new ++ replace old new rest.
Proof.
  intros rest Ho. unfold replace. destruct old as [|o old]; [contradiction|].
  revert rest. induction seg as [|c seg IH]; intros rest Hc.
  - cbn [app replace_from].
    change (o :: old ++ rest) with ((o :: old) ++ rest).
    rewrite startswith_app.
    replace (length (o :: old) - 1) with (length old) by (simpl; lia).
    now rewrite replace_from_skip.
  - apply clean_cons in Hc as [H0 Hc].
    change ((c :: seg) ++ (o :: old) ++ rest)
      with (c :: (seg ++ (o :: old) ++ rest)).
    cbn [replace_from].
    replace (c :: seg ++ (o :: old) ++ rest)
      with (((c :: seg) ++ o :: old) ++ rest)
      by (now rewrite <- app_assoc).
    rewrite startswith_long, H0 by (rewrite length_app; lia).
    now rewrite IH.
Qed.

Lemma replace_suffix old seg :
  old <> [] -> clean old seg = true -> replace old [] (seg ++ old) = seg.
Proof.
  intros Ho Hc. pose proof (@replace_segment old [] seg [] Ho Hc) as H.
  rewrite !app_nil_r in H. rewrite H. unfold replace.
  destruct old; [contradiction|]. cbn. now rewrite app_nil_r.
Qed.

(** ** Running statements *)

Lemma bindM_Ok {A B} (m : M A) (k : A -> M B) st st1 a :
  m st = (st1, Ok a) -> bindM m k st = k a st1.
Proof. intros H. unfold bindM. now rewrite H. Qed.

Lemma bindM_Raise {A B} (m : M A) (k : A -> M B) st st1 e :
  m st = (st1, Raise e) -> bindM m k st = (st1, Raise e).
Proof. intros H. unfold bindM. now rewrite H. Qed.

Lemma for_each_app {A} (body : A -> M unit) (l1 l2 : list A) : forall st,
  for_each body (l1 ++ l2) st
  = match for_each body l1 st with
    | (st1, Ok _) => for_each body l2 st1
    | (st1, Raise e) => (st1, Raise e)
    end.
Proof.
  induction l1 as [|x l1 IH]; intros st; [reflexivity|].
  cbn [app for_each]. unfold bindM.
  destruct (body x st) as [st1 [[]|e]]; [apply IH|reflexivity].
Qed.

Lemma disk_lookup_same path content d :
  disk_lookup ((path, content) :: d) path = Some content.
Proof. cbn. now rewrite text_eqb_refl. Qed.

Lemma disk_lookup_other path path' content d :
  path <> path' ->
  disk_lookup ((path, content) :: d) path' = disk_lookup d path'.
Proof.
  intros H. cbn. destruct (text_eqb path path') eqn:E; [|reflexivity].
  apply text_eqb_eq in E. contradiction.
Qed.

(** A statement that leaves alone every file outside [P]. *)
Definition writes_only {A} (P : text -> Prop) (m : M A) : Prop :=
  forall st path,
    ~ P path ->
    disk_lookup (disk (fst (m st))) path = disk_lookup (disk st) path.

Lemma writes_only_ret {A} P (a : A) : writes_only P (ret a).
Proof. now intros st path _. Qed.

Lemma writes_only_raise {A} P e : writes_only P (@raise A e).
Proof. now intros st path _. Qed.

Lemma writes_only_lift {A} P (r : result A) : writes_only P (lift r).
Proof. now intros st path _. Qed.

Lemma writes_only_print P line : writes_only P (print line).
Proof. now intros st path _. Qed.

Lemma writes_only_call_service P w prompt :
  writes_only P (call_service w prompt).
Proof. now intros st path _. Qed.

Lemma writes_only_disk_set (P : text -> Prop) path content :
  P path -> writes_only P (disk_set path content).
Proof.
  intros HP st path' Hn. cbn. apply disk_lookup_other.
  intros ->. contradiction.
Qed.

Lemma writes_only_open_write (P : text -> Prop) w path :
  P path -> writes_only P (open_write w path).
Proof.
  intros HP. unfold open_write. destruct (open_fault w path).
  - apply writes_only_raise.
  - now apply writes_only_disk_set.
Qed.

Lemma writes_only_file_write (P : text -> Prop) w path data :
  P path -> writes_only P (file_write w path data).
Proof.
  intros HP st path' Hn. unfold file_write.
  destruct (write_fault w path _ data); [reflexivity|].
  now apply (@writes_only_disk_set P path _ HP st path').
Qed.

Lemma writes_only_bindM {A B} P (m : M A) (k : A -> M B) :
  writes_only P m -> (forall a, writes_only P (k a)) ->
  writes_only P (bindM m k).
Proof.
  intros Hm Hk st path Hn. unfold bindM. specialize (Hm st path Hn).
  destruct (m st) as [st1 [a|e]]; cbn [fst] in *.
  - now rewrite (Hk a st1 path Hn).
  - exact Hm.
Qed.

Lemma writes_only_try_except {A} P (body : M A) (handler : exn -> M A) :
  writes_only P body -> (forall e, writes_only P (handler e)) ->
  writes_only P (try_except body handler).
Proof.
  intros Hb Hh st path Hn. unfold try_except. specialize (Hb st path Hn).
  destruct (body st) as [st1 [a|e]]; cbn [fst] in *.
  - exact Hb.
  - now rewrite (Hh e st1 path Hn).
Qed.

Lemma writes_only_for_each {A} P (body : A -> M unit) (l : list A) :
  (forall x, In x l -> writes_only P (body x)) ->
  writes_only P (for_each body l).
Proof.
  induction l as [|x l IH]; intros Hb; cbn [for_each].
  - apply writes_only_ret.
  - apply writes_only_bindM; [apply Hb; now left|].
    intros _. apply IH. intros y Hy. apply Hb. now right.
Qed.

Lemma writes_only_weaken {A} (P Q : text -> Prop) (m : M A) :
  (forall p, P p -> Q p) -> writes_only P m -> writes_only Q m.
Proof. intros H Hm st path Hn. apply Hm. intros HP. apply Hn, H, HP. Qed.

(** A statement that calls the service at most [n] times. *)
Definition calls_at_most {A} (n : nat) (m : M A) : Prop :=
  forall st, calls st <= calls (fst (m st)) <= calls st + n.

Lemma calls_at_most_weaken {A} n n' (m : M A) :
  n <= n' -> calls_at_most n m -> calls_at_most n' m.
Proof. intros Hn Hm st. specialize (Hm st). lia. Qed.

Lemma calls_at_most_ret {A} (a : A) : calls_at_most 0 (ret a).
Proof. intros st. cbn. lia. Qed.

Lemma calls_at_most_raise {A} e : calls_at_most 0 (@raise A e).
Proof. intros st. cbn. lia. Qed.

Lemma calls_at_most_lift {A} (r : result A) : calls_at_most 0 (lift r).
Proof. intros st. cbn. lia. Qed.

Lemma calls_at_most_print line : calls_at_most 0 (print line).
Proof. intros st. cbn. lia. Qed.

Lemma calls_at_most_call_service w prompt :
  calls_at_most 1 (call_service w prompt).
Proof. intros st. cbn. lia. Qed.

Lemma calls_at_most_open_write w path : calls_at_most 0 (open_write w path).
Proof.
  intros st. unfold open_write. destruct (open_fault w path); cbn; lia.
Qed.

Lemma calls_at_most_file_write w path data :
  calls_at_most 0 (file_write w path data).
Proof.
  intros st. unfold file_write.
  destruct (write_fault w path _ data); cbn; lia.
Qed.

Lemma calls_at_most_bindM {A B} n1 n2 (m : M A) (k : A -> M B) :
  calls_at_most n1 m -> (forall a, calls_at_most n2 (k a)) ->
  calls_at_most (n1 + n2) (bindM m k).
Proof.
  intros Hm Hk st. unfold bindM. specialize (Hm st).
  destruct (m st) as [st1 [a|e]]; cbn [fst] in *; [|lia].
  specialize (Hk a st1). lia.
Qed.

Lemma calls_at_most_try_except {A} n1 n2 (body : M A)
  (handler : exn -> M A) :
  calls_at_most n1 body -> (forall e, calls_at_most n2 (handler e)) ->
  calls_at_most (n1 + n2) (try_except body handler).
Proof.
  intros Hb Hh st. unfold try_except. specialize (Hb st).
  destruct (body st) as [st1 [a|e]]; cbn [fst] in *; [lia|].
  specialize (Hh e st1). lia.
Qed.

Lemma calls_at_most_for_each {A} (cost : A -> nat) (body : A -> M unit)
  (l : list A) :
  (forall x, calls_at_most (cost x) (body x)) ->
  calls_at_most (list_sum (map cost l)) (for_each body l).
Proof.
  intros Hb. induction l as [|x l IH]; cbn [for_each map list_sum].
  - apply calls_at_most_ret.
  - apply calls_at_most_bindM; [apply Hb|]. intros _. exact IH.
Qed.

(** ** The per-file documents *)

Module PipelineFacts.

Import Parser DocGenerator Examples MainFacts.

(** The section written for one function. *)
Definition function_section (name doc : text) : text :=
  txt "## Function: `" ++ name ++ txt "`" ++ NL2
  ++ doc ++ NL2 ++ txt "---" ++ NL2.

(** The first line of a document. *)
Definition document_title (filename : text) : text :=
  txt "# Documentation for " ++ filename ++ txt ".py" ++ NL2.

(** The line printed before a function is sent to the service. *)
Definition progress_line (u : SourceUnit) : text :=
  txt "  Generating docs for function: " ++ unit_name u.

Definition sections_of (units : list SourceUnit) (answers : list text)
  : text :=
  concat (map (fun ua => function_section (unit_name (fst ua))
                                          (strip (snd ua)))
              (combine units answers)).

Section Pipeline.

Variable w : world.

(** What the service answers for the functions of a file, asked one after
    the other from call number [n] on; [None] when a prompt cannot be built
    or a call fails. *)
Fixpoint answers_of (n : nat) (units : list SourceUnit)
  : option (list text) :=
  match units with
  | [] => Some []
  | u :: us =>
      match build_prompt w (unit_code u) with
      | Ok prompt =>
          match generate_content w n prompt with
          | Ok answer =>
              match answers_of (S n) us with
              | Some answers => Some (answer :: answers)
              | None => None
              end
          | Raise _ => None
          end
      | Raise _ => None
      end
  end.

(** Writing to [path] does not fail. *)
Definition writable (path : text) : Prop :=
  forall content data, write_fault w path content data = None.

(** X2.  When the prompt can be built and the service answers,
    [generate_doc] returns the answer without the white space around it:
    the documentation neither begins nor ends with white space, and
    stripping it again changes nothing.  The service has been called once,
    and nothing has been printed or written. *)
Theorem generate_doc_returns_stripped (code_snippet : option text)
  (st : state) (prompt answer : text) :
  build_prompt w code_snippet = Ok prompt ->
  generate_content w (calls st) prompt = Ok answer ->
  exists doc,
    generate_doc w code_snippet st
    = ({| console := console st; disk := disk st; calls := S (calls st) |},
       Ok doc) /\
    doc = strip answer /\ stripped doc /\ strip doc = doc.
Proof.
  intros Hp Hg. exists (strip answer).
  unfold generate_doc, bindM, lift, call_service, ret.
  rewrite Hp. cbn [calls]. rewrite Hg.
  split; [reflexivity|]. split; [reflexivity|].
  split; [apply strip_stripped|apply strip_idem].
Qed.

Lemma file_write_ok path content data st :
  disk_lookup (disk st) path = Some content ->
  writable path ->
  file_write w path data st
  = ({| console := console st; disk := (path, content ++ data) :: disk st;
        calls := calls st |}, Ok tt).
Proof.
  intros Hl Hw. unfold file_write. now rewrite Hl, Hw.
Qed.

Lemma document_function_ok output_file u st content prompt answer :
  disk_lookup (disk st) output_file = Some content ->
  writable output_file ->
  build_prompt w (unit_code u) = Ok prompt ->
  generate_content w (calls st) prompt = Ok answer ->
  exists st',
    document_function w output_file u st = (st', Ok tt) /\
    disk_lookup (disk st') output_file
    = Some (content ++ function_section (unit_name u) (strip answer)) /\
    calls st' = S (calls st) /\
    console st' = console st ++ [progress_line u].
Proof.
  intros Hl Hw Hp Hg.
  unfold document_function, generate_doc, bindM, lift, call_service, ret.
  cbn [print]. rewrite Hp. cbn [calls]. rewrite Hg.
  rewrite (@file_write_ok output_file content) by (assumption || exact Hl).
  rewrite (@file_write_ok output_file
             (content ++ txt "## Function: `" ++ unit_name u ++ txt "`" ++ NL2))
    by (assumption || apply disk_lookup_same).
  eexists. split; [reflexivity|]. split; [|now split].
  cbn [disk]. rewrite disk_lookup_same. f_equal.
  unfold function_section. now rewrite <- !app_assoc.
Qed.

Lemma document_function_fails output_file u st content prompt e :
  disk_lookup (disk st) output_file = Some content ->
  build_prompt w (unit_code u) = Ok prompt ->
  generate_content w (calls st) prompt = Raise e ->
  exists st',
    document_function w output_file u st = (st', Raise e) /\
    disk_lookup (disk st') output_file = Some content /\
    calls st' = S (calls st) /\
    console st' = console st ++ [progress_line u].
Proof.
  intros Hl Hp Hg.
  unfold document_function, generate_doc, bindM, lift, call_service, ret.
  cbn [print]. rewrite Hp. cbn [calls]. rewrite Hg.
  eexists. split; [reflexivity|]. now repeat split.
Qed.

Lemma for_each_document_ok output_file units : forall answers st content,
  disk_lookup (disk st) output_file = Some content ->
  writable output_file ->
  answers_of (calls st) units = Some answers ->
  exists st',
    for_each (document_function w output_file) units st = (st', Ok tt) /\
    disk_lookup (disk st') output_file
    = Some (content ++ sections_of units answers) /\
    calls st' = calls st + length units /\
    console st' = console st ++ map progress_line units.
Proof.
  induction units as [|u units IH]; intros answers st content Hl Hw Ha.
  - injection Ha as <-. exists st. cbn.
    rewrite !app_nil_r, Nat.add_0_r. now repeat split.
  - cbn [answers_of] in Ha.
    destruct (build_prompt w (unit_code u)) as [p|] eqn:Hp; [|discriminate].
    destruct (generate_content w (calls st) p) as [a|] eqn:Hg;
      [|discriminate].
    destruct (answers_of (S (calls st)) units) as [rest|] eqn:Hr;
      [|discriminate].
    injection Ha as <-.
    destruct (@document_function_ok output_file u st content p a Hl Hw Hp Hg)
      as (st1 & H1 & Hd1 & Hc1 & Hk1).
    rewrite <- Hc1 in Hr.
    destruct (IH rest st1 _ Hd1 Hw Hr) as (st' & H' & Hd' & Hc' & Hk').
    exists st'. cbn [for_each]. rewrite (@bindM_Ok _ _ _ _ _ _ _ H1), H'.
    split; [reflexivity|]. split; [|split].
    + rewrite Hd'. unfold sections_of. cbn [combine map concat fst snd].
      now rewrite <- app_assoc.
    + rewrite Hc', Hc1. cbn [length]. lia.
    + rewrite Hk', Hk1. cbn [map]. now rewrite <- app_assoc.
Qed.

Definition stem_of (crud_file : text) : text :=
  replace (txt ".py") [] (basename crud_file).

Definition saved_line (output_file : text) : text :=
  txt "Documentation saved to " ++ output_file.

Definition no_functions_line (crud_file : text) : text :=
  txt "No functions found in " ++ crud_file.

Variable output_path : text.

(** X3.  When a file has functions and nothing fails, the document written
    for it holds the title line and then one section per function, in the
    order of extraction, each with the stripped answer of the service and
    closed by a rule; the service is called exactly once per function, and
    the console shows the file, each function, and where the document was
    saved. *)
Theorem process_file_writes_document (crud_file : text) (st : state)
  (units : list SourceUnit) (answers : list text) :
  extract_functions_and_docs (read_file w) (parse_source w) crud_file
  = Ok units ->
  units <> [] ->
  open_fault w (output_file_of output_path crud_file) = None ->
  writable (output_file_of output_path crud_file) ->
  answers_of (calls st) units = Some answers ->
  exists st',
    process_file w output_path crud_file st = (st', Ok tt) /\
    disk_lookup (disk st') (output_file_of output_path crud_file)
    = Some (document_title (stem_of crud_file) ++ sections_of units answers) /\
    calls st' = calls st + length units /\
    console st'
    = console st ++ processing_line crud_file :: map progress_line units
        ++ [saved_line (output_file_of output_path crud_file)].
Proof.
  intros He Hne Ho Hw Ha.
  rewrite process_file_outcome. unfold attempt, process_body.
  fold (stem_of crud_file). unfold bindM at 1. unfold lift at 1.
  rewrite He. destruct units as [|u0 us] eqn:Eu; [contradiction|].
  rewrite <- Eu in *. unfold bindM at 1. unfold open_write. rewrite Ho.
  cbn [disk_set print fst].
  erewrite bindM_Ok;
    [|apply file_write_ok; [cbn [disk]; apply disk_lookup_same|exact Hw]].
  match goal with
  | |- context [bindM (for_each ?b units) ?k ?s] =>
      destruct (@for_each_document_ok
                  (output_file_of output_path crud_file) units answers s
                  (document_title (stem_of crud_file)))
        as (st1 & H1 & Hd1 & Hc1 & Hk1);
      [apply disk_lookup_same|exact Hw|exact Ha|]
  end.
  rewrite (@bindM_Ok _ _ _ _ _ _ _ H1). cbn [print].
  eexists. split; [reflexivity|]. cbn [disk calls console] in *.
  split; [exact Hd1|]. split; [exact Hc1|].
  rewrite Hk1, <- !app_assoc. reflexivity.
Qed.

(** X4.  When the service fails on one function of a file, the functions
    before it have been documented: the document left on disk holds the
    title line and their sections and stops there, the functions after it
    are not sent to the service, the error is printed with the name of the
    file in place of the line that reports a saved document, and the
    iteration ends normally. *)
Theorem process_file_leaves_partial_document (crud_file : text) (st : state)
  (done : list SourceUnit) (failing : SourceUnit) (pending : list SourceUnit)
  (answers : list text) (prompt : text) (e : exn) :
  extract_functions_and_docs (read_file w) (parse_source w) crud_file
  = Ok (done ++ failing :: pending) ->
  open_fault w (output_file_of output_path crud_file) = None ->
  writable (output_file_of output_path crud_file) ->
  answers_of (calls st) done = Some answers ->
  build_prompt w (unit_code failing) = Ok prompt ->
  generate_content w (calls st + length done) prompt = Raise e ->
  exists st',
    process_file w output_path crud_file st = (st', Ok tt) /\
    disk_lookup (disk st') (output_file_of output_path crud_file)
    = Some (document_title (stem_of crud_file) ++ sections_of done answers) /\
    calls st' = calls st + length done + 1 /\
    console st'
    = console st ++ processing_line crud_file
        :: map progress_line (done ++ [failing])
        ++ [error_line crud_file e].
Proof.
  intros He Ho Hw Ha Hp Hg.
  rewrite process_file_outcome. unfold attempt, process_body.
  fold (stem_of crud_file). unfold bindM at 1. unfold lift at 1.
  rewrite He.
  destruct (done ++ failing :: pending) as [|u0 us] eqn:Eu;
    [now destruct done|].
  rewrite <- Eu in *. clear Eu u0 us.
  unfold bindM at 1. unfold open_write. rewrite Ho.
  cbn [disk_set print fst].
  erewrite bindM_Ok;
    [|apply file_write_ok; [cbn [disk]; apply disk_lookup_same|exact Hw]].
  unfold bindM at 1. rewrite for_each_app.
  match goal with
  | |- context [for_each ?b done ?s] =>
      destruct (@for_each_document_ok
                  (output_file_of output_path crud_file) done answers s
                  (document_title (stem_of crud_file)))
        as (st1 & H1 & Hd1 & Hc1 & Hk1);
      [apply disk_lookup_same|exact Hw|exact Ha|]
  end.
  rewrite H1. cbn [for_each]. cbn [calls console] in Hc1, Hk1.
  rewrite <- Hc1 in Hg.
  destruct (@document_function_fails _ failing st1 _ prompt e Hd1 Hp Hg)
    as (st2 & H2 & Hd2 & Hc2 & Hk2).
  rewrite (@bindM_Raise _ _ _ _ _ _ _ H2). cbn [print fst].
  eexists. split; [reflexivity|]. cbn [disk calls console].
  split; [exact Hd2|]. split; [lia|].
  rewrite Hk2, Hk1, map_app, <- !app_assoc. reflexivity.
Qed.

(** The line that closes the report on a file for which nothing is
    written: the file has no function, or its functions cannot be
    extracted. *)
Definition skipped_line (crud_file : text)
  (r : result (list SourceUnit)) : option text :=
  match r with
  | Ok [] => Some (no_functions_line crud_file)
  | Ok (_ :: _) => None
  | Raise e => Some (error_line crud_file e)
  end.

(** X5.  A source file that cannot be read or parsed, or that holds no
    function, costs nothing: no document is created for it, the service is
    not called, and the console shows two lines, the file being processed
    and the reason why it was left out. *)
Theorem process_file_skips (crud_file : text) (st : state) (line : text) :
  skipped_line crud_file
    (extract_functions_and_docs (read_file w) (parse_source w) crud_file)
  = Some line ->
  process_file w output_path crud_file st
  = ({| console := console st ++ [processing_line crud_file; line];
        disk := disk st; calls := calls st |}, Ok tt).
Proof.
  intros H. rewrite process_file_outcome. unfold attempt, process_body.
  unfold bindM, lift. cbn [print fst].
  destruct (extract_functions_and_docs (read_file w) (parse_source w)
              crud_file) as [[|u us]|e]; cbn in H; try discriminate;
    injection H as <-; cbn [print fst console disk calls];
    now rewrite <- app_assoc.
Qed.

(** The number of functions extracted from a file. *)
Definition functions_in (crud_file : text) : nat :=
  match extract_functions_and_docs (read_file w) (parse_source w)
          crud_file with
  | Ok units => length units
  | Raise _ => 0
  end.

(** The files for which a document is opened. *)
Definition documented (crud_files : list text) (path : text) : Prop :=
  exists crud_file,
    In crud_file crud_files /\ functions_in crud_file <> 0 /\
    path = output_file_of output_path crud_file.

Lemma calls_at_most_document_function output_file u :
  calls_at_most 1 (document_function w output_file u).
Proof.
  unfold document_function, generate_doc.
  change 1 with (0 + (0 + (1 + 0) + (0 + 0))).
  apply calls_at_most_bindM; [apply calls_at_most_print|]. intros _.
  apply calls_at_most_bindM.
  - apply calls_at_most_bindM; [apply calls_at_most_lift|]. intros p.
    apply calls_at_most_bindM; [apply calls_at_most_call_service|].
    intros r. apply calls_at_most_ret.
  - intros doc.
    apply calls_at_most_bindM; [apply calls_at_most_file_write|]. intros _.
    apply calls_at_most_file_write.
Qed.

Lemma list_sum_ones {A} (l : list A) :
  list_sum (map (fun _ => 1) l) = length l.
Proof.
  induction l as [|x l IH]; [reflexivity|].
  simpl. f_equal. exact IH.
Qed.

(** The statements of the [try] block that follow a successful
    extraction of at least one function. *)
Definition write_document (crud_file filename output_file : text)
  (functions : list SourceUnit) : M unit :=
  open_write w output_file ;;;
  file_write w output_file
    (txt "# Documentation for " ++ filename ++ txt ".py" ++ NL2) ;;;
  for_each (document_function w output_file) functions ;;;
  print (txt "Documentation saved to " ++ output_file).

Lemma process_body_unfold crud_file filename output_file st :
  process_body w crud_file filename output_file st
  = match extract_functions_and_docs (read_file w) (parse_source w)
            crud_file with
    | Ok [] => print (no_functions_line crud_file) st
    | Ok (u :: us) =>
        write_document crud_file filename output_file (u :: us) st
    | Raise e => (st, Raise e)
    end.
Proof.
  unfold process_body, bindM at 1, lift.
  destruct (extract_functions_and_docs (read_file w) (parse_source w)
              crud_file) as [[|u us]|e]; reflexivity.
Qed.

Lemma calls_at_most_write_document crud_file filename output_file units :
  calls_at_most (length units)
                (write_document crud_file filename output_file units).
Proof.
  unfold write_document.
  apply calls_at_most_weaken with (n := 0 + (0 + (length units + 0)));
    [lia|].
  apply calls_at_most_bindM; [apply calls_at_most_open_write|]. intros _.
  apply calls_at_most_bindM; [apply calls_at_most_file_write|]. intros _.
  apply calls_at_most_bindM; [|intros _; apply calls_at_most_print].
  eapply calls_at_most_weaken;
    [|apply (@calls_at_most_for_each _ (fun _ => 1));
      intros x; apply calls_at_most_document_function].
  now rewrite list_sum_ones.
Qed.

Lemma calls_at_most_process_body crud_file filename output_file :
  calls_at_most (functions_in crud_file)
                (process_body w crud_file filename output_file).
Proof.
  intros st. rewrite process_body_unfold. unfold functions_in.
  destruct (extract_functions_and_docs (read_file w) (parse_source w)
              crud_file) as [[|u us]|e].
  - cbn. lia.
  - apply calls_at_most_write_document.
  - cbn. lia.
Qed.

Lemma calls_at_most_process_file crud_file :
  calls_at_most (functions_in crud_file)
                (process_file w output_path crud_file).
Proof.
  unfold process_file.
  apply calls_at_most_weaken with (n := 0 + (functions_in crud_file + 0));
    [lia|].
  apply calls_at_most_bindM; [apply calls_at_most_print|]. intros _.
  apply calls_at_most_try_except;
    [apply calls_at_most_process_body|intros e; apply calls_at_most_print].
Qed.

Lemma writes_only_write_document (P : text -> Prop) crud_file filename
  output_file units :
  P output_file ->
  writes_only P (write_document crud_file filename output_file units).
Proof.
  intros Hout. unfold write_document.
  apply writes_only_bindM; [now apply writes_only_open_write|]. intros _.
  apply writes_only_bindM; [now apply writes_only_file_write|]. intros _.
  apply writes_only_bindM; [|intros _; apply writes_only_print].
  apply writes_only_for_each. intros x _. unfold document_function.
  apply writes_only_bindM; [apply writes_only_print|]. intros _.
  apply writes_only_bindM.
  - unfold generate_doc.
    apply writes_only_bindM; [apply writes_only_lift|]. intros p.
    apply writes_only_bindM; [apply writes_only_call_service|]. intros r.
    apply writes_only_ret.
  - intros doc.
    apply writes_only_bindM; [now apply writes_only_file_write|]. intros _.
    now apply writes_only_file_write.
Qed.

Lemma writes_only_process_body (P : text -> Prop) crud_file filename
  output_file :
  (functions_in crud_file <> 0 -> P output_file) ->
  writes_only P (process_body w crud_file filename output_file).
Proof.
  intros HP st path Hn. rewrite process_body_unfold.
  unfold functions_in in HP.
  destruct (extract_functions_and_docs (read_file w) (parse_source w)
              crud_file) as [[|u us]|e]; try reflexivity.
  apply (@writes_only_write_document P crud_file filename output_file
           (u :: us)); [|exact Hn].
  apply HP. discriminate.
Qed.

Lemma writes_only_process_file P crud_file :
  (functions_in crud_file <> 0 -> P (output_file_of output_path crud_file)) ->
  writes_only P (process_file w output_path crud_file).
Proof.
  intros HP. unfold process_file.
  apply writes_only_bindM; [apply writes_only_print|]. intros _.
  apply writes_only_try_except;
    [now apply writes_only_process_body|intros e; apply writes_only_print].
Qed.

Variable crud_path : text.

(** The source files [main] finds. *)
Definition crud_files_of : list text :=
  glob_ext crud_path (txt ".py") (listdir w crud_path).

(** X6.  A run of [main] changes no file other than the documents of the
    source files in which it found a function: the sources are not written
    to, and a source without a function, or one that cannot be read or
    parsed, is given no document, not even an empty one. *)
Theorem main_writes_only_documents (st : state) (path : text) :
  ~ documented crud_files_of path ->
  disk_lookup (disk (fst (main w crud_path output_path st))) path
  = disk_lookup (disk st) path.
Proof.
  revert st path.
  change (writes_only (documented crud_files_of)
                      (main w crud_path output_path)).
  unfold main. fold crud_files_of.
  destruct (makedirs_fault w output_path); [apply writes_only_raise|].
  assert (Hloop : writes_only (documented crud_files_of)
                    (main_loop w output_path crud_files_of)).
  { unfold main_loop. apply writes_only_for_each. intros f Hf.
    apply writes_only_process_file. intros Hn. now exists f. }
  destruct crud_files_of as [|f fs]; [apply writes_only_print|].
  apply writes_only_bindM; [apply writes_only_print|]. intros _.
  apply writes_only_bindM; [exact Hloop|]. intros _.
  apply writes_only_print.
Qed.

(** X7.  A run of [main] calls the service at most once for each function
    extracted from the source files, and not at all when the output
    directory cannot be created. *)
Theorem main_calls_bounded (st : state) :
  calls st <= calls (fst (main w crud_path output_path st))
  <= calls st + match makedirs_fault w output_path with
                | None => list_sum (map functions_in crud_files_of)
                | Some _ => 0
                end.
Proof.
  revert st.
  change (calls_at_most
            (match makedirs_fault w output_path with
             | None => list_sum (map functions_in crud_files_of)
             | Some _ => 0
             end) (main w crud_path output_path)).
  unfold main. fold crud_files_of.
  destruct (makedirs_fault w output_path); [apply calls_at_most_raise|].
  assert (Hloop : calls_at_most (list_sum (map functions_in crud_files_of))
                    (main_loop w output_path crud_files_of)).
  { unfold main_loop. apply calls_at_most_for_each.
    apply calls_at_most_process_file. }
  destruct crud_files_of as [|f fs]; [apply calls_at_most_print|].
  eapply calls_at_most_weaken;
    [|apply calls_at_most_bindM;
       [apply calls_at_most_print
       |intros _; apply calls_at_most_bindM;
          [exact Hloop|intros _; apply calls_at_most_print]]].
  lia.
Qed.

End Pipeline.

Lemma generate_doc_returns_stripped_witness :
  generate_doc crud_world (Some (txt "def f(): pass")) initial_state
  = ({| console := []; disk := []; calls := 1 |},
     Ok (txt "Returns nothing.")).
Proof.
  destruct (@generate_doc_returns_stripped crud_world
              (Some (txt "def f(): pass")) initial_state
              (txt "Document this function:" ++ NL ++ txt "def f(): pass"
                 ++ NL ++ txt "Answer in Markdown.")
              (txt "Returns nothing." ++ NL))
    as (doc & Hrun & Hdoc & _); [reflexivity|reflexivity|].
  rewrite Hrun, Hdoc. reflexivity.
Defined.

Lemma process_file_writes_document_witness :
  exists st',
    process_file crud_world (txt "crud_docs") (txt "crud/a.py") initial_state
    = (st', Ok tt) /\
    disk_lookup (disk st') (txt "crud_docs/a_doc.md")
    = Some (txt "# Documentation for a.py" ++ NL2
              ++ txt "## Function: `f`" ++ NL2
              ++ txt "Returns nothing." ++ NL2 ++ txt "---" ++ NL2) /\
    calls st' = 1 /\
    console st'
    = [ txt "Processing crud/a.py...";
        txt "  Generating docs for function: f";
        txt "Documentation saved to crud_docs/a_doc.md" ].
Proof.
  destruct (@process_file_writes_document crud_world (txt "crud_docs")
              (txt "crud/a.py") initial_state
              [ {| unit_name := txt "f"; unit_docstring := [];
                   unit_code := Some (txt "def f(self):" ++ NL
                                        ++ txt "        pass") |} ]
              [txt "Returns nothing." ++ NL])
    as (st' & Hrun & Hdisk & Hcalls & Hconsole);
    [vm_compute; reflexivity|discriminate|reflexivity|intros c d; reflexivity
    |vm_compute; reflexivity|].
  exists st'. split; [exact Hrun|]. split; [exact Hdisk|].
  split; [exact Hcalls|exact Hconsole].
Defined.

(** A service that answers its first call and fails from then on. *)
Definition flaky_service : nat -> text -> result text :=
  fun n _ =>
    match n with
    | 0 => Ok (NL ++ txt "Returns nothing." ++ NL)
    | S _ => Raise (ServiceError (txt "429 Quota exceeded"))
    end.

(** A directory with one file, holding a function and a method. *)
Definition flaky_world : world :=
  make_world
    [ (txt "crud/n.py", WalkOrder.nested_first_source);
      (prompt_template_path, PromptFacts.plain_template) ]
    [txt "n.py"]
    (fun _ => inr WalkOrder.nested_first_tree)
    flaky_service.

Lemma process_file_leaves_partial_document_witness :
  exists st',
    process_file flaky_world (txt "crud_docs") (txt "crud/n.py") initial_state
    = (st', Ok tt) /\
    disk_lookup (disk st') (txt "crud_docs/n_doc.md")
    = Some (txt "# Documentation for n.py" ++ NL2
              ++ txt "## Function: `outer`" ++ NL2
              ++ txt "Returns nothing." ++ NL2 ++ txt "---" ++ NL2) /\
    calls st' = 2 /\
    console st'
    = [ txt "Processing crud/n.py...";
        txt "  Generating docs for function: outer";
        txt "  Generating docs for function: inner";
        txt "Error processing crud/n.py: 429 Quota exceeded" ].
Proof.
  destruct (@process_file_leaves_partial_document flaky_world
              (txt "crud_docs") (txt "crud/n.py") initial_state
              [ {| unit_name := txt "outer"; unit_docstring := [];
                   unit_code := Some (txt "def outer():" ++ NL
                                        ++ txt "    pass") |} ]
              {| unit_name := txt "inner"; unit_docstring := [];
                 unit_code := Some (txt "def inner(self):" ++ NL
                                      ++ txt "        pass") |}
              []
              [NL ++ txt "Returns nothing." ++ NL]
              (txt "Document this function:" ++ NL
                 ++ txt "def inner(self):" ++ NL ++ txt "        pass"
                 ++ NL ++ txt "Answer in Markdown.")
              (ServiceError (txt "429 Quota exceeded")))
    as (st' & Hrun & Hdisk & Hcalls & Hconsole);
    [vm_compute; reflexivity|reflexivity|intros c d; reflexivity
    |vm_compute; reflexivity|vm_compute; reflexivity|reflexivity|].
  exists st'. split; [exact Hrun|]. split; [exact Hdisk|].
  split; [exact Hcalls|exact Hconsole].
Defined.

Lemma process_file_skips_witness :
  process_file crud_world (txt "crud_docs") (txt "crud/g.py") initial_state
  = ({| console := [ txt "Processing crud/g.py...";
                     txt "No functions found in crud/g.py" ];
        disk := []; calls := 0 |}, Ok tt)
  /\
  process_file crud_world (txt "crud_docs") (txt "crud/broken.py")
               initial_state
  = ({| console := [ txt "Processing crud/broken.py...";
                     error_line (txt "crud/broken.py") broken_error ];
        disk := []; calls := 0 |}, Ok tt).
Proof.
  split.
  - apply (@process_file_skips crud_world (txt "crud_docs") (txt "crud/g.py")
             initial_state (txt "No functions found in crud/g.py")).
    vm_compute. reflexivity.
  - apply (@process_file_skips crud_world (txt "crud_docs")
             (txt "crud/broken.py") initial_state
             (error_line (txt "crud/broken.py") broken_error)).
    vm_compute. reflexivity.
Defined.

Lemma main_writes_only_documents_witness :
  disk_lookup
    (disk (fst (main crud_world (txt "crud") (txt "crud_docs")
                     initial_state)))
    (txt "crud_docs/g_doc.md") = None
  /\
  disk_lookup
    (disk (fst (main crud_world (txt "crud") (txt "crud_docs")
                     initial_state)))
    (txt "crud/a.py") = None.
Proof.
  split.
  - apply (@main_writes_only_documents crud_world (txt "crud_docs")
             (txt "crud") initial_state (txt "crud_docs/g_doc.md")).
    intros (f & Hin & Hn & Hp). vm_compute in Hin.
    destruct Hin as [<-|[<-|[<-|[]]]]; vm_compute in Hn, Hp;
      solve [discriminate Hp | now apply Hn].
  - apply (@main_writes_only_documents crud_world (txt "crud_docs")
             (txt "crud") initial_state (txt "crud/a.py")).
    intros (f & Hin & Hn & Hp). vm_compute in Hin.
    destruct Hin as [<-|[<-|[<-|[]]]]; vm_compute in Hn, Hp;
      solve [discriminate Hp | now apply Hn].
Defined.

End PipelineFacts.

(** ** The combined document and the order of the listing *)

Lemma text_leb_antisym a : forall b,
  text_leb a b = true -> text_leb b a = true -> a = b.
Proof.
  induction a as [|x a IH]; intros [|y b]; simpl; try discriminate;
    [reflexivity|].
  destruct (N.ltb_spec x y), (N.ltb_spec y x); try discriminate; try lia.
  intros H1 H2. f_equal; [lia|now apply IH].
Qed.

Lemma sorted_perm_eq l : forall l',
  StronglySorted text_le l -> StronglySorted text_le l' ->
  Permutation l l' -> l = l'.
Proof.
  induction l as [|x l IH]; intros [|y l'] Hs Hs' Hp.
  - reflexivity.
  - now apply Permutation_nil in Hp.
  - symmetry in Hp. now apply Permutation_nil in Hp.
  - inversion Hs as [|? ? Hl Hx]; inversion Hs' as [|? ? Hl' Hy]; subst.
    assert (E : x = y).
    { assert (Hin : In x (y :: l'))
        by (eapply Permutation_in; [exact Hp|now left]).
      assert (Hin' : In y (x :: l))
        by (eapply Permutation_in; [symmetry; exact Hp|now left]).
      destruct Hin as [->|Hin]; [reflexivity|].
      destruct Hin' as [->|Hin']; [reflexivity|].
      rewrite Forall_forall in Hx, Hy.
      apply text_leb_antisym; [now apply Hx|now apply Hy]. }
    subst y. f_equal. apply IH; try assumption.
    now apply Permutation_cons_inv in Hp.
Qed.

(** [sort] depends on the elements of the list, not on their order. *)
Lemma sort_permutation l l' : Permutation l l' -> sort l = sort l'.
Proof.
  intros Hp. apply sorted_perm_eq; try apply sort_sorted.
  etransitivity; [symmetry; apply sort_perm|].
  etransitivity; [exact Hp|apply sort_perm].
Qed.

Lemma filter_permutation {A} (f : A -> bool) (l l' : list A) :
  Permutation l l' -> Permutation (filter f l) (filter f l').
Proof.
  induction 1 as [|x l l' Hp IH|x y l|l l' l'' H1 IH1 H2 IH2]; cbn [filter].
  - constructor.
  - destruct (f x); [now constructor|exact IH].
  - destruct (f x), (f y); try reflexivity. apply perm_swap.
  - etransitivity; eassumption.
Qed.

Lemma glob_ext_permutation dirname ext l l' :
  Permutation l l' ->
  Permutation (glob_ext dirname ext l) (glob_ext dirname ext l').
Proof.
  intros Hp. unfold glob_ext. now apply Permutation_map, filter_permutation.
Qed.

Module CombineOrder.

Import DocGenerator Examples CombineFacts.

(** The world [w] with another listing of its directories. *)
Definition relisted (w : world) (entries : text -> list text) : world :=
  {| read_file := read_file w;
     listdir := entries;
     makedirs_fault := makedirs_fault w;
     open_fault := open_fault w;
     write_fault := write_fault w;
     parse_source := parse_source w;
     generate_content := generate_content w;
     render_extended := render_extended w;
     unicode_db := unicode_db w |}.

Lemma combine_loop_relisted w entries total md_files :
  forall index combined st,
    combine_loop (relisted w entries) total index md_files combined st
    = combine_loop w total index md_files combined st.
Proof.
  induction md_files as [|f rest IH]; intros index combined st;
    [reflexivity|].
  cbn [combine_loop]. unfold bindM.
  change (combine_one (relisted w entries) total index f combined st)
    with (combine_one w total index f combined st).
  destruct (combine_one w total index f combined st) as [st1 [c|e]];
    [apply IH|reflexivity].
Qed.

(** X9.  The combined document does not depend on the order in which the
    system lists the input folder: two listings with the same entries give
    the same run of [combine_markdown_files], with the same lines printed
    and the same text written. *)
Theorem combine_listing_order (w : world)
  (entries entries' : text -> list text)
  (input_folder output_file : text) (st : state) :
  Permutation (entries input_folder) (entries' input_folder) ->
  combine_markdown_files (relisted w entries) input_folder output_file st
  = combine_markdown_files (relisted w entries') input_folder output_file st.
Proof.
  intros Hp. unfold combine_markdown_files. cbn [listdir relisted].
  pose proof (glob_ext_permutation input_folder (txt ".md") Hp) as Hg.
  pose proof (sort_permutation Hg) as Hs.
  destruct (glob_ext input_folder (txt ".md") (entries input_folder))
    as [|f fs];
    destruct (glob_ext input_folder (txt ".md") (entries' input_folder))
    as [|f' fs'].
  - reflexivity.
  - now apply Permutation_nil in Hg.
  - symmetry in Hg. now apply Permutation_nil in Hg.
  - rewrite Hs. unfold bindM. cbn [print]. rewrite !for_each_print.
    rewrite !combine_loop_relisted. reflexivity.
Qed.

Definition could_not_write (e : exn) : text :=
  txt "[ERROR] Could not write to file: " ++ str_exn e.

(** X10.  With input files, [combine_markdown_files] returns normally even
    when the output cannot be written, whether opening it or writing to it
    fails: the last line printed reports the error, and no file but the
    output is touched.  When the output cannot be opened, it is not touched
    either: it keeps what it held. *)
Theorem combine_write_failure (w : world) (input_folder output_file : text)
  (st : state) (e : exn) :
  md_files_of w input_folder <> [] ->
  open_fault w output_file = Some e \/
  (open_fault w output_file = None /\
   write_fault w output_file [] (combined_text w input_folder) = Some e) ->
  exists st',
    combine_markdown_files w input_folder output_file st = (st', Ok tt) /\
    last (console st') [] = could_not_write e /\
    (forall path, path <> output_file ->
                  disk_lookup (disk st') path = disk_lookup (disk st) path) /\
    (open_fault w output_file = Some e -> disk st' = disk st).
Proof.
  unfold combined_text, md_files_of, combine_markdown_files.
  intros Hne Hfail.
  destruct (glob_ext input_folder (txt ".md") (listdir w input_folder))
    as [|f0 fs] eqn:Eg; [now contradiction Hne|].
  set (files := sort (f0 :: fs)) in *.
  unfold bindM at 1. cbn [print].
  unfold bindM at 1. rewrite for_each_print.
  match goal with
  | |- context [bindM (combine_loop w ?t ?i ?l ?c) ?k ?s] =>
      destruct (combine_loop_outcome w t l i c s)
        as (st2 & H2 & Hd2 & He2 & Hr2);
      unfold bindM at 1; rewrite H2
  end.
  cbn [disk] in Hd2.
  unfold try_except, bindM, open_write.
  destruct Hfail as [Ho|[Ho Hw]]; rewrite Ho.
  - cbn [raise print]. eexists. split; [reflexivity|]. cbn [console disk].
    split; [apply last_last|]. now rewrite Hd2.
  - cbn [disk_set]. unfold file_write. cbn [disk].
    rewrite disk_lookup_same, Hw. cbn [print].
    eexists. split; [reflexivity|]. cbn [console disk].
    split; [apply last_last|]. split; [|discriminate].
    intros path Hp. rewrite disk_lookup_other by congruence.
    now rewrite Hd2.
Qed.

Lemma combine_listing_order_witness :
  combine_markdown_files
    (relisted two_docs_world
              (fun _ => [txt "item_doc.md"; txt "user_crud_doc.md"]))
    (txt "crud_docs") (txt "combined.md") initial_state
  = combine_markdown_files
      (relisted two_docs_world
                (fun _ => [txt "user_crud_doc.md"; txt "item_doc.md"]))
      (txt "crud_docs") (txt "combined.md") initial_state.
Proof.
  apply (@combine_listing_order two_docs_world
           (fun _ => [txt "item_doc.md"; txt "user_crud_doc.md"])
           (fun _ => [txt "user_crud_doc.md"; txt "item_doc.md"])).
  apply perm_swap.
Defined.

Definition permission_denied : exn :=
  OSError (txt "[Errno 13] Permission denied: 'combined.md'").

(** The folder with two documents, where no file can be opened for
    writing. *)
Definition read_only_world : world :=
  {| read_file := read_file two_docs_world;
     listdir := listdir two_docs_world;
     makedirs_fault := makedirs_fault two_docs_world;
     open_fault := fun _ => Some permission_denied;
     write_fault := write_fault two_docs_world;
     parse_source := parse_source two_docs_world;
     generate_content := generate_content two_docs_world;
     render_extended := render_extended two_docs_world;
     unicode_db := unicode_db two_docs_world |}.

Lemma combine_write_failure_witness :
  exists st',
    combine_markdown_files read_only_world (txt "crud_docs")
                           (txt "combined.md") initial_state
    = (st', Ok tt) /\
    last (console st') []
    = txt "[ERROR] Could not write to file: [Errno 13] Permission denied: 'combined.md'" /\
    disk st' = [].
Proof.
  destruct (@combine_write_failure read_only_world (txt "crud_docs")
              (txt "combined.md") initial_state permission_denied)
    as (st' & Hrun & Hlast & _ & Hdisk);
    [vm_compute; discriminate|now left|].
  exists st'. split; [exact Hrun|]. split; [exact Hlast|].
  now apply Hdisk.
Defined.

End CombineOrder.

(** ** Reading the documents back *)

Module ReadFacts.

Import SRS SRSDocument Examples.

Lemma dict_set_fresh d key value :
  ~ In key (map fst d) -> dict_set d key value = d ++ [(key, value)].
Proof.
  induction d as [|[k v] d IH]; intros Hn; [reflexivity|].
  cbn [dict_set]. destruct (text_eqb k key) eqn:E.
  - apply text_eqb_eq in E. subst. exfalso. apply Hn. now left.
  - cbn [app]. rewrite IH; [reflexivity|]. intros H. apply Hn. now right.
Qed.

Lemma dict_set_keys d key value :
  map fst (dict_set d key value)
  = if existsb (text_eqb key) (map fst d) then map fst d
    else map fst d ++ [key].
Proof.
  induction d as [|[k v] d IH]; [reflexivity|].
  cbn [dict_set map fst existsb].
  destruct (text_eqb k key) eqn:E.
  - apply text_eqb_eq in E. subst. now rewrite text_eqb_refl.
  - assert (E' : text_eqb key k = false).
    { destruct (text_eqb key k) eqn:E2; [|reflexivity].
      apply text_eqb_eq in E2. subst. now rewrite text_eqb_refl in E. }
    rewrite E'. cbn [orb map fst]. rewrite IH.
    now destruct (existsb (text_eqb key) (map fst d)).
Qed.

Lemma existsb_text_eqb key l :
  existsb (text_eqb key) l = true <-> In key l.
Proof.
  rewrite existsb_exists. split.
  - intros (x & Hx & E). apply text_eqb_eq in E. now subst.
  - intros H. exists key. split; [exact H|apply text_eqb_refl].
Qed.

Lemma dict_set_NoDup d key value :
  NoDup (map fst d) -> NoDup (map fst (dict_set d key value)).
Proof.
  intros Hd. rewrite dict_set_keys.
  destruct (existsb (text_eqb key) (map fst d)) eqn:E; [exact Hd|].
  apply NoDup_app; [exact Hd|repeat constructor; intros []|].
  intros x Hx [<-|[]].
  apply existsb_text_eqb in Hx. congruence.
Qed.

Lemma dict_set_In d key value k v :
  In (k, v) (dict_set d key value) -> (k, v) = (key, value) \/ In (k, v) d.
Proof.
  induction d as [|[k0 v0] d IH]; cbn [dict_set].
  - intros [H|[]]. now left.
  - destruct (text_eqb k0 key) eqn:E.
    + apply text_eqb_eq in E. subst.
      intros [H|H]; [now left|right; now right].
    + intros [H|H]; [right; now left|].
      destruct (IH H) as [H'|H']; [now left|right; now right].
Qed.

Lemma dict_set_set d key value : In (key, value) (dict_set d key value).
Proof.
  induction d as [|[k0 v0] d IH]; cbn [dict_set]; [now left|].
  destruct (text_eqb k0 key) eqn:E.
  - apply text_eqb_eq in E. subst. now left.
  - now right.
Qed.

Lemma dict_set_other d key value k v :
  k <> key -> In (k, v) d -> In (k, v) (dict_set d key value).
Proof.
  intros Hk. induction d as [|[k0 v0] d IH]; [intros []|].
  cbn [dict_set]. destruct (text_eqb k0 key) eqn:E.
  - apply text_eqb_eq in E. subst.
    intros [H|H]; [injection H as <- <-; contradiction|now right].
  - intros [H|H]; [now left|right; now apply IH].
Qed.

Section Read.

Variable w : world.

(** A document that can be read. *)
Definition can_be_read (doc_file : text) : bool :=
  match read_file w doc_file with
  | Ok _ => true
  | Raise _ => false
  end.

(** The entry a can_be_read document gives. *)
Definition entry_of (doc_file : text) : text * text :=
  (module_name_of doc_file,
   match read_file w doc_file with
   | Ok content => content
   | Raise _ => []
   end).

(** The line printed for a document. *)
Definition report_of (doc_file : text) : text :=
  match read_file w doc_file with
  | Ok _ => txt "Loaded documentation for: " ++ module_name_of doc_file
  | Raise e =>
      txt "Error reading " ++ doc_file ++ txt ": " ++ str_exn e
  end.

(** The dictionary after one more document. *)
Definition loaded (documentation : list (text * text)) (doc_file : text)
  : list (text * text) :=
  match read_file w doc_file with
  | Ok content => dict_set documentation (module_name_of doc_file) content
  | Raise _ => documentation
  end.

Lemma load_doc_outcome doc_file documentation st :
  load_doc w doc_file documentation st
  = ({| console := console st ++ [report_of doc_file]; disk := disk st;
        calls := calls st |},
     Ok (loaded documentation doc_file)).
Proof.
  unfold load_doc, try_except, bindM, lift, report_of, loaded.
  destruct (read_file w doc_file) as [c|e]; reflexivity.
Qed.

Lemma load_docs_outcome doc_files : forall documentation st,
  load_docs w doc_files documentation st
  = ({| console := console st ++ map report_of doc_files; disk := disk st;
        calls := calls st |},
     Ok (fold_left loaded doc_files documentation)).
Proof.
  induction doc_files as [|f rest IH]; intros documentation st.
  - cbn. rewrite app_nil_r. now destruct st.
  - cbn [load_docs]. unfold bindM. rewrite load_doc_outcome, IH.
    cbn. now rewrite <- app_assoc.
Qed.

Lemma loaded_NoDup doc_files : forall documentation,
  NoDup (map fst documentation) ->
  NoDup (map fst (fold_left loaded doc_files documentation)).
Proof.
  induction doc_files as [|f rest IH]; intros d Hd; [exact Hd|].
  cbn [fold_left]. apply IH. unfold loaded.
  destruct (read_file w f); [now apply dict_set_NoDup|exact Hd].
Qed.

Lemma loaded_distinct doc_files : forall documentation,
  NoDup (map fst documentation
           ++ map module_name_of (filter can_be_read doc_files)) ->
  fold_left loaded doc_files documentation
  = documentation ++ map entry_of (filter can_be_read doc_files).
Proof.
  induction doc_files as [|f rest IH]; intros d Hd.
  - cbn. now rewrite app_nil_r.
  - cbn [fold_left filter] in *.
    assert (Hl : loaded d f
                 = if can_be_read f
                   then dict_set d (module_name_of f) (snd (entry_of f))
                   else d).
    { unfold loaded, can_be_read, entry_of.
      now destruct (read_file w f). }
    rewrite Hl. destruct (can_be_read f); [|now apply IH].
    cbn [map] in *. rewrite dict_set_fresh.
    + rewrite IH.
      * now rewrite <- app_assoc.
      * rewrite map_app. cbn [map fst]. now rewrite <- app_assoc.
    + apply NoDup_remove_2 in Hd. intros H. apply Hd.
      apply in_or_app. now left.
Qed.

(** The documents [read_documentation_files] finds. *)
Definition doc_files_of (docs_dir : text) : list text :=
  glob_ext docs_dir (txt ".md") (listdir w docs_dir).

Lemma read_documentation_files_returns (docs_dir : text) (st : state) :
  doc_files_of docs_dir <> [] ->
  exists documentation,
    read_documentation_files w docs_dir st
    = ({| console := console st ++ map report_of (doc_files_of docs_dir);
          disk := disk st; calls := calls st |},
       Ok documentation).
Proof.
  unfold read_documentation_files. fold (doc_files_of docs_dir).
  intros Hne.
  destruct (doc_files_of docs_dir) as [|f fs] eqn:E; [contradiction|].
  rewrite <- E in *. rewrite load_docs_outcome. now eexists.
Qed.

(** X11.  With at least one Markdown file in the folder,
    [read_documentation_files] does not raise, whatever can or cannot be
    read.  When the can_be_read files have distinct module names, the
    dictionary holds one entry for each of them, its module name with the
    text of the file, in the order in which the system lists the folder
    (the files are not sorted); one line is printed per file, saying that
    it was loaded or why it was not; nothing is written and the service is
    not called. *)
Theorem read_documentation_files_loads (docs_dir : text) (st : state) :
  doc_files_of docs_dir <> [] ->
  NoDup (map module_name_of (filter can_be_read (doc_files_of docs_dir))) ->
  read_documentation_files w docs_dir st
  = ({| console := console st ++ map report_of (doc_files_of docs_dir);
        disk := disk st; calls := calls st |},
     Ok (map entry_of (filter can_be_read (doc_files_of docs_dir)))).
Proof.
  unfold read_documentation_files. fold (doc_files_of docs_dir).
  intros Hne Hd.
  destruct (doc_files_of docs_dir) as [|f fs] eqn:E; [contradiction|].
  rewrite <- E in *. rewrite load_docs_outcome.
  now rewrite loaded_distinct.
Qed.

Lemma loaded_In doc_files : forall documentation name content,
  In (name, content) (fold_left loaded doc_files documentation) ->
  In (name, content) documentation \/
  exists doc_file,
    In doc_file doc_files /\ module_name_of doc_file = name /\
    read_file w doc_file = Ok content.
Proof.
  induction doc_files as [|f rest IH]; intros d name content H.
  - now left.
  - cbn [fold_left] in H. apply IH in H as [H|(g & Hg & Hn & Hr)].
    + unfold loaded in H. destruct (read_file w f) as [c|e] eqn:Er.
      * apply dict_set_In in H as [H|H]; [|now left].
        injection H as -> ->. right. exists f.
        split; [now left|]. now split.
      * now left.
    + right. exists g. split; [now right|]. now split.
Qed.

Lemma loaded_keeps doc_files : forall documentation name content,
  In (name, content) documentation ->
  (forall doc_file,
      In doc_file doc_files -> can_be_read doc_file = true ->
      module_name_of doc_file <> name) ->
  In (name, content) (fold_left loaded doc_files documentation).
Proof.
  induction doc_files as [|f rest IH]; intros d name content H Hlater.
  - exact H.
  - cbn [fold_left]. apply IH.
    + pose proof (Hlater f (or_introl eq_refl)) as Hf.
      unfold loaded, can_be_read in *.
      destruct (read_file w f) as [c|e]; [|exact H].
      apply dict_set_other; [|exact H].
      intros E. apply Hf; [reflexivity|now symmetry].
    + intros g Hg. apply Hlater. now right.
Qed.

(** X12.  Whatever the names of the files, the keys of the dictionary
    [read_documentation_files] returns are distinct and each entry holds
    the text of a listed file with that module name.  Of the can_be_read
    files with one module name the last listed wins: a file is
    represented by its own text when no can_be_read file after it has the
    same module name. *)
Theorem read_documentation_files_keys (docs_dir : text) (st : state) :
  doc_files_of docs_dir <> [] ->
  exists st' documentation,
    read_documentation_files w docs_dir st = (st', Ok documentation) /\
    NoDup (map fst documentation) /\
    (forall name content,
        In (name, content) documentation ->
        exists doc_file,
          In doc_file (doc_files_of docs_dir) /\
          module_name_of doc_file = name /\
          read_file w doc_file = Ok content) /\
    (forall before doc_file after content,
        doc_files_of docs_dir = before ++ doc_file :: after ->
        read_file w doc_file = Ok content ->
        (forall later,
            In later after -> can_be_read later = true ->
            module_name_of later <> module_name_of doc_file) ->
        In (module_name_of doc_file, content) documentation).
Proof.
  unfold read_documentation_files. fold (doc_files_of docs_dir).
  intros Hne.
  destruct (doc_files_of docs_dir) as [|f fs] eqn:E; [contradiction|].
  rewrite <- E in *. clear E f fs Hne.
  rewrite load_docs_outcome. eexists _, _. split; [reflexivity|].
  split; [apply loaded_NoDup; constructor|]. split.
  - intros name content H. apply loaded_In in H as [[]|H]. exact H.
  - intros before f after content E Hr Hlater. rewrite E.
    rewrite fold_left_app. cbn [fold_left].
    apply loaded_keeps; [|exact Hlater].
    unfold loaded at 1. rewrite Hr. apply dict_set_set.
Qed.

End Read.

Lemma no_slash_app a b : no_slash (a ++ b) = no_slash a && no_slash b.
Proof. unfold no_slash. rewrite existsb_app. apply negb_orb. Qed.

(** X13.  The two programs agree on the name of a module: the document
    that [main] writes for the source file [stem.py] is filed by
    [read_documentation_files] under [stem], whatever the two folders are,
    for a [stem] in which neither [.py] nor [_doc.md] starts. *)
Theorem module_name_round_trip (crud_path output_path stem : text) :
  no_slash stem = true ->
  clean (txt ".py") stem = true ->
  clean (txt "_doc.md") stem = true ->
  module_name_of
    (MainFacts.output_file_of output_path
       (path_join crud_path (stem ++ txt ".py")))
  = stem.
Proof.
  intros Hs Hpy Hdoc. unfold module_name_of, MainFacts.output_file_of.
  rewrite (@path_join_prefix crud_path (stem ++ txt ".py"))
    by (rewrite no_slash_app, Hs; reflexivity).
  rewrite basename_prefix by (rewrite no_slash_app, Hs; reflexivity).
  rewrite replace_suffix by (discriminate || assumption).
  rewrite (@path_join_prefix output_path (stem ++ txt "_doc.md"))
    by (rewrite no_slash_app, Hs; reflexivity).
  rewrite basename_prefix by (rewrite no_slash_app, Hs; reflexivity).
  apply replace_suffix; [discriminate|assumption].
Qed.

Lemma read_documentation_files_loads_witness :
  read_documentation_files CombineFacts.docs_world (txt "crud_docs")
                           initial_state
  = ({| console :=
          [ txt "Loaded documentation for: user_crud";
            txt "Error reading crud_docs/order_doc.md: [Errno 2] No such file or directory: crud_docs/order_doc.md";
            txt "Loaded documentation for: item" ];
        disk := []; calls := 0 |},
     Ok [ (txt "user_crud",
           txt "# Documentation for user_crud.py" ++ NL2
             ++ txt "## Function: `get`" ++ NL2 ++ txt "Reads a user." ++ NL2
             ++ txt "---" ++ NL2);
          (txt "item", txt "# Documentation for item.py" ++ NL2) ]).
Proof.
  rewrite (@read_documentation_files_loads CombineFacts.docs_world
             (txt "crud_docs") initial_state).
  - vm_compute. reflexivity.
  - vm_compute. discriminate.
  - vm_compute. constructor; [|constructor; [intros []|constructor]].
    intros [H|[]]. discriminate H.
Defined.

(** A folder in which two documents have the module name [a]. *)
Definition same_module_world : world :=
  make_world
    [ (txt "crud_docs/a_doc.md", txt "first");
      (txt "crud_docs/a_doc.md_doc.md", txt "second") ]
    [ txt "a_doc.md"; txt "a_doc.md_doc.md" ]
    no_parser (constant_service []).

Lemma read_documentation_files_keys_witness :
  exists st' documentation,
    read_documentation_files same_module_world (txt "crud_docs")
                             initial_state
    = (st', Ok documentation) /\
    NoDup (map fst documentation) /\
    In (txt "a", txt "second") documentation.
Proof.
  destruct (@read_documentation_files_keys same_module_world
              (txt "crud_docs") initial_state)
    as (st' & documentation & Hrun & Hkeys & _ & Hlast);
    [vm_compute; discriminate|].
  exists st', documentation. split; [exact Hrun|]. split; [exact Hkeys|].
  apply (Hlast [txt "crud_docs/a_doc.md"] (txt "crud_docs/a_doc.md_doc.md")
               [] (txt "second")); [reflexivity|reflexivity|intros ? []].
Defined.

Lemma module_name_round_trip_witness :
  module_name_of
    (MainFacts.output_file_of (txt "crud_docs")
       (path_join (txt "crud") (txt "user_crud" ++ txt ".py")))
  = txt "user_crud".
Proof.
  apply (@module_name_round_trip (txt "crud") (txt "crud_docs")
           (txt "user_crud")); vm_compute; reflexivity.
Defined.

End ReadFacts.

(** ** The structure of the requirements document *)

Module DocumentFacts.

Import SRS SRSDocument SRSFacts Examples.

(** The texts of the level-1 headings of a story, in order. *)
Definition heading1_texts (story : list flowable) : list text :=
  flat_map (fun f => match f with
                     | Paragraph content heading1_style => [content]
                     | _ => []
                     end) story.

(** The tables of a story, in order. *)
Definition tables (story : list flowable) : list (list (list text)) :=
  flat_map (fun f => match f with
                     | Table data _ => [data]
                     | _ => []
                     end) story.

Definition page_breaks (story : list flowable) : nat :=
  length (flat_map (fun f => match f with
                             | PageBreak => [tt]
                             | _ => []
                             end) story).

Lemma heading1_texts_app a b :
  heading1_texts (a ++ b) = heading1_texts a ++ heading1_texts b.
Proof. apply flat_map_app. Qed.

Lemma tables_app a b : tables (a ++ b) = tables a ++ tables b.
Proof. apply flat_map_app. Qed.

Lemma page_breaks_app a b :
  page_breaks (a ++ b) = page_breaks a + page_breaks b.
Proof. unfold page_breaks. now rewrite flat_map_app, length_app. Qed.

(** The paragraphs of the generated text bring neither a level-1 heading,
    nor a table, nor a page break. *)
Lemma paragraph_flowables_plain paragraphs :
  heading1_texts (flat_map paragraph_flowables paragraphs) = [] /\
  tables (flat_map paragraph_flowables paragraphs) = [] /\
  page_breaks (flat_map paragraph_flowables paragraphs) = 0.
Proof.
  induction paragraphs as [|p ps (IH1 & IH2 & IH3)]; [now repeat split|].
  cbn [flat_map].
  rewrite heading1_texts_app, tables_app, page_breaks_app, IH1, IH2, IH3.
  unfold paragraph_flowables. destruct (strip p) as [|c s];
    [now repeat split|].
  destruct (startswith (txt "**") (c :: s) && endswith (txt "**") (c :: s));
    now repeat split.
Qed.

(** The first cell of a row of a table. *)
Definition first_cell (row : list text) : text := hd [] row.

(** [titles], numbered from [i] on. *)
Fixpoint numbered_from (i : nat) (titles : list text) : list text :=
  match titles with
  | [] => []
  | t :: rest => (str_nat i ++ txt ". " ++ t) :: numbered_from (S i) rest
  end.

Section Structure.

Variable w : world.

(** The heading of the section of a module. *)
Definition module_title (module_name : text) : text :=
  title (unicode_db w) module_name ++ txt " Module Requirements".

Lemma add_module_requirements_structure story module_name srs_content :
  heading1_texts (add_module_requirements w story module_name srs_content)
  = heading1_texts story ++ [module_title module_name] /\
  tables (add_module_requirements w story module_name srs_content)
  = tables story /\
  page_breaks (add_module_requirements w story module_name srs_content)
  = S (page_breaks story).
Proof.
  unfold add_module_requirements.
  destruct (paragraph_flowables_plain (split_from NL2 0 [] srs_content))
    as (H1 & H2 & H3).
  rewrite !heading1_texts_app, !tables_app, !page_breaks_app, H1, H2, H3.
  cbn. rewrite app_nil_r. repeat split. lia.
Qed.

Lemma toc_module_rows_labels modules : forall i page_num,
  map first_cell (fst (toc_module_rows w i page_num modules))
  = numbered_from i (map module_title modules).
Proof.
  induction modules as [|m ms IH]; intros i p; [reflexivity|].
  cbn [toc_module_rows]. specialize (IH (S i) (p + 2)).
  destruct (toc_module_rows w (S i) (p + 2) ms) as [rows fp].
  cbn [fst map numbered_from] in *. now rewrite IH.
Qed.

(** The first column of the table of contents. *)
Lemma toc_data_labels modules :
  map first_cell (toc_data w modules)
  = [ txt "Section"; txt "1. Introduction"; txt "2. System Overview";
      txt "3. Functional Requirements" ]
      ++ numbered_from 4 (map module_title modules)
      ++ [ str_nat (length modules + 4)
             ++ txt ". Non-Functional Requirements";
           str_nat (length modules + 5) ++ txt ". Appendices" ].
Proof.
  unfold toc_data. pose proof (toc_module_rows_labels modules 4 6) as H.
  destruct (toc_module_rows w 4 6 modules) as [rows fp]. cbn [fst] in H.
  rewrite !map_app, H. reflexivity.
Qed.

Variable tpl : text.
Hypothesis Hload : loaded_template w = Ok tpl.
Hypothesis Hformat :
  forall docs, exists prompt,
    format (render_extended w) (srs_kwargs docs) tpl = Ok prompt.

(** With a usable template, [generate_srs_content] makes one call to the
    service, whether the call succeeds or not, and writes nothing. *)
Lemma generate_srs_content_calls function_docs st :
  exists st' content,
    generate_srs_content w function_docs st = (st', Ok content) /\
    calls st' = S (calls st) /\ disk st' = disk st.
Proof.
  destruct (load_prompt_template_loaded w st) as (st1 & Hl & Hc & Hd).
  destruct (Hformat function_docs) as (prompt & Hp).
  unfold generate_srs_content, bindM. rewrite Hl, Hload.
  fold (srs_kwargs function_docs). unfold lift. rewrite Hp.
  unfold try_except, call_service, ret.
  destruct (generate_content w (calls st1) prompt) as [t|e].
  - eexists _, _. split; [reflexivity|]. cbn. now rewrite Hc, Hd.
  - eexists _, _. split; [reflexivity|]. cbn. now rewrite Hc, Hd.
Qed.

Lemma process_modules_structure documentation : forall story st,
  exists st' story',
    process_modules w documentation story st = (st', Ok story') /\
    heading1_texts story'
    = heading1_texts story ++ map module_title (map fst documentation) /\
    tables story' = tables story /\
    page_breaks story' = page_breaks story + length documentation /\
    calls st' = calls st + length documentation /\
    disk st' = disk st.
Proof.
  induction documentation as [|[module_name module_docs] rest IH];
    intros story st.
  - exists st, story. cbn. rewrite app_nil_r, !Nat.add_0_r.
    now repeat split.
  - cbn [process_modules]. unfold bindM, print. cbn beta iota.
    match goal with
    | |- context [generate_srs_content w module_docs ?s] =>
        destruct (generate_srs_content_calls module_docs s)
          as (st1 & content & Hg & Hc1 & Hd1)
    end.
    rewrite Hg. cbn [calls disk] in Hc1, Hd1.
    destruct (add_module_requirements_structure story module_name content)
      as (Hh & Ht & Hb).
    destruct (IH (add_module_requirements w story module_name content) st1)
      as (st' & story' & Hp & Hh' & Ht' & Hb' & Hc' & Hd').
    exists st', story'. split; [exact Hp|].
    rewrite Hh', Ht', Hb', Hc', Hd', Hh, Ht, Hb, Hc1, Hd1.
    cbn [map fst length]. rewrite <- app_assoc. repeat split; lia.
Qed.

Variable PROJECT_NAME COMPANY_NAME today : text.

Lemma build_story_returns (documentation : list (text * text))
  (st : state) :
  exists st' story,
    build_story w PROJECT_NAME COMPANY_NAME today documentation st
    = (st', Ok story) /\
    calls st' = calls st + length documentation /\
    disk st' = disk st.
Proof.
  unfold build_story. cbv zeta. unfold bindM.
  match goal with
  | |- context [process_modules w documentation ?s st] =>
      destruct (process_modules_structure documentation s st)
        as (st' & story' & Hp & _ & _ & _ & Hc & Hd)
  end.
  rewrite Hp. eexists _, _. split; [reflexivity|]. now split.
Qed.

(** X14.  With a usable prompt template, the story [generate_srs_document]
    puts together has these level-1 headings, in this order: the project
    name, the table of contents, the three numbered opening sections, one
    section per module in the order of the dictionary, and the section of
    non-functional requirements.  Its two tables are the document
    information and the table of contents, whose first column announces
    the same module sections in the same order, numbered from 4, and after
    them a section of appendices, for which the story has no heading.
    There are five page breaks and one more per module, and the service has been
    called once per module.  (A paragraph is recorded as its text and
    style: the layout engine's own checks of the markup are not part of
    the model.) *)
Theorem build_story_structure (documentation : list (text * text))
  (st : state) :
  exists st' story toc,
    build_story w PROJECT_NAME COMPANY_NAME today documentation st
    = (st', Ok story) /\
    heading1_texts story
    = [ PROJECT_NAME; txt "Table of Contents"; txt "1. Introduction";
        txt "2. System Overview"; txt "3. Functional Requirements" ]
        ++ map module_title (map fst documentation)
        ++ [ txt "Non-Functional Requirements" ] /\
    tables story = [ doc_info COMPANY_NAME today; toc ] /\
    map first_cell toc
    = [ txt "Section"; txt "1. Introduction"; txt "2. System Overview";
        txt "3. Functional Requirements" ]
        ++ numbered_from 4 (map module_title (map fst documentation))
        ++ [ str_nat (length documentation + 4)
               ++ txt ". Non-Functional Requirements";
             str_nat (length documentation + 5) ++ txt ". Appendices" ] /\
    page_breaks story = 5 + length documentation /\
    calls st' = calls st + length documentation /\
    disk st' = disk st.
Proof.
  unfold build_story. cbv zeta. unfold bindM.
  match goal with
  | |- context [process_modules w documentation ?s st] =>
      destruct (process_modules_structure documentation s st)
        as (st' & story' & Hp & Hh & Ht & Hb & Hc & Hd)
  end.
  exists st', (create_non_functional_requirements story'),
         (toc_data w (map fst documentation)).
  rewrite Hp. split; [reflexivity|].
  unfold create_non_functional_requirements.
  rewrite heading1_texts_app, tables_app, page_breaks_app, Hh, Ht, Hb.
  rewrite toc_data_labels, length_map.
  split; [cbn; reflexivity|].
  split; [reflexivity|]. split; [reflexivity|].
  split; [cbn; lia|]. now split.
Qed.

Variable doc_build : text -> list flowable -> M unit.

(** What [generate_srs_document] does once the story is complete. *)
Definition build_outcome (output_file : text) (story : list flowable)
  (st : state) : state * result bool :=
  match doc_build output_file story st with
  | (st', Ok _) =>
      (fst (print (txt "SRS document generated successfully: "
                     ++ output_file) st'), Ok true)
  | (st', Raise e) =>
      (fst (print (txt "Error generating PDF: " ++ str_exn e) st'),
       Ok false)
  end.

(** X16.  With documents in the folder and a usable prompt template,
    [generate_srs_document] reads the documents, calls the service once
    per module of the dictionary, and only then runs the layout engine, on
    the story of [build_story]; nothing has been written by then.  It
    returns [True] when the layout engine succeeds and [False], after
    printing the error, when it raises: a failure of the layout engine
    does not escape.  (The layout engine's checks of a paragraph's markup
    at the time the paragraph is built are not part of the model.) *)
Theorem generate_srs_document_outcome (docs_dir output_file : text)
  (st : state) :
  ReadFacts.doc_files_of w docs_dir <> [] ->
  exists st1 st2 documentation story,
    read_documentation_files w docs_dir
      (fst (print (txt "Starting SRS document generation...") st))
    = (st1, Ok documentation) /\
    build_story w PROJECT_NAME COMPANY_NAME today documentation st1
    = (st2, Ok story) /\
    calls st2 = calls st + length documentation /\
    disk st2 = disk st /\
    generate_srs_document w PROJECT_NAME COMPANY_NAME today doc_build
                          docs_dir output_file st
    = build_outcome output_file story st2.
Proof.
  intros Hne.
  set (st0 := fst (print (txt "Starting SRS document generation...") st)).
  destruct (@ReadFacts.read_documentation_files_returns w docs_dir st0 Hne)
    as (documentation & Hread).
  set (st1 := {| console :=
                   console st0
                     ++ map (ReadFacts.report_of w)
                            (ReadFacts.doc_files_of w docs_dir);
                 disk := disk st0; calls := calls st0 |}) in *.
  destruct (build_story_returns documentation st1)
    as (st2 & story & Hbuild & Hc2 & Hd2).
  exists st1, st2, documentation, story.
  split; [exact Hread|]. split; [exact Hbuild|].
  split; [exact Hc2|]. split; [exact Hd2|].
  unfold generate_srs_document, bindM at 1, try_or_return.
  change (print (txt "Starting SRS document generation...") st)
    with (st0, @Ok unit tt).
  cbv beta iota. rewrite Hread. unfold bindM at 1. rewrite Hbuild.
  unfold build_outcome, try_except, bindM.
  destruct (doc_build output_file story st2) as [st3 [[]|e]]; reflexivity.
Qed.

End Structure.

Section Empty.

Variable w : world.
Variable PROJECT_NAME COMPANY_NAME today : text.
Variable doc_build : text -> list flowable -> M unit.

(** X15.  Without a Markdown file in the folder, [generate_srs_document]
    returns [False] after two lines, the start of the generation and the
    folder in which no document was found: the service is not called, the
    layout engine is not run, and nothing is written. *)
Theorem generate_srs_document_without_documents
  (docs_dir output_file : text) (st : state) :
  ReadFacts.doc_files_of w docs_dir = [] ->
  generate_srs_document w PROJECT_NAME COMPANY_NAME today doc_build
                        docs_dir output_file st
  = ({| console :=
          console st
            ++ [ txt "Starting SRS document generation...";
                 txt "Error: No documentation files found in " ++ docs_dir ];
        disk := disk st; calls := calls st |},
     Ok false).
Proof.
  intros He.
  unfold generate_srs_document, bindM at 1, try_or_return,
    read_documentation_files.
  fold (ReadFacts.doc_files_of w docs_dir). rewrite He.
  cbn. now rewrite <- app_assoc.
Qed.

End Empty.

Section Escapes.

Variable w : world.
Variable PROJECT_NAME COMPANY_NAME today : text.
Variable doc_build : text -> list flowable -> M unit.

(** The prompt for the documentation of a module. *)
Definition prompt_of (module_docs : text) : result text :=
  match loaded_template w with
  | Ok tpl => format (render_extended w) (srs_kwargs module_docs) tpl
  | Raise e => Raise e
  end.

Lemma generate_srs_content_escapes module_docs e st :
  prompt_of module_docs = Raise e ->
  exists st',
    generate_srs_content w module_docs st = (st', Raise e) /\
    calls st' = calls st /\ disk st' = disk st.
Proof.
  unfold prompt_of. intros Hp.
  destruct (load_prompt_template_loaded w st) as (st1 & Hl & Hc & Hd).
  unfold generate_srs_content, bindM at 1. rewrite Hl.
  destruct (loaded_template w) as [tpl|e'].
  - unfold bindM, lift. fold (srs_kwargs module_docs). rewrite Hp.
    now exists st1.
  - injection Hp as ->. now exists st1.
Qed.

(** X20.  An error in preparing the prompt is not handled anywhere: when
    the template cannot be read for a reason other than its absence, or
    does not format with the documentation of the first module, the
    exception leaves [generate_srs_document], before any call to the
    service and without the layout engine being run; nothing is written.
    Errors of the service and of the layout engine are caught; this one is
    not. *)
Theorem generate_srs_document_prompt_error (docs_dir output_file : text)
  (st st1 : state) (module_name module_docs : text)
  (rest : list (text * text)) (e : exn) :
  read_documentation_files w docs_dir
    (fst (print (txt "Starting SRS document generation...") st))
  = (st1, Ok ((module_name, module_docs) :: rest)) ->
  prompt_of module_docs = Raise e ->
  exists st',
    generate_srs_document w PROJECT_NAME COMPANY_NAME today doc_build
                          docs_dir output_file st
    = (st', Raise e) /\
    calls st' = calls st1 /\ disk st' = disk st1.
Proof.
  intros Hread Hp.
  unfold generate_srs_document, bindM at 1, try_or_return.
  change (print (txt "Starting SRS document generation...") st)
    with (fst (print (txt "Starting SRS document generation...") st),
          @Ok unit tt).
  cbv beta iota. rewrite Hread.
  unfold bindM at 1, build_story. cbv zeta. cbn [process_modules].
  unfold bindM at 1, bindM at 1. cbn [print]. unfold bindM at 1.
  match goal with
  | |- context [generate_srs_content w module_docs ?s] =>
      destruct (@generate_srs_content_escapes module_docs e s Hp)
        as (st' & Hg & Hc & Hd)
  end.
  rewrite Hg. now exists st'.
Qed.

End Escapes.

(** A layout engine that accepts stories of at most eleven pages. *)
Definition small_build (output_file : text) (story : list flowable)
  : M unit :=
  if page_breaks story <=? 10 then ret tt
  else raise (ValueError (txt "too many pages")).

Lemma build_story_structure_witness :
  exists st' story,
    build_story down_world (txt "Shop") (txt "ACME") (txt "May 01, 2025")
                [ (txt "user_crud", txt "## Function: `get`");
                  (txt "item", txt "## Function: `put`") ]
                initial_state
    = (st', Ok story) /\
    heading1_texts story
    = [ txt "Shop"; txt "Table of Contents"; txt "1. Introduction";
        txt "2. System Overview"; txt "3. Functional Requirements";
        txt "User_Crud Module Requirements";
        txt "Item Module Requirements";
        txt "Non-Functional Requirements" ] /\
    page_breaks story = 7 /\
    calls st' = 2.
Proof.
  destruct (@build_story_structure down_world get_default_prompt
              eq_refl
              (fun docs => ex_intro _ _ (format_default_prompt _ docs))
              (txt "Shop") (txt "ACME") (txt "May 01, 2025")
              [ (txt "user_crud", txt "## Function: `get`");
                (txt "item", txt "## Function: `put`") ]
              initial_state)
    as (st' & story & toc & Hrun & Hh & _ & _ & Hb & Hc & _).
  exists st', story. split; [exact Hrun|]. split; [|split].
  - rewrite Hh. vm_compute. reflexivity.
  - exact Hb.
  - exact Hc.
Defined.

Lemma generate_srs_document_outcome_witness :
  exists st1 st2 documentation story,
    read_documentation_files CombineFacts.docs_world (txt "crud_docs")
      (fst (print (txt "Starting SRS document generation...")
                  initial_state))
    = (st1, Ok documentation) /\
    build_story CombineFacts.docs_world (txt "Shop") (txt "ACME")
                (txt "May 01, 2025") documentation st1
    = (st2, Ok story) /\
    calls st2 = length documentation /\
    disk st2 = [] /\
    generate_srs_document CombineFacts.docs_world (txt "Shop") (txt "ACME")
                          (txt "May 01, 2025") small_build
                          (txt "crud_docs") (txt "SRS_Document.pdf")
                          initial_state
    = build_outcome small_build (txt "SRS_Document.pdf") story st2.
Proof.
  apply (@generate_srs_document_outcome CombineFacts.docs_world
           get_default_prompt eq_refl
           (fun docs => ex_intro _ _ (format_default_prompt _ docs))
           (txt "Shop") (txt "ACME") (txt "May 01, 2025") small_build
           (txt "crud_docs") (txt "SRS_Document.pdf") initial_state).
  vm_compute. discriminate.
Defined.

Lemma generate_srs_document_without_documents_witness :
  generate_srs_document CombineFacts.empty_world (txt "Shop") (txt "ACME")
                        (txt "May 01, 2025") small_build
                        (txt "crud_docs") (txt "SRS_Document.pdf")
                        initial_state
  = ({| console :=
          [ txt "Starting SRS document generation...";
            txt "Error: No documentation files found in crud_docs" ];
        disk := []; calls := 0 |},
     Ok false).
Proof.
  apply (@generate_srs_document_without_documents CombineFacts.empty_world
           (txt "Shop") (txt "ACME") (txt "May 01, 2025") small_build
           (txt "crud_docs") (txt "SRS_Document.pdf") initial_state).
  vm_compute. reflexivity.
Defined.



(** A folder with one document, and a template that names a field the
    call does not supply. *)
Definition stray_template_world : world :=
  make_world
    [ (srs_template_path,
       txt "Requirements for {module}:" ++ NL ++ txt "{function_docs}");
      (txt "crud_docs/item_doc.md", txt "# Documentation for item.py" ++ NL2) ]
    [ txt "item_doc.md" ]
    no_parser (constant_service (txt "ok")).

Lemma generate_srs_document_prompt_error_witness :
  exists st',
    generate_srs_document stray_template_world (txt "Shop") (txt "ACME")
                          (txt "May 01, 2025") small_build
                          (txt "crud_docs") (txt "SRS_Document.pdf")
                          initial_state
    = (st', Raise (KeyError (txt "module"))) /\
    calls st' = 0 /\ disk st' = [].
Proof.
  apply (@generate_srs_document_prompt_error stray_template_world
           (txt "Shop") (txt "ACME") (txt "May 01, 2025") small_build
           (txt "crud_docs") (txt "SRS_Document.pdf") initial_state
           {| console := [ txt "Starting SRS document generation...";
                           txt "Loaded documentation for: item" ];
              disk := []; calls := 0 |}
           (txt "item") (txt "# Documentation for item.py" ++ NL2) []
           (KeyError (txt "module"))).
  - vm_compute. reflexivity.
  - vm_compute. reflexivity.
Defined.

End DocumentFacts.

(** ** The headings of the generated text *)

Module HeadingFacts.

Import SRS.

Definition STAR : codepoint := 42%N.

(** No two [c] in a row. *)
Fixpoint no_double (c : codepoint) (s : text) : bool :=
  match s with
  | [] => true
  | x :: s' =>
      negb (cp_eqb x c && match s' with
                          | [] => false
                          | y :: _ => cp_eqb y c
                          end)
      && no_double c s'
  end.

Lemma no_double_occurs c s :
  no_double c s = true -> ~ occurs_in [c; c] s.
Proof.
  intros H (a & b & E). subst s. induction a as [|x a IH].
  - cbn in H. unfold cp_eqb in H. now rewrite N.eqb_refl in H.
  - apply IH. cbn [app no_double] in H.
    now apply andb_true_iff in H as [_ H].
Qed.

(** Removing the pairs of [c] from left to right leaves no pair. *)
Lemma cp_eqb_sym x y : cp_eqb x y = cp_eqb y x.
Proof. apply N.eqb_sym. Qed.

Lemma replace_pair_step c x s :
  replace_from [c; c] [] 0 (x :: s)
  = match s with
    | y :: s' =>
        if cp_eqb c x && cp_eqb c y then replace_from [c; c] [] 0 s'
        else x :: replace_from [c; c] [] 0 s
    | [] => [x]
    end.
Proof.
  cbn [replace_from startswith length Nat.sub app].
  destruct s as [|y s'].
  - cbn [startswith replace_from]. now rewrite andb_false_r.
  - cbn [startswith]. rewrite andb_true_r.
    destruct (cp_eqb c x && cp_eqb c y); reflexivity.
Qed.

(** Removing the pairs of [c] from left to right leaves no pair. *)
Lemma replace_pair_no_double c n : forall s,
  length s <= n -> no_double c (replace_from [c; c] [] 0 s) = true.
Proof.
  induction n as [|n IH]; intros s Hn.
  - destruct s; [reflexivity|cbn in Hn; lia].
  - destruct s as [|x s]; [reflexivity|].
    rewrite replace_pair_step. destruct s as [|y s'].
    + cbn. now rewrite andb_false_r.
    + destruct (cp_eqb c x && cp_eqb c y) eqn:E.
      * apply IH. cbn in Hn. lia.
      * cbn [no_double]. rewrite IH by (cbn in Hn |- *; lia).
        rewrite andb_true_r. apply negb_true_iff.
        destruct (cp_eqb x c) eqn:Ex; [|reflexivity]. cbn [andb].
        rewrite cp_eqb_sym in Ex. rewrite Ex in E. cbn [andb] in E.
        rewrite replace_pair_step. destruct s' as [|z s''].
        -- now rewrite cp_eqb_sym.
        -- rewrite E. cbn [andb]. now rewrite cp_eqb_sym.
Qed.

(** Whether a stripped paragraph is marked as a heading. *)
Definition marked (p : text) : bool :=
  startswith (txt "**") p && endswith (txt "**") p.

(** X17.  What [add_module_requirements] makes of one paragraph of the
    generated text.  A blank paragraph gives nothing.  A paragraph whose
    stripped text begins and ends with two asterisks gives a level-2
    heading and a spacer; the text of the heading is the stripped text
    without its pairs of asterisks, and it holds no pair of asterisks any
    more, wherever in the paragraph the pairs stood.  Every other
    paragraph gives its stripped text, as it is, in the body style, and a
    spacer. *)
Theorem generated_headings_without_markers (paragraph : text) :
  (strip paragraph = [] -> paragraph_flowables paragraph = []) /\
  (marked (strip paragraph) = true ->
   paragraph_flowables paragraph
   = [ Paragraph (replace (txt "**") [] (strip paragraph)) heading2_style;
       Spacer 10 (1 * inch / 10) ] /\
   ~ occurs_in (txt "**") (replace (txt "**") [] (strip paragraph))) /\
  (strip paragraph <> [] -> marked (strip paragraph) = false ->
   paragraph_flowables paragraph
   = [ Paragraph (strip paragraph) body_style;
       Spacer 10 (1 * inch / 10) ]).
Proof.
  unfold paragraph_flowables, marked.
  destruct (strip paragraph) as [|c s] eqn:E.
  - split; [reflexivity|]. split; [discriminate|]. now intros H.
  - split; [discriminate|]. split.
    + intros ->. split; [reflexivity|].
      change (txt "**") with [STAR; STAR].
      apply no_double_occurs. unfold replace.
      now apply (@replace_pair_no_double STAR (length (c :: s)) (c :: s)).
    + intros _ ->. reflexivity.
Qed.

Lemma generated_headings_without_markers_witness :
  paragraph_flowables (txt "  **Error*** Handling**  ")
  = [ Paragraph (txt "Error* Handling") heading2_style;
      Spacer 10 (1 * inch / 10) ] /\
  ~ occurs_in (txt "**") (txt "Error* Handling").
Proof.
  destruct (@generated_headings_without_markers
              (txt "  **Error*** Handling**  ")) as (_ & Hheading & _).
  apply Hheading. vm_compute. reflexivity.
Defined.

End HeadingFacts.

(** ** The converter through [markdown2pdf] *)

Module ConverterFacts.

Import DocGenerator MarkdownToPdf Examples.

Lemma disk_lookup_removed path d :
  disk_lookup (filter (fun entry => negb (text_eqb (fst entry) path)) d) path
  = None.
Proof.
  induction d as [|[p c] d IH]; [reflexivity|]. cbn [filter fst].
  destruct (text_eqb p path) eqn:E; cbn [negb]; [exact IH|].
  cbn [disk_lookup]. now rewrite E.
Qed.

Lemma disk_lookup_kept path path' d :
  path <> path' ->
  disk_lookup (filter (fun entry => negb (text_eqb (fst entry) path)) d) path'
  = disk_lookup d path'.
Proof.
  intros Hp. induction d as [|[p c] d IH]; [reflexivity|]. cbn [filter fst].
  destruct (text_eqb p path) eqn:E; cbn [negb disk_lookup].
  - apply text_eqb_eq in E. subst p.
    destruct (text_eqb path path') eqn:E'; [|exact IH].
    apply text_eqb_eq in E'. contradiction.
  - now rewrite IH.
Qed.

Section Converter.

Variable w : world.
Variable markdown2pdf_convert : text -> text -> conversion.
Variable remove_fault : text -> option exn.

(** What a readable file adds to the combined text: its name as a
    heading, its text as it is, and a rule. *)
Definition block_of (md_file : text) : text :=
  NL2 ++ txt "# " ++ basename md_file ++ NL2
  ++ match read_file w md_file with
     | Ok content => content
     | Raise _ => []
     end
  ++ NL2 ++ txt "---" ++ NL2.

Definition can_read (md_file : text) : bool :=
  match read_file w md_file with
  | Ok _ => true
  | Raise _ => false
  end.

Lemma append_files_all md_files : forall combined_md st,
  forallb can_read md_files = true ->
  append_files w md_files combined_md st
  = (st, Ok (combined_md ++ concat (map block_of md_files))).
Proof.
  induction md_files as [|f rest IH]; intros c st Hall.
  - cbn. now rewrite app_nil_r.
  - cbn [forallb] in Hall. apply andb_true_iff in Hall as [Hf Hall].
    cbn [append_files map concat]. unfold bindM at 1, append_file, bindM,
      lift, ret, block_of. unfold can_read in Hf.
    destruct (read_file w f) as [content|e]; [|discriminate].
    rewrite IH by exact Hall. now rewrite <- !app_assoc.
Qed.

Lemma append_files_stops before md_file after e : forall combined_md st,
  forallb can_read before = true ->
  read_file w md_file = Raise e ->
  append_files w (before ++ md_file :: after) combined_md st
  = (st, Raise e).
Proof.
  induction before as [|f rest IH]; intros c st Hall Hr.
  - cbn [app append_files]. unfold bindM, append_file, lift.
    now rewrite Hr.
  - cbn [forallb] in Hall. apply andb_true_iff in Hall as [Hf Hall].
    cbn [app append_files]. unfold bindM at 1, append_file, bindM, lift, ret.
    unfold can_read in Hf.
    destruct (read_file w f) as [content|e']; [|discriminate].
    now apply IH.
Qed.

(** The files the converter works on, in its order. *)
Definition md_files_of (input_folder : text) : list text :=
  sort (glob_ext input_folder (txt ".md") (listdir w input_folder)).

Definition converter_error (e : exn) : text :=
  txt "Error with markdown2pdf: " ++ str_exn e.

Definition not_installed : text :=
  txt "markdown2pdf not installed. Install with: pip install markdown2pdf".

Definition found_line (input_folder : text) : text :=
  txt "Found " ++ str_nat (length (md_files_of input_folder))
    ++ txt " markdown files".

(** The run with the package present and at least one file. *)
Lemma convert_with_files input_folder output_pdf st :
  md_files_of input_folder <> [] ->
  convert_using_markdown2pdf w true markdown2pdf_convert remove_fault
                             input_folder output_pdf st
  = try_import_except
      (andthen (plain (write_temp w (md_files_of input_folder))) (fun _ =>
       andthen (convert markdown2pdf_convert temp_md output_pdf) (fun _ =>
       plain (os_remove remove_fault temp_md ;;;
              print (txt "Successfully created PDF: " ++ output_pdf)))))
      (print not_installed)
      (fun e => print (converter_error e)) st.
Proof.
  intros Hne. unfold convert_using_markdown2pdf. cbv zeta.
  fold (md_files_of input_folder).
  unfold try_import_except, andthen at 1, import_markdown2pdf.
  destruct (md_files_of input_folder); [contradiction|reflexivity].
Qed.

(** X18.  Unlike [combine_markdown_files], this converter gives up on the
    first file it cannot read: the files before and after it are dropped
    with it, no temporary file is written, the conversion is not run, and
    the error is printed; the call itself returns normally. *)
Theorem convert_aborts_on_unreadable_file
  (input_folder output_pdf : text) (st : state)
  (before : list text) (md_file : text) (after : list text) (e : exn) :
  md_files_of input_folder = before ++ md_file :: after ->
  forallb can_read before = true ->
  read_file w md_file = Raise e ->
  convert_using_markdown2pdf w true markdown2pdf_convert remove_fault
                             input_folder output_pdf st
  = ({| console :=
          console st ++ [found_line input_folder; converter_error e];
        disk := disk st; calls := calls st |},
     Ok tt).
Proof.
  intros Hfiles Hall Hr.
  rewrite convert_with_files by (rewrite Hfiles; now destruct before).
  unfold try_import_except, andthen at 1, plain, write_temp, bindM at 1.
  cbn [print]. unfold bindM at 1. rewrite Hfiles.
  erewrite append_files_stops by eassumption.
  unfold converter_error, found_line, print. rewrite Hfiles.
  cbn [console disk calls]. now rewrite <- app_assoc.
Qed.

(** The text of the temporary file. *)
Definition combined_md (input_folder : text) : text :=
  concat (map block_of (md_files_of input_folder)).

(** X19.  When every file can be read and the temporary file can be
    written, it holds, for each file in the order of the names, the name as
    a heading, the text of the file unchanged, and a rule, also after the
    last file.  When the conversion succeeds the document is written to the
    output path and the temporary file is removed; when the conversion
    fails, with an [ImportError] or another exception, or the removal
    does, the temporary file stays behind with that text and a line says
    so.  In every case the call returns normally and touches no file other
    than the temporary file and the output. *)
Theorem convert_temporary_file (input_folder output_pdf : text)
  (st : state) :
  md_files_of input_folder <> [] ->
  forallb can_read (md_files_of input_folder) = true ->
  open_fault w temp_md = None ->
  write_fault w temp_md [] (combined_md input_folder) = None ->
  output_pdf <> temp_md ->
  exists st',
    convert_using_markdown2pdf w true markdown2pdf_convert remove_fault
                               input_folder output_pdf st
    = (st', Ok tt) /\
    (forall path, path <> temp_md -> path <> output_pdf ->
                  disk_lookup (disk st') path = disk_lookup (disk st) path) /\
    match markdown2pdf_convert (combined_md input_folder) output_pdf with
    | Converted document =>
        disk_lookup (disk st') output_pdf = Some document /\
        match remove_fault temp_md with
        | None =>
            disk_lookup (disk st') temp_md = None /\
            last (console st') []
            = txt "Successfully created PDF: " ++ output_pdf
        | Some e =>
            disk_lookup (disk st') temp_md
            = Some (combined_md input_folder) /\
            last (console st') [] = converter_error e
        end
    | ImportFailed =>
        disk_lookup (disk st') temp_md = Some (combined_md input_folder) /\
        last (console st') [] = not_installed
    | ConversionFailed e =>
        disk_lookup (disk st') temp_md = Some (combined_md input_folder) /\
        last (console st') [] = converter_error e
    end.
Proof.
  intros Hne Hall Ho Hw Hout.
  rewrite convert_with_files by exact Hne. unfold combined_md in *.
  unfold try_import_except, andthen at 1, plain at 1, write_temp,
    bindM at 1.
  cbn [print]. unfold bindM at 1.
  rewrite append_files_all by exact Hall. cbn [app].
  unfold bindM at 1, open_write. rewrite Ho. cbn [disk_set].
  unfold file_write. cbn [disk].
  rewrite disk_lookup_same, Hw. cbn [disk_set app disk console calls].
  unfold andthen at 1, convert. cbn [disk]. rewrite disk_lookup_same.
  destruct (markdown2pdf_convert
              (concat (map block_of (md_files_of input_folder))) output_pdf)
    as [document| |e].
  - cbn [disk_set fst]. unfold plain, bindM at 1, os_remove. cbn [disk].
    rewrite disk_lookup_other by exact Hout. rewrite disk_lookup_same.
    destruct (remove_fault temp_md) as [e|].
    + unfold converter_error, print. eexists. split; [reflexivity|].
      cbn [disk console]. split; [|split; [apply disk_lookup_same|split]].
      * intros path Hp Hp'.
        now rewrite !disk_lookup_other by congruence.
      * rewrite disk_lookup_other by exact Hout. apply disk_lookup_same.
      * apply last_last.
    + cbn [print]. eexists. split; [reflexivity|]. cbn [disk console].
      split; [|split; [|split]].
      * intros path Hp Hp'. rewrite disk_lookup_kept by congruence.
        now rewrite !disk_lookup_other by congruence.
      * rewrite disk_lookup_kept by congruence. apply disk_lookup_same.
      * apply disk_lookup_removed.
      * apply last_last.
  - unfold not_installed, print. eexists. split; [reflexivity|].
    cbn [disk console]. split; [|split; [apply disk_lookup_same|]].
    + intros path Hp Hp'. now rewrite !disk_lookup_other by congruence.
    + apply last_last.
  - unfold converter_error, print. eexists. split; [reflexivity|].
    cbn [disk console]. split; [|split; [apply disk_lookup_same|]].
    + intros path Hp Hp'. now rewrite !disk_lookup_other by congruence.
    + apply last_last.
Qed.

End Converter.

Lemma convert_aborts_on_unreadable_file_witness :
  convert_using_markdown2pdf CombineFacts.docs_world true
    (fun _ _ => Converted []) (fun _ => None)
    (txt "crud_docs") (txt "crud_documentation.pdf") initial_state
  = ({| console :=
          [ txt "Found 3 markdown files";
            txt "Error with markdown2pdf: [Errno 2] No such file or directory: crud_docs/order_doc.md" ];
        disk := []; calls := 0 |},
     Ok tt).
Proof.
  rewrite (@convert_aborts_on_unreadable_file CombineFacts.docs_world
             (fun _ _ => Converted []) (fun _ => None)
             (txt "crud_docs") (txt "crud_documentation.pdf") initial_state
             [txt "crud_docs/item_doc.md"] (txt "crud_docs/order_doc.md")
             [txt "crud_docs/user_crud_doc.md"] CombineFacts.order_error).
  - vm_compute. reflexivity.
  - vm_compute. reflexivity.
  - reflexivity.
  - reflexivity.
Defined.

(** The bytes of a document, as far as the example goes. *)
Definition pdf_bytes : text := txt "%PDF-1.4".

Lemma convert_temporary_file_witness :
  exists st',
    convert_using_markdown2pdf CombineFacts.two_docs_world true
      (fun _ _ => Converted pdf_bytes) (fun _ => None)
      (txt "crud_docs") (txt "crud_documentation.pdf") initial_state
    = (st', Ok tt) /\
    disk_lookup (disk st') (txt "crud_documentation.pdf") = Some pdf_bytes /\
    disk_lookup (disk st') temp_md = None /\
    last (console st') []
    = txt "Successfully created PDF: crud_documentation.pdf".
Proof.
  destruct (@convert_temporary_file CombineFacts.two_docs_world
              (fun _ _ => Converted pdf_bytes) (fun _ => None)
              (txt "crud_docs") (txt "crud_documentation.pdf") initial_state)
    as (st' & Hrun & _ & Hpdf & Htemp & Hlast);
    [vm_compute; discriminate|vm_compute; reflexivity|reflexivity
    |reflexivity|vm_compute; discriminate|].
  exists st'. split; [exact Hrun|]. split; [exact Hpdf|].
  split; [exact Htemp|exact Hlast].
Defined.

End ConverterFacts.
